(** * Hyperparameter search wrapper (atomsci/ddm/utils/hyperparam_search_wrapper.py)

    A shallow embedding of the search-space expansion and of the dispatch
    loop of [hyperparam_search_wrapper.py], with the properties of the
    design document stated over it.

    Conventions of the embedding.
    - Python [int] is [Z]; a Python list is a [list]; a Python [dict] is an
      insertion-ordered association list with unique keys (module [Dict]).
    - A call that may raise returns a [result]: [Ok v] or [Raise e].
    - External collaborators (datastore, model tracker, slurm, uuid, numpy
      samplers) are parameters or scripted oracles; every effect of the
      dispatch loop is recorded in a trace of events. *)

From Stdlib Require Import PrimFloat.
From Stdlib Require Import List ZArith String Ascii Bool Lia Sorted Permutation.
Import ListNotations.

Set Implicit Arguments.
Set Warnings "-register-all".
Open Scope Z_scope.

(** ** Exceptions and results *)

Inductive pyexn : Type :=
| IndexError
| ValueError
| KeyError
| TypeError
| AttributeError
| AssertionError
| RuntimeError.

Inductive result (A : Type) : Type :=
| Ok (a : A)
| Raise (e : pyexn).

Arguments Ok {A} a.
Arguments Raise {A} e.

Definition rbind {A B : Type} (r : result A) (k : A -> result B) : result B :=
  match r with
  | Ok a => k a
  | Raise e => Raise e
  end.

Declare Scope result_scope.
Delimit Scope result_scope with result.
Notation "'do' x <- r ; k" := (rbind r (fun x => k))
  (at level 10, x pattern, r at level 100, k at level 200) : result_scope.

(** A [for] loop whose body may raise: the state is threaded left to right
    and the first exception ends the loop. *)
Fixpoint for_each {S A : Type} (body : S -> A -> result S) (xs : list A) (s : S)
  : result S :=
  match xs with
  | [] => Ok s
  | x :: rest =>
      match body s x with
      | Ok s' => for_each body rest s'
      | Raise e => Raise e
      end
  end.

(** [seq[-1]]: the last element, [IndexError] on an empty sequence. *)
Fixpoint py_last {A : Type} (l : list A) : result A :=
  match l with
  | [] => Raise IndexError
  | [x] => Ok x
  | _ :: rest => py_last rest
  end.

(** ** LayerTopologyPermutator: [permutate_NNlayer_combo_params] *)

Module Permutator.

(** [np.sort] on an integer array: ascending order.  Only comparisons are
    involved, so the result is the sorted permutation whatever algorithm
    numpy picks; insertion sort computes it here. *)
Fixpoint insert_asc (x : Z) (l : list Z) : list Z :=
  match l with
  | [] => [x]
  | y :: rest => if x <=? y then x :: l else y :: insert_asc x rest
  end.

Definition np_sort (l : list Z) : list Z := fold_right insert_asc [] l.

(** [itertools.combinations(pool, r)] for [r >= 0]: the [r]-length
    subsequences of [pool], in lexicographic order of positions. *)
Fixpoint combinations_nat {A : Type} (pool : list A) (r : nat) : list (list A) :=
  match r with
  | O => [[]]
  | S r' =>
      match pool with
      | [] => []
      | x :: rest =>
          map (cons x) (combinations_nat rest r') ++ combinations_nat rest r
      end
  end.

(** The constructor raises [ValueError] on a negative [r]. *)
Definition combinations {A : Type} (pool : list A) (r : Z) : result (list (list A)) :=
  if r <? 0 then Raise ValueError else Ok (combinations_nat pool (Z.to_nat r)).

(** [layer not in _repeated_layers], lists compared element by element. *)
Definition layer_in (layer : list Z) (seen : list (list Z)) : bool :=
  if in_dec (list_eq_dec Z.eq_dec) layer seen then true else false.

Section Loop.

(** The type of a dropout value (a float, or an int as in the docstring). *)
Variable D : Type.

(** The three lists the loops append to. *)
Record acc : Type := mkAcc {
  layer_sizes : list (list Z);
  dropouts : list (list D);
  _repeated_layers : list (list Z)
}.

(** Body of the innermost loop, lines 173-177. *)
Definition visit_layer (max_final_layer_size : Z) (dropout : D)
    (a : acc) (layer : list Z) : result acc :=
  (do final <- py_last layer;
   if (final <=? max_final_layer_size) && negb (layer_in layer (_repeated_layers a))
   then Ok {| layer_sizes := layer_sizes a ++ [layer];
              dropouts := dropouts a ++ [map (fun _ => dropout) layer];
              _repeated_layers := _repeated_layers a ++ [layer] |}
   else Ok a)%result.

(** One iteration of [for layer_num in layer_nums], lines 171-177. *)
Definition visit_layer_num (node_nums : list Z) (max_final_layer_size : Z)
    (dropout : D) (a : acc) (layer_num : Z) : result acc :=
  (do layers <- combinations node_nums layer_num;
   for_each (visit_layer max_final_layer_size dropout) layers a)%result.

(** One iteration of [for dropout in dropout_list], lines 169-177:
    [_repeated_layers] starts empty for every dropout value. *)
Definition visit_dropout (layer_nums : list Z) (node_nums : list Z)
    (max_final_layer_size : Z) (a : acc) (dropout : D) : result acc :=
  for_each (visit_layer_num node_nums max_final_layer_size dropout) layer_nums
    {| layer_sizes := layer_sizes a;
       dropouts := dropouts a;
       _repeated_layers := [] |}.

Definition permutate_NNlayer_combo_params (layer_nums node_nums : list Z)
    (dropout_list : list D) (max_final_layer_size : Z)
  : result (list (list Z) * list (list D)) :=
  (let node_nums := rev (np_sort node_nums) in
   do smallest <- py_last node_nums;
   let max_final_layer_size :=
     if smallest >? max_final_layer_size then smallest else max_final_layer_size in
   do a <- for_each (visit_dropout layer_nums node_nums max_final_layer_size)
             dropout_list
             {| layer_sizes := []; dropouts := []; _repeated_layers := [] |};
   Ok (layer_sizes a, dropouts a))%result.

End Loop.

End Permutator.

(** ** Python values and dictionaries *)

(** The values that travel through the parameter records. *)
Inductive pyval : Type :=
| PNone
| PBool (b : bool)
| PInt (n : Z)
| PFloat (f : PrimFloat.float)
| PStr (s : string)
| PList (items : list pyval)
| PDict (entries : list (string * pyval)).

(** Truthiness, as tested by [not value]. *)
Definition truthy (v : pyval) : bool :=
  match v with
  | PNone => false
  | PBool b => b
  | PInt n => negb (n =? 0)
  | PFloat f => negb (PrimFloat.eqb f PrimFloat.zero)
  | PStr s => negb (String.eqb s EmptyString)
  | PList items => match items with [] => false | _ => true end
  | PDict entries => match entries with [] => false | _ => true end
  end.

(** [v == 'text'] for a string literal. *)
Definition eq_str (v : pyval) (text : string) : bool :=
  match v with
  | PStr s => String.eqb s text
  | _ => false
  end.

(** Membership of a name in one of the module's sets of names. *)
Definition name_in (k : string) (names : list string) : bool :=
  existsb (String.eqb k) names.

Module Dict.

(** An insertion-ordered dictionary with string keys. *)
Definition t (V : Type) : Type := list (string * V).

Definition empty {V : Type} : t V := [].

(** [d.get(k)] *)
Fixpoint get {V : Type} (d : t V) (k : string) : option V :=
  match d with
  | [] => None
  | (k', v) :: rest => if String.eqb k k' then Some v else get rest k
  end.

(** [d[k]], [KeyError] when absent. *)
Definition getitem {V : Type} (d : t V) (k : string) : result V :=
  match get d k with Some v => Ok v | None => Raise KeyError end.

(** [d[k] = v]: an existing key keeps its position, a new key goes last. *)
Fixpoint set {V : Type} (d : t V) (k : string) (v : V) : t V :=
  match d with
  | [] => [(k, v)]
  | (k', v') :: rest =>
      if String.eqb k k' then (k', v) :: rest else (k', v') :: set rest k v
  end.

(** [del d[k]] when present. *)
Fixpoint del {V : Type} (d : t V) (k : string) : t V :=
  match d with
  | [] => []
  | (k', v') :: rest =>
      if String.eqb k k' then rest else (k', v') :: del rest k
  end.

Definition keys {V : Type} (d : t V) : list string := map fst d.
Definition values {V : Type} (d : t V) : list V := map snd d.

(** [dict(zip(ks, vs))] built by successive assignments. *)
Fixpoint of_zip {V : Type} (ks : list string) (vs : list V) (d : t V) : t V :=
  match ks, vs with
  | k :: ks', v :: vs' => of_zip ks' vs' (set d k v)
  | _, _ => d
  end.

End Dict.

(** ** Parameter-count estimate: [get_num_params] *)

Module NumParams.

(** The embedding covers integer layer sizes, the only ones the parser and
    the permutator produce; any other value of [layer_sizes] is reported as
    [TypeError].  The sizes are Python integers; on the numpy [int64]
    scalars of the permutator the arithmetic is the same as long as the
    sum stays within 64 bits. *)
Fixpoint as_ints (items : list pyval) : result (list Z) :=
  match items with
  | [] => Ok []
  | PInt n :: rest => (do ns <- as_ints rest; Ok (n :: ns))%result
  | _ :: _ => Raise TypeError
  end.

Definition int_list (v : pyval) : result (list Z) :=
  match v with
  | PList items => as_ints items
  | _ => Raise TypeError
  end.

(** [sum(layers[i] * layers[i + 1] + layers[i+1] for i in range(len(layers) - 1))] *)
Definition adjacent_sum (layers : list Z) : Z :=
  fold_left Z.add
    (map (fun i => nth i layers 0 * nth (S i) layers 0 + nth (S i) layers 0)
         (seq 0 (List.length layers - 1)))
    0.

(** The function returns a number on some paths and falls off its end
    (returning [None]) on another; [PInt] and [PNone] keep the two apart. *)
Definition get_num_params (combo : Dict.t pyval) : result pyval :=
  (do layers_v <- Dict.getitem combo "layer_sizes";
   do layers <- int_list layers_v;
   do first <- match layers with [] => Raise IndexError | n :: _ => Ok n end;
   let tmp_sum := first + adjacent_sum layers in
   do featurizer <- Dict.getitem combo "featurizer";
   if eq_str featurizer "ecfp" then Ok (PInt (tmp_sum + first * 1024))
   else
     do featurizer <- Dict.getitem combo "featurizer";
     if eq_str featurizer "descriptors" then
       do descriptor_type <- Dict.getitem combo "descriptor_type";
       if eq_str descriptor_type "moe" then Ok (PInt (tmp_sum + first * 306))
       else
         do descriptor_type <- Dict.getitem combo "descriptor_type";
         if eq_str descriptor_type "mordred_filtered"
         then Ok (PInt (tmp_sum + first * 1555))
         else Ok PNone
     else Ok (PInt tmp_sum))%result.

End NumParams.

(** ** Sequence protocol of the values *)

(** The characters of a string, each a one-character string. *)
Fixpoint chars (s : string) : list pyval :=
  match s with
  | EmptyString => []
  | String c rest => PStr (String c EmptyString) :: chars rest
  end.

(** [isinstance(v, collections.Iterable)] *)
Definition is_iterable (v : pyval) : bool :=
  match v with
  | PList _ | PStr _ | PDict _ => true
  | _ => false
  end.

(** [list(v)] / [for x in v] *)
Definition py_iter (v : pyval) : result (list pyval) :=
  match v with
  | PList items => Ok items
  | PStr s => Ok (chars s)
  | PDict entries => Ok (map (fun kv => PStr (fst kv)) entries)
  | _ => Raise TypeError
  end.

(** [v[i]] for a literal index [i >= 0]. *)
Definition py_index (v : pyval) (i : nat) : result pyval :=
  match v with
  | PList items =>
      match nth_error items i with Some x => Ok x | None => Raise IndexError end
  | PStr s =>
      match nth_error (chars s) i with Some x => Ok x | None => Raise IndexError end
  | PDict _ => Raise KeyError
  | _ => Raise TypeError
  end.

(** [len(v)] *)
Definition py_len (v : pyval) : result nat :=
  match v with
  | PList items => Ok (List.length items)
  | PStr s => Ok (String.length s)
  | PDict entries => Ok (List.length entries)
  | _ => Raise TypeError
  end.

Definition is_list (v : pyval) : bool :=
  match v with PList _ => true | _ => false end.

Definition is_str (v : pyval) : bool :=
  match v with PStr _ => true | _ => false end.

(** [map] with a body that may raise. *)
Fixpoint map_result {A B : Type} (f : A -> result B) (xs : list A) : result (list B) :=
  match xs with
  | [] => Ok []
  | x :: rest =>
      (do y <- f x; do ys <- map_result f rest; Ok (y :: ys))%result
  end.

(** ** CombinationStrategy and SearchSpaceBuilder *)

(** [itertools.product] over the unpacked pools: the rightmost pool varies
    fastest; no pool at all gives the one empty tuple. *)
Fixpoint product {A : Type} (pools : list (list A)) : list (list A) :=
  match pools with
  | [] => [[]]
  | pool :: rest => flat_map (fun x => map (cons x) (product rest)) pool
  end.

(** The method each search class implements.  [Ok None] is the Python
    [None] the implementations return for an empty dictionary. *)
Class SearchStrategy : Type := {
  generate_combo : Dict.t pyval -> result (option (Dict.t pyval))
}.

Module Strategies.

Section Sampled.

(** [parse.convert_to_int_list] and [parse.convert_to_float_list] live in
    the parameter parser; [int] and [float] are the builtins. *)
Variable convert_to_int : list string.
Variable convert_to_float : list string.
Variable py_int : pyval -> result pyval.
Variable py_float : pyval -> result pyval.

(** The numpy sampler of a class, called on [value[0], value[1], value[2]]:
    [np.linspace], [np.random.uniform] or [np.geomspace].  The position of
    the call stands for the generator state of the random sampler. *)
Variable sampler : nat -> pyval -> pyval -> pyval -> result (list pyval).

(** One iteration of the loop of [GridSearch.generate_combo] (and of its
    Random and Geometric twins), lines 878-889. *)
Definition sampled_entry (st : nat * Dict.t pyval) (kv : string * pyval)
  : result (nat * Dict.t pyval) :=
  let '(n, new_dict) := st in
  let '(key, value) := kv in
  if negb (is_iterable value) then Raise AssertionError
  else if String.eqb key "layers" then Ok (S n, Dict.set new_dict key value)
  else
    (do v0 <- py_index value 0;
     if negb (is_str v0) then
       do v0 <- py_index value 0;
       do v1 <- py_index value 1;
       do v2 <- py_index value 2;
       do tmp_list <- sampler n v0 v1 v2;
       if name_in key convert_to_int then
         do ints <- map_result py_int tmp_list;
         Ok (S n, Dict.set new_dict key (PList ints))
       else Ok (S n, Dict.set new_dict key (PList tmp_list))
     else Ok (S n, Dict.set new_dict key value))%result.

Definition sampled_generate_combo (params_dict : Dict.t pyval)
  : result (option (Dict.t pyval)) :=
  match params_dict with
  | [] => Ok None
  | _ =>
      (do st <- for_each sampled_entry params_dict (O, Dict.empty);
       Ok (Some (snd st)))%result
  end.

(** One iteration of the loop of [UserSpecifiedSearch.generate_combo],
    lines 1026-1035. *)
Definition user_entry (new_dict : Dict.t pyval) (kv : string * pyval)
  : result (Dict.t pyval) :=
  let '(key, value) := kv in
  if negb (is_iterable value) then Raise AssertionError
  else if String.eqb key "layers" then Ok (Dict.set new_dict key value)
  else if name_in key convert_to_int then
    (do items <- py_iter value;
     do ints <- map_result py_int items;
     Ok (Dict.set new_dict key (PList ints)))%result
  else if name_in key convert_to_float then
    (do items <- py_iter value;
     do floats <- map_result py_float items;
     Ok (Dict.set new_dict key (PList floats)))%result
  else Ok (Dict.set new_dict key value).

Definition user_generate_combo (params_dict : Dict.t pyval)
  : result (option (Dict.t pyval)) :=
  match params_dict with
  | [] => Ok None
  | _ =>
      (do new_dict <- for_each user_entry params_dict Dict.empty;
       Ok (Some new_dict))%result
  end.

End Sampled.

(** The four search classes; each differs from the others in its sampler
    only, [UserSpecifiedSearch] in taking the lists as they are. *)
Definition GridSearch convert_to_int py_int np_linspace : SearchStrategy :=
  {| generate_combo :=
       sampled_generate_combo convert_to_int py_int (fun _ => np_linspace) |}.

Definition RandomSearch convert_to_int py_int np_random_uniform : SearchStrategy :=
  {| generate_combo :=
       sampled_generate_combo convert_to_int py_int np_random_uniform |}.

Definition GeometricSearch convert_to_int py_int np_geomspace : SearchStrategy :=
  {| generate_combo :=
       sampled_generate_combo convert_to_int py_int (fun _ => np_geomspace) |}.

Definition UserSpecifiedSearch convert_to_int convert_to_float py_int py_float
  : SearchStrategy :=
  {| generate_combo :=
       user_generate_combo convert_to_int convert_to_float py_int py_float |}.

End Strategies.

(** ** Paths and names *)

Fixpoint ends_with_slash (s : string) : bool :=
  match s with
  | EmptyString => false
  | String c EmptyString => Ascii.eqb c "/"
  | String _ rest => ends_with_slash rest
  end.

(** [os.path.join(a, b)] of [posixpath], for two components. *)
Definition os_path_join (a b : string) : string :=
  if String.prefix "/" b then b
  else if String.eqb a EmptyString || ends_with_slash a then String.append a b
  else String.append a (String.append "/" b).

(** Difference of two sets of names. *)
Definition names_minus (a b : list string) : list string :=
  filter (fun k => negb (name_in k b)) a.

(** [names.remove(k)] for a member, [names.add(k)]. *)
Definition names_remove (names : list string) (k : string) : list string :=
  filter (fun k' => negb (String.eqb k' k)) names.

Definition names_add (names : list string) (k : string) : list string :=
  if name_in k names then names else names ++ [k].

(** The module-level set of keys that never generate hyperparameters. *)
Definition excluded_keys : list string :=
  ["shortlist_key"; "use_shortlist"; "dataset_key"; "object_oid"; "script_dir";
   "python_path"; "config_file"; "hyperparam"; "search_type"; "split_only";
   "layer_nums"; "node_nums"; "dropout_list"; "max_final_layer_size"; "splitter";
   "nn_size_scale_factor"; "rerun"; "max_jobs"]%string.

Module Builder.

(** The sets [__init__] installs, lines 230-239. *)
Definition hyperparam_layers : list string :=
  ["layer_sizes"; "dropouts"; "weight_init_stddevs"; "bias_init_consts"]%string.

Definition initial_hyperparam_keys : list string :=
  ["model_type"; "featurizer"; "splitter"; "learning_rate"; "weight_decay_penalty";
   "rf_estimators"; "rf_max_features"; "rf_max_depth";
   "umap_dim"; "umap_targ_wt"; "umap_metric"; "umap_neighbors"; "umap_min_dist";
   "xgb_learning_rate"; "xgb_gamma"]%string ++ hyperparam_layers.

Definition nn_specific_keys : list string :=
  ["learning_rate"; "layers"; "weight_decay_penalty"]%string.

Definition rf_specific_keys : list string :=
  ["rf_estimators"; "rf_max_features"; "rf_max_depth"]%string.

Definition xgboost_specific_keys : list string :=
  ["xgb_learning_rate"; "xgb_gamma"]%string.

(** The attributes of a [HyperparameterSearch] object the builder reads
    and writes.  [params] is [vars(self.params)]. *)
Record search : Type := mkSearch {
  params : Dict.t pyval;
  hyperparam_uuid : string;
  hyperparam_keys : list string;
  hyperparams : Dict.t pyval;
  new_params : Dict.t pyval;
  layers : Dict.t pyval;
  param_combos : list (Dict.t pyval)
}.

(** The object as [__init__] leaves it (lines 230-258), the layer
    permutation of lines 245-250 being applied to [params] by the caller. *)
Definition init (params : Dict.t pyval) (uuid : string) : search :=
  {| params := params;
     hyperparam_uuid := uuid;
     hyperparam_keys := initial_hyperparam_keys;
     hyperparams := Dict.empty;
     new_params := Dict.empty;
     layers := Dict.empty;
     param_combos := [] |}.

Definition set_hyperparam_keys (s : search) (ks : list string) : search :=
  {| params := params s; hyperparam_uuid := hyperparam_uuid s;
     hyperparam_keys := ks; hyperparams := hyperparams s;
     new_params := new_params s; layers := layers s;
     param_combos := param_combos s |}.

Definition set_hyperparam (s : search) (k : string) (v : pyval) : search :=
  {| params := params s; hyperparam_uuid := hyperparam_uuid s;
     hyperparam_keys := hyperparam_keys s;
     hyperparams := Dict.set (hyperparams s) k v;
     new_params := new_params s; layers := layers s;
     param_combos := param_combos s |}.

Definition set_new_param (s : search) (k : string) (v : pyval) : search :=
  {| params := params s; hyperparam_uuid := hyperparam_uuid s;
     hyperparam_keys := hyperparam_keys s; hyperparams := hyperparams s;
     new_params := Dict.set (new_params s) k v; layers := layers s;
     param_combos := param_combos s |}.

Definition set_layer (s : search) (k : string) (v : pyval) : search :=
  {| params := params s; hyperparam_uuid := hyperparam_uuid s;
     hyperparam_keys := hyperparam_keys s; hyperparams := hyperparams s;
     new_params := new_params s; layers := Dict.set (layers s) k v;
     param_combos := param_combos s |}.

Definition set_param (s : search) (k : string) (v : pyval) : search :=
  {| params := Dict.set (params s) k v; hyperparam_uuid := hyperparam_uuid s;
     hyperparam_keys := hyperparam_keys s; hyperparams := hyperparams s;
     new_params := new_params s; layers := layers s;
     param_combos := param_combos s |}.

Definition extend_param_combos (s : search) (cs : list (Dict.t pyval)) : search :=
  {| params := params s; hyperparam_uuid := hyperparam_uuid s;
     hyperparam_keys := hyperparam_keys s; hyperparams := hyperparams s;
     new_params := new_params s; layers := layers s;
     param_combos := param_combos s ++ cs |}.

(** *** [assemble_layers], lines 382-401 *)

(** [min(lengths)], [ValueError] on an empty list. *)
Definition py_min (lengths : list nat) : result nat :=
  match lengths with
  | [] => Raise ValueError
  | n :: rest => Ok (fold_left Nat.min rest n)
  end.

(** [x.count(x[0]) == len(x)]; on an empty [x] the index raises inside the
    [try], which the bare [except] turns into [continue]. *)
Definition assert_same_length (x : list nat) : bool :=
  match x with
  | [] => false
  | x0 :: _ => Nat.eqb (count_occ Nat.eq_dec x x0) (List.length x)
  end.

(** The inner loop building [tmp_dict] for position [i]. *)
Definition bundle_entry (i : nat) (tmp_dict : Dict.t pyval) (kv : string * pyval)
  : result (Dict.t pyval) :=
  (do item <- py_index (snd kv) i; Ok (Dict.set tmp_dict (fst kv) item))%result.

(** One iteration of the loop over positions. *)
Definition bundle_position (layers : Dict.t pyval) (tmp_list : list (Dict.t pyval))
    (i : nat) : result (list (Dict.t pyval)) :=
  (do tmp_dict <- for_each (bundle_entry i) layers Dict.empty;
   do x <- map_result py_len (Dict.values tmp_dict);
   if assert_same_length x then Ok (tmp_list ++ [tmp_dict]) else Ok tmp_list)%result.

(** The list assigned to [self.hyperparams['layers']]. *)
Definition layer_bundles (layers : Dict.t pyval) : result (list (Dict.t pyval)) :=
  (do lengths <- map_result py_len (Dict.values layers);
   do n <- py_min lengths;
   for_each (bundle_position layers) (seq 0 n) [])%result.

Definition assemble_layers (s : search) : result search :=
  (do tmp_list <- layer_bundles (layers s);
   Ok (set_hyperparam_keys
         (set_hyperparam s "layers" (PList (map PDict tmp_list)))
         (names_add (hyperparam_keys s) "layers")))%result.

(** *** [generate_combos], lines 362-380 *)

Section WithStrategy.

Context {strategy : SearchStrategy}.

Definition generate_combos (params_dict : Dict.t pyval)
  : result (list (Dict.t pyval)) :=
  (do new_dict <- generate_combo params_dict;
   match new_dict with
   | None => Raise AttributeError
   | Some new_dict =>
       let hyperparams := Dict.keys new_dict in
       do hyperparam_vals <- map_result py_iter (Dict.values new_dict);
       Ok (map (fun hyperparameter_tuple =>
                  Dict.of_zip hyperparams hyperparameter_tuple Dict.empty)
               (product hyperparam_vals))
   end)%result.

(** *** [generate_param_combos], lines 294-360 *)

(** One iteration of the loop over [vars(self.params).items()]. *)
Definition classify_param (s : search) (kv : string * pyval) : result search :=
  let '(key, value) := kv in
  if negb (truthy value) || name_in key excluded_keys then Ok s
  else if String.eqb key "result_dir" || String.eqb key "output_dir" then
    match value with
    | PStr dir => Ok (set_new_param s key (PStr (os_path_join dir (hyperparam_uuid s))))
    | _ => Raise TypeError
    end
  else
    (do layered <-
       (if name_in key hyperparam_layers
        then do first <- py_index value 0; Ok (is_list first)
        else Ok false);
     if layered then Ok (set_layer s key value)
     else if name_in key (hyperparam_keys s) then
       if negb (is_list value) then
         Ok (set_hyperparam_keys (set_new_param s key value)
               (names_remove (hyperparam_keys s) key))
       else
         do n <- py_len value;
         if Nat.eqb n 1 then
           do first <- py_index value 0;
           Ok (set_hyperparam_keys (set_new_param s key first)
                 (names_remove (hyperparam_keys s) key))
         else Ok (set_hyperparam s key value)
     else Ok (set_new_param s key value))%result.

(** The dictionary comprehension of lines 335, 346 and 356 followed by
    the two assignments. *)
Definition swept_hyperparams (s : search) (others1 others2 : list string)
  : Dict.t pyval :=
  let allowed := names_minus (names_minus (hyperparam_keys s) others1) others2 in
  filter (fun kv => name_in (fst kv) allowed) (hyperparams s).

Definition subcombo (s : search) (others1 others2 : list string)
    (model_type featurizer : pyval) : Dict.t pyval :=
  let subcombo := swept_hyperparams s others1 others2 in
  let subcombo := Dict.set subcombo "model_type" (PList [model_type]) in
  Dict.set subcombo "featurizer" (PList [featurizer]).

(** Body of the loops over the featurizers, for one model type. *)
Definition add_subset (skip_graphconv : bool) (others1 others2 : list string)
    (model_type : pyval) (s : search) (featurizer : pyval) : result search :=
  if skip_graphconv && eq_str featurizer "graphconv" then Ok s
  else
    (do combos <- generate_combos (subcombo s others1 others2 model_type featurizer);
     Ok (extend_param_combos s combos))%result.

(** [self.params.<name>], an attribute of the namespace. *)
Definition attribute (s : search) (name : string) : result pyval :=
  match Dict.get (params s) name with
  | Some v => Ok v
  | None => Raise AttributeError
  end.

(** Body of the loop over the model types, lines 331-360. *)
Definition add_model_type (s : search) (model_type : pyval) : result search :=
  if eq_str model_type "NN" then
    (do fs <- attribute s "featurizer"; do featurizers <- py_iter fs;
     for_each (add_subset false rf_specific_keys xgboost_specific_keys model_type)
       featurizers s)%result
  else if eq_str model_type "RF" then
    (do fs <- attribute s "featurizer"; do featurizers <- py_iter fs;
     for_each (add_subset true nn_specific_keys xgboost_specific_keys model_type)
       featurizers s)%result
  else if eq_str model_type "xgboost" then
    (do fs <- attribute s "featurizer"; do featurizers <- py_iter fs;
     for_each (add_subset true nn_specific_keys rf_specific_keys model_type)
       featurizers s)%result
  else Ok s.

(** [if type(self.params.<name>) == str: self.params.<name> = [...]] *)
Definition listify (name : string) (s : search) : result search :=
  (do v <- attribute s name;
   if is_str v then Ok (set_param s name (PList [v])) else Ok s)%result.

Definition generate_param_combos (s : search) : result search :=
  (do s <- for_each classify_param (params s) s;
   do s <- (match layers s with [] => Ok s | _ => assemble_layers s end);
   do s <- listify "model_type" s;
   do s <- listify "featurizer" s;
   do ms <- attribute s "model_type";
   do model_types <- py_iter ms;
   for_each add_model_type model_types s)%result.

End WithStrategy.

End Builder.

(** ** String helpers of the dispatch loop *)

Fixpoint has_slash (s : string) : bool :=
  match s with
  | EmptyString => false
  | String c rest => Ascii.eqb c "/" || has_slash rest
  end.

(** [s.split('/')[-1]], which is also [os.path.basename(s)]. *)
Fixpoint last_segment (s : string) : string :=
  match s with
  | EmptyString => EmptyString
  | String c rest =>
      if has_slash rest then last_segment rest
      else if Ascii.eqb c "/" then rest
      else s
  end.

Fixpoint char_in (c : ascii) (cs : string) : bool :=
  match cs with
  | EmptyString => false
  | String c' rest => Ascii.eqb c c' || char_in c rest
  end.

(** [s.rstrip(cs)]: trailing characters that belong to [cs] are removed. *)
Fixpoint rstrip (cs : string) (s : string) : string :=
  match s with
  | EmptyString => EmptyString
  | String c rest =>
      match rstrip cs rest with
      | EmptyString => if char_in c cs then EmptyString else String c EmptyString
      | kept => String c kept
      end
  end.

(** What follows the first ["."] of a list of characters. *)
Fixpoint after_dot (cs : list ascii) : list ascii :=
  match cs with
  | [] => []
  | c :: rest => if Ascii.eqb c "." then rest else after_dot rest
  end.

(** [os.path.splitext(p)[0]] for a [p] without a slash: the extension
    starts at the last dot, unless only dots come before it. *)
Definition splitext_root (p : string) : string :=
  let cs := list_ascii_of_string p in
  let stem := rev (after_dot (rev cs)) in
  if char_in "." p && existsb (fun c => negb (Ascii.eqb c ".")) stem
  then string_of_list_ascii stem
  else p.

(** ** DispatchLoop *)

Module Dispatch.

(** What the code prints, by the place that prints it. *)
Inductive message : Type :=
| MsgValue (v : pyval)
| MsgMetadataSleeping (e : pyexn)
| MsgMetadataExiting (e : pyexn)
| MsgShortlistSleeping (e : pyexn)
| MsgShortlistExiting (e : pyexn)
| MsgTrackerUnavailable (e : pyexn)
| MsgAlreadyCreated
| MsgJobsInQueue (i : Z)
| MsgException (e : pyexn)
| MsgTraceback
| MsgSlurmCommand (job : Dict.t pyval).

(** The observable effects, in the order they happen. *)
Inductive event : Type :=
| Print (m : message)
| Sleep (seconds : Z)
| GetKeyval (dataset_key bucket : pyval)
| RetrieveShortlist
| GetMetadata (filter_dict : Dict.t pyval) (collection_name : pyval)
| Squeue (i : Z)
| LogInfo (job : Dict.t pyval)
| OutFileWrite (job : Dict.t pyval)
| Sbatch (job : Dict.t pyval).

(** The mutable part of a run: [self.num_rows], the answers the queue
    will give to the coming polls, how often each service has been called,
    and the trace so far. *)
Record world : Type := mkWorld {
  num_rows : Dict.t pyval;
  squeue : list Z;
  keyval_calls : nat;
  tracker_calls : nat;
  shortlist_calls : nat;
  uuids_drawn : nat;
  trace : list event
}.

Definition record_event (e : event) (w : world) : world :=
  {| num_rows := num_rows w; squeue := squeue w;
     keyval_calls := keyval_calls w; tracker_calls := tracker_calls w;
     shortlist_calls := shortlist_calls w; uuids_drawn := uuids_drawn w;
     trace := trace w ++ [e] |}.

(** How a piece of the run ends: it returns, an exception leaves it,
    [sys.exit] ends the process, or it is still sleeping in the queue loop
    when the scripted polls run out. *)
Inductive outcome (A : Type) : Type :=
| Done (a : A) (w : world)
| Raised (e : pyexn) (w : world)
| Exited (status : Z) (w : world)
| Pending (w : world).

Arguments Done {A} a w.
Arguments Raised {A} e w.
Arguments Exited {A} status w.
Arguments Pending {A} w.

Definition M (A : Type) : Type := world -> outcome A.

Definition ret {A : Type} (a : A) : M A := fun w => Done a w.

Definition bind {A B : Type} (m : M A) (k : A -> M B) : M B :=
  fun w =>
    match m w with
    | Done a w' => k a w'
    | Raised e w' => Raised e w'
    | Exited c w' => Exited c w'
    | Pending w' => Pending w'
    end.

Declare Scope run_scope.
Delimit Scope run_scope with run.
Notation "x <- m ;; k" := (bind m (fun x => k))
  (at level 61, m at next level, right associativity) : run_scope.
Notation "m ;; k" := (bind m (fun _ => k))
  (at level 61, right associativity) : run_scope.
Open Scope run_scope.

Definition emit (e : event) : M unit := fun w => Done tt (record_event e w).

Definition raise {A : Type} (e : pyexn) : M A := fun w => Raised e w.

Definition sys_exit {A : Type} (status : Z) : M A := fun w => Exited status w.

(** A pure step that may raise. *)
Definition lift {A : Type} (r : result A) : M A :=
  match r with
  | Ok a => ret a
  | Raise e => raise e
  end.

(** [try: m  except Exception as e: ...]: the exception is handed to the
    caller as a value; [sys.exit] is not an [Exception] and passes. *)
Definition try_except {A : Type} (m : M A) : M (A + pyexn) :=
  fun w =>
    match m w with
    | Done a w' => Done (inl a) w'
    | Raised e w' => Done (inr e) w'
    | Exited c w' => Exited c w'
    | Pending w' => Pending w'
    end.

(** A [for] loop over a list, its state threaded through the body. *)
Fixpoint for_loop {S A : Type} (body : S -> A -> M S) (xs : list A) (s : S) : M S :=
  match xs with
  | [] => ret s
  | x :: rest => s' <- body s x ;; for_loop body rest s'
  end.

(** The retry loop as it is written at lines 444-460, 672-685 and 807-819:
    [while retry: try: ... except Exception as e: if i < 5: ...sleep(60);
    i += 1  else: ...].  [left] is [5 - i]; the value returned is the result
    of the attempt that succeeded, or the exception of the last attempt once
    no retry is left, which every caller handles in its own way. *)
Fixpoint retry_loop {A : Type} (attempt : M A) (before_sleep : pyexn -> M unit)
    (left : nat) : M (A + pyexn) :=
  r <- try_except attempt ;;
  match r with
  | inl a => ret (inl a)
  | inr e =>
      match left with
      | O => ret (inr e)
      | S left' =>
          before_sleep e ;; emit (Sleep 60) ;;
          retry_loop attempt before_sleep left'
      end
  end.

(** *** [reformat_filter_dict], lines 74-130

    The sets of names are iterated in the order they are written; Python
    leaves that order open, and nothing below depends on it.  The numpy
    scalar conversions of lines 119-128 are the identity on [pyval]. *)

Definition base_rename_dict : list (string * list string) :=
  [("ModelMetadata.ModelParameters",
    ["featurizer"; "model_choice_score_type"; "model_dataset_oid"; "model_type";
     "num_model_tasks"; "prediction_type"; "transformer_bucket"; "transformer_key";
     "transformer_oid"; "transformers"; "uncertainty"]);
   ("ModelMetadata.SplittingParameters.Splitting",
    ["num_folds"; "split_strategy"; "split_test_frac"; "split_uuid";
     "split_valid_frac"; "splitter"]);
   ("ModelMetadata.TrainingDataset",
    ["dataset_key"; "dataset_bucket"; "dataset_oid"; "num_classes";
     "feature_transform_type"; "response_transform_type"; "id_col"; "smiles_col";
     "response_cols"]);
   ("ModelMetadata.UmapSpecific",
    ["umap_dim"; "umap_metric"; "umap_targ_wt"; "umap_neighbors"; "umap_min_dist"])]%string.

Definition model_specific (model_type : pyval) : list (string * list string) :=
  (if eq_str model_type "NN" then
     [("ModelMetadata.NNSpecific",
       ["batch_size"; "bias_init_consts"; "dropouts"; "layer_sizes";
        "learning_rate"; "max_epochs"; "optimizer_type"; "weight_init_stddevs"])]
   else if eq_str model_type "RF" then
     [("ModelMetadata.RFSpecific", ["rf_estimators"; "rf_max_features"])]
   else if eq_str model_type "xgboost" then
     [("ModelMetadata.xgboostSpecific", ["xgb_learning_rate"; "xgb_gamma"])]
   else [])%string.

Definition featurizer_specific (featurizer : pyval) : list (string * list string) :=
  (if eq_str featurizer "ecfp" then
     [("ModelMetadata.ECFPSpecific", ["ecfp_radius"; "ecfp_size"])]
   else if eq_str featurizer "descriptor" then
     [("ModelMetadata.DescriptorSpecific",
       ["descriptor_key"; "descriptor_bucket"; "descriptor_oid"; "descriptor_type"])]
   else if eq_str featurizer "molvae" then
     [("ModelMetadata.AutoencoderSpecific",
       ["autoencoder_model_key"; "autoencoder_model_bucket";
        "autoencoder_model_oid"; "autoencoder_type"])]
   else [])%string.

Definition rename_dict (filter_dict : Dict.t pyval)
  : result (list (string * list string)) :=
  (do model_type <- Dict.getitem filter_dict "model_type";
   do featurizer <- Dict.getitem filter_dict "featurizer";
   Ok (base_rename_dict ++ model_specific model_type
         ++ featurizer_specific featurizer))%result.

Definition rename_under (filter_dict : Dict.t pyval) (key : string)
    (new_filter_dict : Dict.t pyval) (value : string) : Dict.t pyval :=
  match Dict.get filter_dict value with
  | Some filter_val =>
      Dict.set new_filter_dict (String.append key (String.append "." value)) filter_val
  | None => new_filter_dict
  end.

Definition reformat_filter_dict (filter_dict : Dict.t pyval) : result (Dict.t pyval) :=
  (do renames <- rename_dict filter_dict;
   Ok (fold_left
         (fun new_filter_dict kv =>
            fold_left (rename_under filter_dict (fst kv)) (snd kv) new_filter_dict)
         renames Dict.empty))%result.

(** *** The queue loop, lines 783-787

    [polls] are the numbers the coming runs of [squeue | grep | wc -l] will
    print.  The result is [Some] of the polls left once a poll shows fewer
    than [max_jobs] jobs, [None] when the loop is still sleeping after the
    last of them; the events are returned either way. *)
Fixpoint queue_wait (max_jobs : Z) (polls : list Z)
  : option (list Z) * list event :=
  match polls with
  | [] => (None, [])
  | i :: rest =>
      if i >=? max_jobs then
        let '(r, evs) := queue_wait max_jobs rest in
        (r, Squeue i :: Print (MsgJobsInQueue i) :: Sleep 60 :: evs)
      else (Some rest, [Squeue i])
  end.

Definition wait_for_queue (max_jobs : Z) : M unit :=
  fun w =>
    let '(r, evs) := queue_wait max_jobs (squeue w) in
    let after polls :=
      {| num_rows := num_rows w; squeue := polls;
         keyval_calls := keyval_calls w; tracker_calls := tracker_calls w;
         shortlist_calls := shortlist_calls w; uuids_drawn := uuids_drawn w;
         trace := trace w ++ evs |} in
    match r with
    | Some rest => Done tt (after rest)
    | None => Pending (after [])
    end.

Section Services.

(** The collaborators.  The first argument of a service is the number of
    calls it has answered before, so that it may fail now and succeed
    later.  [scaled_ge n rows] is the floating-point test
    [n * self.params.nn_size_scale_factor >= rows]. *)
Variable get_keyval : nat -> pyval -> pyval -> result pyval.
Variable get_metadata : nat -> Dict.t pyval -> pyval -> result (list pyval).
Variable retrieve_dataset_by_datasetkey : nat -> result pyval.
Variable uuid4 : nat -> string.
Variable scaled_ge : Z -> pyval -> result bool.

Definition call_get_keyval (dataset_key bucket : pyval) : M pyval :=
  fun w =>
    let w' :=
      record_event (GetKeyval dataset_key bucket)
        {| num_rows := num_rows w; squeue := squeue w;
           keyval_calls := S (keyval_calls w); tracker_calls := tracker_calls w;
           shortlist_calls := shortlist_calls w; uuids_drawn := uuids_drawn w;
           trace := trace w |} in
    match get_keyval (keyval_calls w) dataset_key bucket with
    | Ok metadata => Done metadata w'
    | Raise e => Raised e w'
    end.

Definition call_get_metadata (filter_dict : Dict.t pyval) (collection_name : pyval)
  : M (list pyval) :=
  fun w =>
    let w' :=
      record_event (GetMetadata filter_dict collection_name)
        {| num_rows := num_rows w; squeue := squeue w;
           keyval_calls := keyval_calls w; tracker_calls := S (tracker_calls w);
           shortlist_calls := shortlist_calls w; uuids_drawn := uuids_drawn w;
           trace := trace w |} in
    match get_metadata (tracker_calls w) filter_dict collection_name with
    | Ok models => Done models w'
    | Raise e => Raised e w'
    end.

Definition call_retrieve_shortlist : M pyval :=
  fun w =>
    let w' :=
      record_event RetrieveShortlist
        {| num_rows := num_rows w; squeue := squeue w;
           keyval_calls := keyval_calls w; tracker_calls := tracker_calls w;
           shortlist_calls := S (shortlist_calls w); uuids_drawn := uuids_drawn w;
           trace := trace w |} in
    match retrieve_dataset_by_datasetkey (shortlist_calls w) with
    | Ok df => Done df w'
    | Raise e => Raised e w'
    end.

(** [str(uuid.uuid4())] *)
Definition fresh_uuid : M string :=
  fun w =>
    Done (uuid4 (uuids_drawn w))
      {| num_rows := num_rows w; squeue := squeue w;
         keyval_calls := keyval_calls w; tracker_calls := tracker_calls w;
         shortlist_calls := shortlist_calls w; uuids_drawn := S (uuids_drawn w);
         trace := trace w |}.

Definition set_num_rows (key : string) (rows : pyval) : M unit :=
  fun w =>
    Done tt
      {| num_rows := Dict.set (num_rows w) key rows; squeue := squeue w;
         keyval_calls := keyval_calls w; tracker_calls := tracker_calls w;
         shortlist_calls := shortlist_calls w; uuids_drawn := uuids_drawn w;
         trace := trace w |}.

Definition read_num_rows (key : string) : M (option pyval) :=
  fun w => Done (Dict.get (num_rows w) key) w.

(** *** [get_dataset_metadata], lines 432-479

    The function changes [assay_params] in place and returns [None] on every
    path; the value returned here is the dictionary as the call leaves it.
    Dataset keys are strings wherever this file builds them; an entry of
    [self.num_rows] under another hashable key is never looked up and is
    not recorded. *)

Definition fetch_keyval (assay_params : Dict.t pyval) : M pyval :=
  dataset_key <- lift (Dict.getitem assay_params "dataset_key") ;;
  bucket <- lift (Dict.getitem assay_params "bucket") ;;
  call_get_keyval dataset_key bucket.

(** [metadata.keys()]: the reply has to be a dictionary. *)
Definition keys_of (metadata : pyval) : result (Dict.t pyval) :=
  match metadata with
  | PDict entries => Ok entries
  | _ => Raise AttributeError
  end.

Definition copy_key (metadata : Dict.t pyval) (key : string)
    (assay_params : Dict.t pyval) : Dict.t pyval :=
  match Dict.get metadata key with
  | Some v => Dict.set assay_params key v
  | None => assay_params
  end.

Definition response_cols_missing (assay_params : Dict.t pyval) : bool :=
  match Dict.get assay_params "response_cols" with
  | None | Some PNone => true
  | Some _ => false
  end.

Definition copy_response_cols (metadata assay_params : Dict.t pyval) : Dict.t pyval :=
  let assay_params :=
    match Dict.get metadata "param" with
    | Some v => Dict.set assay_params "response_cols" (PList [v])
    | None => assay_params
    end in
  let assay_params :=
    match Dict.get metadata "response_col" with
    | Some v => Dict.set assay_params "response_cols" (PList [v])
    | None => assay_params
    end in
  copy_key metadata "response_cols" assay_params.

Definition get_dataset_metadata (hyperparam_uuid : string)
    (assay_params : Dict.t pyval) : M (Dict.t pyval) :=
  dataset_key <- lift (Dict.getitem assay_params "dataset_key") ;;
  emit (Print (MsgValue dataset_key)) ;;
  r <- retry_loop (fetch_keyval assay_params)
         (fun e => emit (Print (MsgMetadataSleeping e))) 5 ;;
  match r with
  | inr e => emit (Print (MsgMetadataExiting e)) ;; ret assay_params
  | inl metadata =>
      metadata <- lift (keys_of metadata) ;;
      let assay_params := copy_key metadata "id_col" assay_params in
      let assay_params :=
        if response_cols_missing assay_params
        then copy_response_cols metadata assay_params
        else assay_params in
      let assay_params := copy_key metadata "smiles_col" assay_params in
      let assay_params := copy_key metadata "class_name" assay_params in
      let assay_params := copy_key metadata "class_number" assay_params in
      match Dict.get metadata "num_row" with
      | Some rows =>
          match dataset_key with
          | PStr key => set_num_rows key rows
          | PList _ | PDict _ => raise TypeError
          | _ => ret tt
          end
      | None => ret tt
      end ;;
      match dataset_key with
      | PStr key =>
          let assay_params :=
            Dict.set assay_params "dataset_name"
              (PStr (rstrip ".csv" (last_segment key))) in
          ret (Dict.set assay_params "hyperparam_uuid" (PStr hyperparam_uuid))
      | _ => raise AttributeError
      end
  end.

(** *** [already_run], lines 793-823 *)

Definition volatile_keys : list string :=
  ["result_dir"; "previously_featurized"; "collection_name"; "time_generated";
   "hyperparam_uuid"; "model_uuid"]%string.

Definition query_tracker (filter_dict assay_params : Dict.t pyval) : M (list pyval) :=
  collection_name <- lift (Dict.getitem assay_params "collection_name") ;;
  call_get_metadata filter_dict collection_name.

Definition already_run (assay_params : Dict.t pyval) : M bool :=
  let filter_dict := fold_left (fun d key => Dict.del d key) volatile_keys assay_params in
  filter_dict <- lift (reformat_filter_dict filter_dict) ;;
  r <- retry_loop (query_tracker filter_dict assay_params) (fun _ => ret tt) 5 ;;
  match r with
  | inr e => emit (Print (MsgTrackerUnavailable e)) ;; ret false
  | inl [] => ret false
  | inl (_ :: _) => emit (Print MsgAlreadyCreated) ;; ret true
  end.

(** *** The shortlist fetches

    Lines 671-685 of [get_shortlist_df] (datastore mode) and lines 601-617
    of [generate_split_shortlist]; what the two functions do with the table
    afterwards is outside this embedding.  [None] in the second is the
    [return None] that ends [generate_split_shortlist]. *)

Definition get_shortlist_df_fetch : M pyval :=
  r <- retry_loop call_retrieve_shortlist
         (fun e => emit (Print (MsgShortlistSleeping e))) 5 ;;
  match r with
  | inr e => emit (Print (MsgShortlistExiting e)) ;; sys_exit 1
  | inl df => ret df
  end.


(** *** [submit_jobs], lines 732-791 *)

(** What [submit_jobs] reads of the object: [self.new_params],
    [self.param_combos], [self.assays], [self.hyperparam_uuid], and of
    [self.params] the [rerun] flag and the [max_jobs] cap. *)
Record dispatcher : Type := mkDispatcher {
  new_params : Dict.t pyval;
  param_combos : list (Dict.t pyval);
  assays : list (string * string * string * string);
  hyperparam_uuid : string;
  rerun : bool;
  max_jobs : Z
}.

Variable self : dispatcher.

(** The feasibility filter, lines 756-760 and 776-780: [true] is the
    [continue]. *)
Definition too_large (assay_params : Dict.t pyval) : M bool :=
  model_type <- lift (Dict.getitem assay_params "model_type") ;;
  if eq_str model_type "NN" then
    featurizer <- lift (Dict.getitem assay_params "featurizer") ;;
    if negb (eq_str featurizer "graphconv") then
      dataset_key <- lift (Dict.getitem assay_params "dataset_key") ;;
      match dataset_key with
      | PStr key =>
          rows <- read_num_rows key ;;
          match rows with
          | Some rows =>
              num_params <- lift (NumParams.get_num_params assay_params) ;;
              match num_params with
              | PInt n => lift (scaled_ge n rows)
              | _ => raise TypeError
              end
          | None => ret false
          end
      | PList _ | PDict _ => raise TypeError
      | _ => ret false
      end
    else ret false
  else ret false.

(** [not self.params.rerun and self.already_run(assay_params)] *)
Definition is_duplicate (assay_params : Dict.t pyval) : M bool :=
  if rerun self then ret false else already_run assay_params.

(** Lines 763-766 and 788-791: the fresh result directory, the two log
    records and [run_command]. *)
Definition submit (base_result_dir : string) (assay_params : Dict.t pyval)
  : M (Dict.t pyval) :=
  u <- fresh_uuid ;;
  let assay_params :=
    Dict.set assay_params "result_dir" (PStr (os_path_join base_result_dir u)) in
  emit (LogInfo assay_params) ;;
  emit (OutFileWrite assay_params) ;;
  emit (Print (MsgSlurmCommand assay_params)) ;;
  emit (Sbatch assay_params) ;;
  ret assay_params.

(** Lines 756-766: the assay on its own, when [self.param_combos] is empty. *)
Definition submit_assay (base_result_dir : string) (assay_params : Dict.t pyval)
  : M unit :=
  skip <- too_large assay_params ;;
  if skip then ret tt
  else
    dup <- is_duplicate assay_params ;;
    if dup then ret tt
    else submit base_result_dir assay_params ;; ret tt.

(** Lines 770-775: one entry of a combination written into [assay_params]. *)
Definition overlay_entry (assay_params : Dict.t pyval) (kv : string * pyval)
  : result (Dict.t pyval) :=
  let '(key, value) := kv in
  if String.eqb key "layers" then
    match value with
    | PDict entries =>
        Ok (fold_left (fun a e => Dict.set a (fst e) (snd e)) entries assay_params)
    | _ => Raise AttributeError
    end
  else Ok (Dict.set assay_params key value).

(** Lines 769-791: one turn of the loop over [self.param_combos].  The
    dictionary [assay_params] is the one object all turns write to; the
    turn returns it as it leaves it. *)
Definition submit_combo (base_result_dir : string) (assay_params : Dict.t pyval)
    (combo : Dict.t pyval) : M (Dict.t pyval) :=
  assay_params <- lift (for_each overlay_entry combo assay_params) ;;
  skip <- too_large assay_params ;;
  if skip then ret assay_params
  else
    dup <- is_duplicate assay_params ;;
    if dup then ret assay_params
    else
      wait_for_queue (max_jobs self) ;;
      submit base_result_dir assay_params.

(** [os.path.join] of two parameter values. *)
Definition join_values (a b : pyval) : result string :=
  match a, b with
  | PStr a, PStr b => Ok (os_path_join a b)
  | _, _ => Raise TypeError
  end.

(** Lines 741-747. *)
Definition assay_base (a : string * string * string * string) : Dict.t pyval :=
  let '(assay, bucket, splitter, split_uuid) := a in
  let assay_params := new_params self in
  let assay_params := Dict.set assay_params "dataset_key" (PStr assay) in
  let assay_params :=
    Dict.set assay_params "dataset_name" (PStr (splitext_root (last_segment assay))) in
  let assay_params := Dict.set assay_params "bucket" (PStr bucket) in
  let assay_params := Dict.set assay_params "split_uuid" (PStr split_uuid) in
  let assay_params := Dict.set assay_params "previously_split" (PBool true) in
  Dict.set assay_params "splitter" (PStr splitter).

(** One turn of the loop over [self.assays], lines 739-791. *)
Definition submit_for_assay (_ : unit) (a : string * string * string * string)
  : M unit :=
  r <- try_except (get_dataset_metadata (hyperparam_uuid self) (assay_base a)) ;;
  match r with
  | inr e => emit (Print (MsgException e)) ;; emit (Print MsgTraceback) ;; ret tt
  | inl assay_params =>
      result_dir <- lift (Dict.getitem assay_params "result_dir") ;;
      dataset_name <- lift (Dict.getitem assay_params "dataset_name") ;;
      base_result_dir <- lift (join_values result_dir dataset_name) ;;
      match param_combos self with
      | [] => submit_assay base_result_dir assay_params
      | _ :: _ =>
          for_loop (submit_combo base_result_dir) (param_combos self) assay_params ;;
          ret tt
      end
  end.

Definition submit_jobs : M unit := for_loop submit_for_assay (assays self) tt.

End Services.

(** A world in which nothing has happened yet. *)
Definition fresh_world (polls : list Z) : world :=
  {| num_rows := Dict.empty; squeue := polls;
     keyval_calls := O; tracker_calls := O; shortlist_calls := O;
     uuids_drawn := O; trace := [] |}.

End Dispatch.

(** ** AssayResolver *)

Module AssayResolver.

(** The characters [str.strip()] removes, for a string whose characters
    are code points below 256: the ASCII white space with the four
    separators, NEL and the no-break space. *)
Definition whitespace : string :=
  string_of_list_ascii
    (map ascii_of_nat [9; 10; 11; 12; 13; 28; 29; 30; 31; 32; 133; 160]%nat).

(** [s.lstrip(cs)] *)
Fixpoint lstrip (cs : string) (s : string) : string :=
  match s with
  | EmptyString => EmptyString
  | String c rest => if char_in c cs then lstrip cs rest else s
  end.

(** [s.strip()] *)
Definition strip (s : string) : string := rstrip whitespace (lstrip whitespace s).

(** [v.strip()]: only a string has the method. *)
Definition py_strip (v : pyval) : result string :=
  match v with
  | PStr s => Ok (strip s)
  | _ => Raise AttributeError
  end.

(** What [generate_assay_list] prints before it gives up. *)
Inductive report : Type :=
| PrintException (e : pyexn)
| PrintTraceback.

(** The calls of [return_split_uuid] made so far, and what was printed. *)
Record log : Type := mkLog {
  split_calls : nat;
  printed : list report
}.

(** How the method ends: it returns, an exception leaves it, or
    [sys.exit] ends the process. *)
Inductive ending (A : Type) : Type :=
| Returned (a : A) (l : log)
| Raising (e : pyexn) (l : log)
| Exiting (status : Z) (l : log).

Arguments Returned {A} a l.
Arguments Raising {A} e l.
Arguments Exiting {A} status l.

Definition E (A : Type) : Type := log -> ending A.

Definition ret {A : Type} (a : A) : E A := fun l => Returned a l.

Definition bind {A B : Type} (m : E A) (k : A -> E B) : E B :=
  fun l =>
    match m l with
    | Returned a l' => k a l'
    | Raising e l' => Raising e l'
    | Exiting c l' => Exiting c l'
    end.

Definition raise {A : Type} (e : pyexn) : E A := fun l => Raising e l.

Definition sys_exit {A : Type} (status : Z) : E A := fun l => Exiting status l.

Definition lift {A : Type} (r : result A) : E A :=
  match r with
  | Ok a => ret a
  | Raise e => raise e
  end.

Definition print (r : report) : E unit :=
  fun l =>
    Returned tt {| split_calls := split_calls l; printed := printed l ++ [r] |}.

(** [try: m  except Exception as e: ...] *)
Definition try_except {A : Type} (m : E A) : E (A + pyexn) :=
  fun l =>
    match m l with
    | Returned a l' => Returned (inl a) l'
    | Raising e l' => Returned (inr e) l'
    | Exiting c l' => Exiting c l'
    end.

Fixpoint for_loop {S A : Type} (body : S -> A -> E S) (xs : list A) (s : S)
  : E S :=
  match xs with
  | [] => ret s
  | x :: rest => bind (body s x) (for_loop body rest)
  end.

(** An entry of [self.assays] before it is stripped. *)
Definition entry : Type := (pyval * pyval * pyval * pyval)%type.

(** What [get_shortlist_df(split_uuids=True)] comes back with: a list, the
    [None] of a shortlist file that does not exist, an exception, or the
    end of the process. *)
Inductive shortlist : Type :=
| Listed (assays : list entry)
| NoList
| Fails (e : pyexn)
| Quits (status : Z).

Section Resolver.

(** [vars(self.params)], and the two methods the list is made with.  The
    first argument of [return_split_uuid] is the number of calls it has
    answered before. *)
Variable params : Dict.t pyval.
Variable return_split_uuid : nat -> pyval -> pyval -> result pyval.
Variable get_shortlist_df : shortlist.

(** [self.params.<name>] *)
Definition attribute (name : string) : result pyval :=
  match Dict.get params name with
  | Some v => Ok v
  | None => Raise AttributeError
  end.

Definition call_return_split_uuid (dataset_key splitter : pyval) : E pyval :=
  fun l =>
    let l' := {| split_calls := S (split_calls l); printed := printed l |} in
    match return_split_uuid (split_calls l) dataset_key splitter with
    | Ok split_uuid => Returned split_uuid l'
    | Raise e => Raising e l'
    end.

(** The test of lines 416-417. *)
Definition already_split : bool :=
  match Dict.get params "previously_split", Dict.get params "split_uuid" with
  | Some previously_split, Some split_uuid =>
      truthy previously_split
      && match split_uuid with PNone => false | _ => true end
  | _, _ => false
  end.

(** One turn of the loop over the splitters, lines 415-426. *)
Definition resolve (assays : list entry) (splitter : pyval) : E (list entry) :=
  if already_split then
    bind (lift (attribute "dataset_key")) (fun dataset_key =>
    bind (lift (attribute "bucket")) (fun bucket =>
    bind (lift (attribute "split_uuid")) (fun split_uuid =>
    ret (assays ++ [(dataset_key, bucket, splitter, split_uuid)]))))
  else
    bind (try_except
            (bind (lift (attribute "dataset_key")) (fun dataset_key =>
             bind (call_return_split_uuid dataset_key splitter) (fun split_uuid =>
             bind (lift (attribute "dataset_key")) (fun dataset_key =>
             bind (lift (attribute "bucket")) (fun bucket =>
             ret (assays ++ [(dataset_key, bucket, splitter, split_uuid)])))))))
      (fun r =>
         match r with
         | inl assays => ret assays
         | inr e =>
             bind (print (PrintException e)) (fun _ =>
             bind (print PrintTraceback) (fun _ => sys_exit 1))
         end).

(** Lines 410-413. *)
Definition splitters : result (list pyval) :=
  (do splitter <- attribute "splitter";
   if is_str splitter then Ok [splitter] else py_iter splitter)%result.

(** The comprehension of line 430. *)
Definition strip_entry (t : entry)
  : result (string * string * string * string) :=
  let '(assay, bucket, splitter, split_uuid) := t in
  (do assay <- py_strip assay;
   do bucket <- py_strip bucket;
   do splitter <- py_strip splitter;
   do split_uuid <- py_strip split_uuid;
   Ok (assay, bucket, splitter, split_uuid))%result.

(** [generate_assay_list], lines 403-430; the value returned is the list
    assigned to [self.assays]. *)
Definition generate_assay_list : E (list (string * string * string * string)) :=
  bind (lift (attribute "use_shortlist")) (fun use_shortlist =>
  bind (if negb (truthy use_shortlist) then
          bind (lift splitters) (fun splitters => for_loop resolve splitters [])
        else
          match get_shortlist_df with
          | Listed assays => ret assays
          | NoList => raise TypeError
          | Fails e => raise e
          | Quits status => sys_exit status
          end)
    (fun assays => lift (map_result strip_entry assays))).

End Resolver.

Definition fresh_log : log := {| split_calls := O; printed := [] |}.

End AssayResolver.

(** * Vocabulary of the properties *)

(** ** Shape of a layer topology *)

Module PermutatorSpec.

Import Permutator.

Section Shape.

Variable D : Type.
Variable dropout_list : list D.

(** A topology and its dropouts, index-aligned: the sizes do not increase
    from left to right, and the dropouts are one value of the dropout list,
    once per layer. *)
Definition aligned (layer : list Z) (drops : list D) : Prop :=
  Sorted Z.ge layer /\
  exists d, In d dropout_list /\ drops = repeat d (List.length layer).

Definition well_shaped (a : acc D) : Prop :=
  Forall2 aligned (layer_sizes a) (dropouts a).

Definition funnel (layer : list Z) : Prop :=
  layer <> [] /\ StronglySorted Z.ge layer.

End Shape.

End PermutatorSpec.

(** ** Product sum and product of lengths *)

Module NumParamsSpec.

(** The product sum of a fully connected network, layer by layer: each
    layer contributes its weights to the next one and the biases of the
    next one. *)
Fixpoint pairwise_sum (layers : list Z) : Z :=
  match layers with
  | a :: ((b :: _) as rest) => a * b + b + pairwise_sum rest
  | _ => 0
  end.

End NumParamsSpec.

Module BuilderSpec.


(** A strategy keeps the two names of a subset when it returns the
    dictionary of the model type and the featurizer, both strings, as it
    got it. *)
Definition keeps_names (strategy : SearchStrategy) : Prop :=
  forall model_type featurizer : string,
    let names :=
      [("model_type"%string, PList [PStr model_type]);
       ("featurizer"%string, PList [PStr featurizer])] in
    generate_combo names = Ok (Some names).

End BuilderSpec.

(** ** The [layers] bundle, position by position *)

Module LayersSpec.

Import Builder.

(** The layer-group parameters as lists of lists: under each name, one
    constituent list per position. *)
Definition table : Type := list (string * list (list pyval)).

(** [self.layers] for such a table. *)
Definition encode (t : table) : Dict.t pyval :=
  map (fun kr => (fst kr, PList (map PList (snd kr)))) t.

(** The positions of the bundle: as many as the shortest parameter has. *)
Definition positions (t : table) : nat :=
  match map (fun kr => List.length (snd kr)) t with
  | [] => O
  | n :: rest => fold_left Nat.min rest n
  end.

Definition constituent (i : nat) (kr : string * list (list pyval)) : list pyval :=
  nth i (snd kr) [].

(** Position [i] zipped: every name with its constituent list at [i]. *)
Definition bundle_at (t : table) (i : nat) : Dict.t pyval :=
  map (fun kr => (fst kr, PList (constituent i kr))) t.

(** The constituent lists at position [i] all have the same length. *)
Definition uniform_at (t : table) (i : nat) : Prop :=
  forall kr1 kr2, In kr1 t -> In kr2 t ->
    List.length (constituent i kr1) = List.length (constituent i kr2).

Definition uniformb (t : table) (i : nat) : bool :=
  assert_same_length (map (fun kr => List.length (constituent i kr)) t).

End LayersSpec.

(** ** Traces of the dispatch loop *)

Module Trace.

Import Dispatch.

Definition world_of {A : Type} (o : outcome A) : world :=
  match o with
  | Done _ w | Raised _ w | Exited _ w | Pending w => w
  end.

(** The jobs handed to [sbatch], in order. *)
Fixpoint submitted (tr : list event) : list (Dict.t pyval) :=
  match tr with
  | [] => []
  | Sbatch job :: rest => job :: submitted rest
  | _ :: rest => submitted rest
  end.

(** The queue throttle, read off a trace.  [observed] is the occupancy the
    last poll showed, forgotten as soon as time passes (a sleep, a call of
    a service) or a job goes out.  A submission is admissible only right
    after a poll that showed fewer than [max_jobs] jobs. *)
Definition throttle_step (max_jobs : Z) (observed : option Z) (e : event)
  : option (option Z) :=
  match e with
  | Squeue i => Some (Some i)
  | Sbatch _ =>
      match observed with
      | Some i => if i <? max_jobs then Some None else None
      | None => None
      end
  | Print _ | LogInfo _ | OutFileWrite _ => Some observed
  | Sleep _ | GetKeyval _ _ | RetrieveShortlist | GetMetadata _ _ => Some None
  end.

Fixpoint throttle_check (max_jobs : Z) (observed : option Z) (tr : list event)
  : option (option Z) :=
  match tr with
  | [] => Some observed
  | e :: rest =>
      match throttle_step max_jobs observed e with
      | Some observed' => throttle_check max_jobs observed' rest
      | None => None
      end
  end.

(** Every submission of the trace was admissible. *)
Definition throttled (max_jobs : Z) (tr : list event) : bool :=
  match throttle_check max_jobs None tr with
  | Some _ => true
  | None => false
  end.

Definition is_sbatch (e : event) : bool :=
  match e with Sbatch _ => true | _ => false end.

(** No job goes out. *)
Definition quiet (evs : list event) : Prop :=
  Forall (fun e => is_sbatch e = false) evs.

(** Admissible whatever was observed before. *)
Definition admissible (max_jobs : Z) (evs : list event) : Prop :=
  forall observed, throttle_check max_jobs observed evs <> None.

(** However [m] ends, the trace it leaves is the trace it found followed
    by events that satisfy [P]. *)
Definition appends {A : Type} (P : list event -> Prop) (m : M A) : Prop :=
  forall w, exists evs, trace (world_of (m w)) = trace w ++ evs /\ P evs.

(** What the claim expects of a candidate: the assay's base with the
    entries of one combination written over it. *)
Definition overlay (base combo : Dict.t pyval) : result (Dict.t pyval) :=
  for_each overlay_entry combo base.


(** [m] makes at most [n] of the calls counted by [calls], one of the call
    counters of the world. *)
Definition at_most {A : Type} (calls : world -> nat) (n : nat) (m : M A) : Prop :=
  forall w, (calls (world_of (m w)) <= calls w + n)%nat.

End Trace.

(** ** Topologies drawn from the inputs *)

Module TopologySpec.

Import Permutator.

Section Drawn.

Variable layer_nums node_nums : list Z.
Variable max_final_layer_size : Z.

(** A topology made of the given node sizes, of one of the requested
    depths, whose last layer is within the cap, or else is the smallest
    node size there is. *)
Definition drawn (layer : list Z) : Prop :=
  Forall (fun n => In n node_nums) layer
  /\ In (Z.of_nat (List.length layer)) layer_nums
  /\ exists final,
       py_last layer = Ok final
       /\ (final <= max_final_layer_size
           \/ Forall (fun n => final <= n) node_nums).

End Drawn.

(** The candidates returned: each topology with its dropouts. *)
Definition pairs {D : Type} (a : acc D) : list (list Z * list D) :=
  combine (layer_sizes a) (dropouts a).

Section Rounds.

Variable D : Type.
Variable earlier : list D.
Variable d : D.

(** Between two rounds of the outer loop: the two lists are index-aligned,
    no candidate is there twice, and every candidate carries a dropout
    value of an earlier round. *)
Definition from_earlier (a : acc D) : Prop :=
  List.length (layer_sizes a) = List.length (dropouts a)
  /\ NoDup (pairs a)
  /\ forall l ds, In (l, ds) (pairs a) ->
       l <> [] /\ exists d', In d' earlier /\ ds = repeat d' (List.length l).

(** Inside the round of [d]: a candidate of this round is also on the
    list of topologies the round has seen. *)
Definition in_round (a : acc D) : Prop :=
  List.length (layer_sizes a) = List.length (dropouts a)
  /\ NoDup (pairs a)
  /\ forall l ds, In (l, ds) (pairs a) ->
       l <> [] /\
       ((exists d', In d' earlier /\ ds = repeat d' (List.length l))
        \/ (ds = repeat d (List.length l) /\ In l (_repeated_layers a))).

(** Inside the round of [d], the other way round: every topology the
    round has seen is a candidate with the dropout value [d]. *)
Definition listed (a : acc D) : Prop :=
  List.length (layer_sizes a) = List.length (dropouts a)
  /\ forall l, In l (_repeated_layers a) ->
       In (l, repeat d (List.length l)) (pairs a).

(** The topology [layer], if its last layer is within [cap], is a
    candidate with the dropout value [d]. *)
Definition emitted (cap : Z) (layer : list Z) (a : acc D) : Prop :=
  forall final, py_last layer = Ok final -> final <= cap ->
    In (layer, repeat d (List.length layer)) (pairs a).

End Rounds.

End TopologySpec.

(** ** Names under their namespaces *)

Module FilterSpec.

(** ['%s.%s' % (key, value)] *)
Definition path (p : string * string) : string :=
  String.append (fst p) (String.append "." (snd p)).

(** The pairs of a namespace and a name, in the order the two loops of
    lines 114-129 visit them. *)
Definition flat (renames : list (string * list string))
  : list (string * string) :=
  flat_map (fun kv => map (pair (fst kv)) (snd kv)) renames.

End FilterSpec.

(** ** Distinct names *)

Module NamesSpec.

(** All strings of a list differ. *)
Fixpoint distinctb (l : list string) : bool :=
  match l with
  | [] => true
  | x :: rest => negb (name_in x rest) && distinctb rest
  end.

End NamesSpec.

(** ** What a strategy does to one entry *)

Module StrategySpec.

Section Sampled.

Variable convert_to_int : list string.
Variable py_int : pyval -> result pyval.
Variable sampler : nat -> pyval -> pyval -> pyval -> result (list pyval).

(** The entry [(key, v')] the sampled classes write for [(key, value)]:
    the value itself under ['layers'] and when it starts with a string;
    otherwise the samples of the range [value[0], value[1], value[2]],
    each passed through [int] when the key is in [convert_to_int]. *)
Definition sampled_from (kv kv' : string * pyval) : Prop :=
  let '(key, value) := kv in
  let '(key', v') := kv' in
  key' = key /\ is_iterable value = true /\
  ((key = "layers"%string /\ v' = value)
   \/ (key <> "layers"%string /\
       exists v0, py_index value 0 = Ok v0 /\
         ((is_str v0 = true /\ v' = value)
          \/ (is_str v0 = false /\
              exists i v1 v2 tmp_list,
                py_index value 1 = Ok v1 /\ py_index value 2 = Ok v2 /\
                sampler i v0 v1 v2 = Ok tmp_list /\
                if name_in key convert_to_int
                then exists ints,
                       map_result py_int tmp_list = Ok ints /\ v' = PList ints
                else v' = PList tmp_list)))).

End Sampled.

Section User.

Variable convert_to_int convert_to_float : list string.
Variable py_int py_float : pyval -> result pyval.

(** The entry [UserSpecifiedSearch] writes: the value itself under
    ['layers'] and for a key in neither conversion list; otherwise the
    items of the value, each passed through [int] or [float]. *)
Definition converted_from (kv kv' : string * pyval) : Prop :=
  let '(key, value) := kv in
  let '(key', v') := kv' in
  key' = key /\ is_iterable value = true /\
  if String.eqb key "layers" then v' = value
  else if name_in key convert_to_int then
    exists items ints,
      py_iter value = Ok items /\ map_result py_int items = Ok ints
      /\ v' = PList ints
  else if name_in key convert_to_float then
    exists items floats,
      py_iter value = Ok items /\ map_result py_float items = Ok floats
      /\ v' = PList floats
  else v' = value.

End User.

End StrategySpec.

(** ** Candidates that fit their model type *)

Module SubsetSpec.

Import Builder.

(** A strategy that keeps the names of a dictionary, in order, and under
    each of [names] a list of one value as it is. *)
Definition keeps_singletons (names : list string) (strategy : SearchStrategy)
  : Prop :=
  forall d d',
    NoDup (Dict.keys d) -> generate_combo d = Ok (Some d') ->
    Dict.keys d' = Dict.keys d
    /\ forall k v, In k names -> Dict.get d k = Some (PList [v]) ->
         Dict.get d' k = Some (PList [v]).

(** The keys that belong to the other model types. *)
Definition foreign_keys (model_type : string) : list string :=
  if String.eqb model_type "NN" then rf_specific_keys ++ xgboost_specific_keys
  else if String.eqb model_type "RF" then nn_specific_keys ++ xgboost_specific_keys
  else if String.eqb model_type "xgboost" then nn_specific_keys ++ rf_specific_keys
  else [].

(** A candidate names one of the three model types and a featurizer, which
    is not ['graphconv'] unless the model type is ['NN'], and has no key
    of another model type. *)
Definition fits (combo : Dict.t pyval) : Prop :=
  exists model_type featurizer,
    Dict.get combo "model_type" = Some (PStr model_type)
    /\ Dict.get combo "featurizer" = Some featurizer
    /\ In model_type ["NN"; "RF"; "xgboost"]%string
    /\ (model_type <> "NN"%string -> eq_str featurizer "graphconv" = false)
    /\ Forall (fun k => name_in k (foreign_keys model_type) = false)
         (Dict.keys combo).

(** The builder's invariant: the swept parameters have distinct names,
    and the candidates made so far fit. *)
Definition fitting (s : search) : Prop :=
  NoDup (Dict.keys (hyperparams s)) /\ Forall fits (param_combos s).

End SubsetSpec.

(** ** Submissions and the duplicate check *)

Module Audit.

Import Dispatch.

(** The filter [already_run] makes of a candidate, lines 802-805. *)
Definition filter_of (assay_params : Dict.t pyval) : result (Dict.t pyval) :=
  reformat_filter_dict
    (fold_left (fun d key => Dict.del d key) volatile_keys assay_params).

(** A query of the model tracker: the filter and the collection. *)
Definition query : Type := (Dict.t pyval * pyval)%type.

(** The last query of the model tracker since the last submission. *)
Fixpoint last_query (last : option query) (evs : list event) : option query :=
  match evs with
  | [] => last
  | GetMetadata filter_dict collection_name :: rest =>
      last_query (Some (filter_dict, collection_name)) rest
  | Sbatch _ :: rest => last_query None rest
  | _ :: rest => last_query last rest
  end.

(** The last query was about this job: it asked the job's collection for
    the job's own filter.  A job that names no collection is never asked
    about. *)
Definition covered (last : option query) (job : Dict.t pyval) : Prop :=
  match Dict.get job "collection_name" with
  | None => True
  | Some collection_name =>
      exists filter_dict,
        filter_of job = Ok filter_dict
        /\ last = Some (filter_dict, collection_name)
  end.

(** Every submission of the trace is covered by the query before it. *)
Fixpoint checked (last : option query) (evs : list event) : Prop :=
  match evs with
  | [] => True
  | GetMetadata filter_dict collection_name :: rest =>
      checked (Some (filter_dict, collection_name)) rest
  | Sbatch job :: rest => covered last job /\ checked None rest
  | _ :: rest => checked last rest
  end.

Definition always_checked (evs : list event) : Prop :=
  forall last, checked last evs.

(** Neither a query nor a submission. *)
Definition passive (e : event) : bool :=
  match e with
  | GetMetadata _ _ | Sbatch _ => false
  | _ => true
  end.

(** What may follow a duplicate check that found nothing: steps that are
    neither queries nor submissions, and then either nothing more or the
    submission of the candidate under a result directory of its own. *)
Definition submission_of (assay_params : Dict.t pyval) (evs : list event)
  : Prop :=
  exists before,
    Forall (fun e => passive e = true) before
    /\ (evs = before
        \/ exists v,
             let job := Dict.set assay_params "result_dir" v in
             evs = before ++ [LogInfo job; OutFileWrite job;
                              Print (MsgSlurmCommand job); Sbatch job]).

Definition is_tracker_query (e : event) : bool :=
  match e with GetMetadata _ _ => true | _ => false end.

(** No query of the model tracker. *)
Definition unasked (evs : list event) : Prop :=
  Forall (fun e => is_tracker_query e = false) evs.

(** A job under a result directory named by the [n]-th identifier drawn. *)
Definition own_directory (uuid4 : nat -> string) (n : nat) (job : Dict.t pyval)
  : Prop :=
  exists base_result_dir,
    Dict.get job "result_dir"
    = Some (PStr (os_path_join base_result_dir (uuid4 n))).

(** Jobs and draws in lockstep, from the [n]-th draw on. *)
Fixpoint in_step (uuid4 : nat -> string) (n : nat) (jobs : list (Dict.t pyval))
  : Prop :=
  match jobs with
  | [] => True
  | job :: rest => own_directory uuid4 n job /\ in_step uuid4 (S n) rest
  end.

(** From [w] to [w']: events were appended, one identifier was drawn for
    every job submitted, and every job got the one drawn for it. *)
Definition lockstep (uuid4 : nat -> string) (w w' : world) : Prop :=
  exists evs,
    trace w' = trace w ++ evs
    /\ uuids_drawn w' = (uuids_drawn w + List.length (Trace.submitted evs))%nat
    /\ in_step uuid4 (uuids_drawn w) (Trace.submitted evs).

(** [m] takes every world to one related to it by [R], however it ends. *)
Definition steps {A : Type} (R : world -> world -> Prop) (m : M A) : Prop :=
  forall w, R w (Trace.world_of (m w)).

(** A field of the world that a step leaves as it was. *)
Definition same {T : Type} (field : world -> T) (w w' : world) : Prop :=
  field w' = field w.

End Audit.

(** ** Names of datasets *)

Module NameSpec.

(** Every character of [s] is one of [cs]. *)
Fixpoint all_in (cs s : string) : bool :=
  match s with
  | EmptyString => true
  | String c rest => char_in c cs && all_in cs rest
  end.

Fixpoint last_char (s : string) : option ascii :=
  match s with
  | EmptyString => None
  | String c EmptyString => Some c
  | String _ rest => last_char rest
  end.

(** [s] is empty or ends with a character that is none of [cs]. *)
Definition ends_outside (cs s : string) : bool :=
  match last_char s with
  | None => true
  | Some c => negb (char_in c cs)
  end.

End NameSpec.

(** ** The list of assays *)

Module ResolverSpec.

Import AssayResolver.

Section Resolved.

Variable params : Dict.t pyval.
Variable return_split_uuid : nat -> pyval -> pyval -> result pyval.



(** The answers of [return_split_uuid] to the calls from [n] on, one for
    every splitter. *)
Fixpoint answered (n : nat) (dataset_key : pyval) (splitters uuids : list pyval)
  : Prop :=
  match splitters, uuids with
  | [], [] => True
  | splitter :: splitters', split_uuid :: uuids' =>
      return_split_uuid n dataset_key splitter = Ok split_uuid
      /\ answered (S n) dataset_key splitters' uuids'
  | _, _ => False
  end.

End Resolved.

End ResolverSpec.

(** ** Fixed parameters *)

Module FixedSpec.

(** Where a fixed parameter comes from: an entry of the configuration
    with a value that counts as true and a key that is not excluded, taken
    as it is, or out of its list of one, or, for a directory, joined with
    the identifier of the search. *)
Definition from_configuration (params : Dict.t pyval) (uuid : string)
    (key : string) (v : pyval) : Prop :=
  name_in key excluded_keys = false
  /\ exists value,
       In (key, value) params /\ truthy value = true
       /\ (v = value
           \/ value = PList [v]
           \/ exists dir, value = PStr dir /\ v = PStr (os_path_join dir uuid)).

(** The builder's invariant on [self.new_params]. *)
Definition fixed_from (params : Dict.t pyval) (uuid : string)
    (s : Builder.search) : Prop :=
  Builder.hyperparam_uuid s = uuid
  /\ forall key v,
       Dict.get (Builder.new_params s) key = Some v ->
       from_configuration params uuid key v.

End FixedSpec.

(** ** The permutations as a layer group *)

Module GroupSpec.

(** The table [__init__] makes of the two lists of the permutator, lines
    245-250: the topologies under [layer_sizes], their dropouts under
    [dropouts]. *)
Definition permuted (sizes : list (list Z)) (drops : list (list pyval))
  : LayersSpec.table :=
  [("layer_sizes"%string, map (map PInt) sizes); ("dropouts"%string, drops)].

(** One topology with its dropouts, as a bundle. *)
Definition bundle (pair : list Z * list pyval) : Dict.t pyval :=
  [("layer_sizes"%string, PList (map PInt (fst pair)));
   ("dropouts"%string, PList (snd pair))].

End GroupSpec.

(** ** The size filter *)

Module SizeSpec.

Import Dispatch.

Section Filter.

Variable scaled_ge : Z -> pyval -> result bool.

(** The size filter of lines 756-760 and 776-780 as a function of the
    row counts recorded so far. *)
Definition size_test (rows : Dict.t pyval) (assay_params : Dict.t pyval)
  : result bool :=
  (do model_type <- Dict.getitem assay_params "model_type";
   if eq_str model_type "NN" then
     do featurizer <- Dict.getitem assay_params "featurizer";
     if negb (eq_str featurizer "graphconv") then
       do dataset_key <- Dict.getitem assay_params "dataset_key";
       match dataset_key with
       | PStr key =>
           match Dict.get rows key with
           | Some rows =>
               do num_params <- NumParams.get_num_params assay_params;
               match num_params with
               | PInt n => scaled_ge n rows
               | _ => Raise TypeError
               end
           | None => Ok false
           end
       | PList _ | PDict _ => Raise TypeError
       | _ => Ok false
       end
     else Ok false
   else Ok false)%result.

(** From [w] to [w']: the row counts are the same, and every job
    submitted on the way passed the size filter. *)
Definition feasible (w w' : world) : Prop :=
  num_rows w' = num_rows w
  /\ exists evs,
       trace w' = trace w ++ evs
       /\ Forall (fun job => too_large scaled_ge job w = Done false w)
            (Trace.submitted evs).

End Filter.

End SizeSpec.

(** ** Floating tolerance *)

Module RangeSpec.


End RangeSpec.

(** ** Concrete runs *)

Module Scenario.

Import Builder Dispatch.

(** A datastore that answers at once, one that is down; a model tracker
    that knows no model, one that is down. *)
Definition datastore_up (_ : nat) (_ _ : pyval) : result pyval :=
  Ok (PDict [("id_col", PStr "compound_id")]%string).


Definition tracker_empty (_ : nat) (_ : Dict.t pyval) (_ : pyval)
  : result (list pyval) := Ok [].

Definition tracker_down (_ : nat) (_ : Dict.t pyval) (_ : pyval)
  : result (list pyval) := Raise RuntimeError.


Definition uuid4 (n : nat) : string :=
  match n with
  | 0%nat => "uuid-0"
  | 1%nat => "uuid-1"
  | 2%nat => "uuid-2"
  | 3%nat => "uuid-3"
  | _ => "uuid-n"
  end.

(** [nn_size_scale_factor] equal to one, on an integer row count. *)
Definition scaled_ge (n : Z) (rows : pyval) : result bool :=
  match rows with
  | PInt r => Ok (r <=? n)
  | _ => Raise TypeError
  end.

Definition assay : string * string * string * string :=
  ("data/assay.csv", "public", "scaffold", "split-1")%string.

(** A random forest asked for with the graph-convolution featurizer: the
    builder skips that pair, so no combination at all is generated and
    [submit_jobs] takes the assay on its own.  One job is allowed in the
    queue. *)
Definition no_sweep_config : Dict.t pyval :=
  [("result_dir", PStr "/results"); ("collection_name", PStr "models");
   ("model_type", PStr "RF"); ("featurizer", PStr "graphconv");
   ("rerun", PBool true); ("max_jobs", PInt 1)]%string.

Definition no_sweep : dispatcher :=
  {| new_params :=
       [("result_dir", PStr "/results/run"); ("collection_name", PStr "models");
        ("model_type", PStr "RF"); ("featurizer", PStr "graphconv")]%string;
     param_combos := [];
     assays := [assay];
     hyperparam_uuid := "run";
     rerun := true;
     max_jobs := 1 |}.

(** A configuration sweeping two model types, as the parser hands it
    over, and the user-specified strategy. *)
Definition two_kinds_config : Dict.t pyval :=
  [("result_dir", PStr "/results");
   ("collection_name", PStr "models");
   ("model_type", PList [PStr "NN"; PStr "RF"]);
   ("featurizer", PStr "ecfp");
   ("learning_rate", PList [PFloat 0.125%float; PFloat 0.25%float]);
   ("rf_estimators", PList [PInt 100; PInt 200]);
   ("layer_sizes", PList [PList [PInt 8; PInt 4]]);
   ("dropouts", PList [PList [PFloat 0.5%float; PFloat 0.5%float]]);
   ("rerun", PBool true);
   ("max_jobs", PInt 4)]%string.

Definition verbatim : SearchStrategy :=
  Strategies.UserSpecifiedSearch [] [] (fun v => Ok v) (fun v => Ok v).

Definition two_kinds_layers : pyval :=
  PDict [("layer_sizes", PList [PInt 8; PInt 4]);
         ("dropouts", PList [PFloat 0.5%float; PFloat 0.5%float])]%string.

Definition nn_combo (learning_rate : PrimFloat.float) : Dict.t pyval :=
  [("model_type", PStr "NN"); ("learning_rate", PFloat learning_rate);
   ("layers", two_kinds_layers); ("featurizer", PStr "ecfp")]%string.

Definition rf_combo (rf_estimators : Z) : Dict.t pyval :=
  [("model_type", PStr "RF"); ("rf_estimators", PInt rf_estimators);
   ("featurizer", PStr "ecfp")]%string.

Definition two_kinds : dispatcher :=
  {| new_params :=
       [("result_dir", PStr "/results/run"); ("collection_name", PStr "models");
        ("featurizer", PStr "ecfp")]%string;
     param_combos :=
       [nn_combo 0.125%float; nn_combo 0.25%float; rf_combo 100; rf_combo 200];
     assays := [assay];
     hyperparam_uuid := "run";
     rerun := true;
     max_jobs := 4 |}.

(** A random forest on fingerprints that sweeps nothing: the one implicit
    combination, with the duplicate check on. *)
Definition one_combo_config : Dict.t pyval :=
  [("result_dir", PStr "/results"); ("collection_name", PStr "models");
   ("model_type", PStr "RF"); ("featurizer", PStr "ecfp");
   ("max_jobs", PInt 4)]%string.

Definition one_combo : dispatcher :=
  {| new_params :=
       [("result_dir", PStr "/results/run"); ("collection_name", PStr "models");
        ("model_type", PStr "RF"); ("featurizer", PStr "ecfp")]%string;
     param_combos := [[("model_type", PStr "RF"); ("featurizer", PStr "ecfp")]%string];
     assays := [assay];
     hyperparam_uuid := "run";
     rerun := false;
     max_jobs := 4 |}.

(** The parameters of a random-forest candidate on [assay]. *)
Definition candidate : Dict.t pyval :=
  [("result_dir", PStr "/results/run"); ("collection_name", PStr "models");
   ("dataset_key", PStr "data/assay.csv"); ("dataset_name", PStr "assay");
   ("bucket", PStr "public"); ("split_uuid", PStr "split-1");
   ("previously_split", PBool true); ("splitter", PStr "scaffold");
   ("model_type", PStr "RF"); ("featurizer", PStr "ecfp")]%string.


(** A subset of the random-forest kind with two swept parameters, and the
    user-specified strategy over it. *)
Definition rf_search : Builder.search :=
  {| Builder.params := [];
     Builder.hyperparam_uuid := "run";
     Builder.hyperparam_keys := initial_hyperparam_keys;
     Builder.hyperparams :=
       [("rf_estimators", PList [PInt 100; PInt 200; PInt 300]);
        ("rf_max_depth", PList [PInt 4; PInt 8])]%string;
     Builder.new_params := [];
     Builder.layers := [];
     Builder.param_combos := [] |}.


Definition rf_subset : Dict.t pyval :=
  subcombo rf_search nn_specific_keys xgboost_specific_keys (PStr "RF") (PStr "ecfp").

(** Three positions, the middle one with a topology of one layer against
    two dropouts. *)
Definition mismatched_table : LayersSpec.table :=
  [("layer_sizes", [[PInt 8; PInt 4]; [PInt 8]; [PInt 16; PInt 8]]);
   ("dropouts", [[PInt 0; PInt 0]; [PInt 0; PInt 0]; [PInt 1; PInt 1]])]%string.

(** [numpy.linspace(start, stop, num)] on binary64 numbers, by the formula
    of its documentation: [num] points [i * step + start] with
    [step = (stop - start) / (num - 1)], the last of them [stop] itself.
    It serves as the sampler of the grid search in the examples. *)
Fixpoint float_of_nat (n : nat) : PrimFloat.float :=
  match n with
  | O => 0%float
  | S n' => (float_of_nat n' + 1)%float
  end.

Definition linspace64 (start stop : PrimFloat.float) (num : nat)
  : list PrimFloat.float :=
  match num with
  | O => []
  | S O => [start]
  | S div =>
      let step := ((stop - start) / float_of_nat div)%float in
      map (fun i => (float_of_nat i * step + start)%float) (seq 0 div) ++ [stop]
  end.

Definition np_linspace (start stop num : pyval) : result (list pyval) :=
  match start, stop, num with
  | PFloat a, PFloat b, PInt n =>
      if n <? 0 then Raise ValueError
      else Ok (map PFloat (linspace64 a b (Z.to_nat n)))
  | _, _, _ => Raise TypeError
  end.

Definition grid : SearchStrategy :=
  Strategies.GridSearch [] (fun v => Ok v) np_linspace.

(** [numpy.geomspace(start, stop, num)] on binary64 numbers, by its
    documentation: [num] points of a geometric progression, each a
    constant multiple of the one before, the first of them [start] and
    the last [stop] itself; a progression through zero is refused, and
    between end points of different signs the points are not numbers.
    numpy takes powers of ten of evenly spaced exponents; here the
    constant multiple is the [num - 1]-th root of [stop / start], found
    by halving an interval often enough for any two binary64 numbers, so
    the points are numpy's up to rounding. *)
Fixpoint float_pow (x : PrimFloat.float) (n : nat) : PrimFloat.float :=
  match n with
  | O => 1%float
  | S n' => (x * float_pow x n')%float
  end.

Fixpoint root_between (a : PrimFloat.float) (div : nat)
    (lo hi : PrimFloat.float) (rounds : nat) : PrimFloat.float :=
  match rounds with
  | O => lo
  | S rounds' =>
      let mid := ((lo + hi) / 2)%float in
      if (float_pow mid div <=? a)%float
      then root_between a div mid hi rounds'
      else root_between a div lo mid rounds'
  end.

Definition nth_root (a : PrimFloat.float) (div : nat) : PrimFloat.float :=
  if (a <? 0)%float then PrimFloat.nan
  else
    let lo := if (a <? 1)%float then a else 1%float in
    let hi := if (a <? 1)%float then 1%float else a in
    if (float_pow hi div <=? a)%float then hi
    else root_between a div lo hi 1200.

Definition geomspace64 (start stop : PrimFloat.float) (num : nat)
  : list PrimFloat.float :=
  match num with
  | O => []
  | S O => [start]
  | S div =>
      let ratio := nth_root (stop / start)%float div in
      map (fun i => (start * float_pow ratio i)%float) (seq 0 div) ++ [stop]
  end.

Definition np_geomspace (start stop num : pyval) : result (list pyval) :=
  match start, stop, num with
  | PFloat a, PFloat b, PInt n =>
      if (a =? 0)%float || (b =? 0)%float then Raise ValueError
      else if n <? 0 then Raise ValueError
      else Ok (map PFloat (geomspace64 a b (Z.to_nat n)))
  | _, _, _ => Raise TypeError
  end.

End Scenario.

(** * Properties *)

(** ** Loops in the [result] monad *)

(** An invariant of the body on the elements met is an invariant of the
    loop, and a body that cannot raise on them makes a loop that cannot. *)
Lemma for_each_total {S A : Type} (P : S -> Prop) (Q : A -> Prop)
    (body : S -> A -> result S) :
  (forall s x, P s -> Q x -> exists s', body s x = Ok s' /\ P s') ->
  forall xs s, Forall Q xs -> P s ->
    exists s', for_each body xs s = Ok s' /\ P s'.
Proof.
  intros Hbody xs; induction xs as [|x xs IH]; intros s HQ HP; simpl.
  - eauto.
  - inversion HQ as [|? ? Hx Hxs]; subst.
    destruct (Hbody s x HP Hx) as (s1 & -> & HP1). auto.
Qed.

Lemma for_each_invariant {S A : Type} (P : S -> Prop) (Q : A -> Prop)
    (body : S -> A -> result S) :
  (forall s x s', P s -> Q x -> body s x = Ok s' -> P s') ->
  forall xs s s', Forall Q xs -> P s -> for_each body xs s = Ok s' -> P s'.
Proof.
  intros Hbody xs; induction xs as [|x xs IH]; intros s s' HQ HP; simpl.
  - now intros [= <-].
  - inversion HQ as [|? ? Hx Hxs]; subst.
    destruct (body s x) as [s1|e] eqn:E; [|discriminate].
    intros H. exact (IH s1 s' Hxs (Hbody _ _ _ HP Hx E) H).
Qed.

Lemma py_last_nonempty {A : Type} (l : list A) :
  l <> [] -> exists x, py_last l = Ok x.
Proof.
  induction l as [|a l IH]; [congruence|]; intros _.
  destruct l as [|b l]; simpl; [eauto|].
  apply IH; discriminate.
Qed.

(** ** LayerTopologyPermutator *)

Module PermutatorFacts.

Import Permutator.

Lemma insert_asc_Forall (P : Z -> Prop) x l :
  P x -> Forall P l -> Forall P (insert_asc x l).
Proof.
  intros Hx; induction l as [|y l IH]; simpl; intros H.
  - auto.
  - inversion H; subst. destruct (x <=? y); auto.
Qed.

Lemma insert_asc_sorted x l :
  StronglySorted Z.le l -> StronglySorted Z.le (insert_asc x l).
Proof.
  induction l as [|y l IH]; simpl; intros H.
  - repeat constructor.
  - inversion H as [|? ? Hs Hall]; subst.
    destruct (x <=? y) eqn:E.
    + apply Z.leb_le in E. constructor; [assumption|].
      constructor; [assumption|].
      eapply Forall_impl; [|exact Hall]. intros; lia.
    + apply Z.leb_gt in E. constructor; [auto|].
      apply insert_asc_Forall; [lia|assumption].
Qed.

Lemma np_sort_sorted l : StronglySorted Z.le (np_sort l).
Proof.
  induction l as [|x l IH]; simpl; [constructor|].
  now apply insert_asc_sorted.
Qed.

Lemma insert_asc_length x l : List.length (insert_asc x l) = S (List.length l).
Proof.
  induction l as [|y l IH]; simpl; [reflexivity|].
  destruct (x <=? y); simpl; congruence.
Qed.

Lemma np_sort_length l : List.length (np_sort l) = List.length l.
Proof.
  induction l as [|x l IH]; simpl; [reflexivity|].
  rewrite insert_asc_length; congruence.
Qed.

Lemma np_sort_nonempty l : l <> [] -> rev (np_sort l) <> [].
Proof.
  intros H E. apply (f_equal (@List.length Z)) in E.
  rewrite length_rev, np_sort_length in E.
  destruct l; [congruence|discriminate].
Qed.

Lemma sorted_snoc {A : Type} (R : A -> A -> Prop) l a :
  StronglySorted R l -> Forall (fun x => R x a) l -> StronglySorted R (l ++ [a]).
Proof.
  induction l as [|x l IH]; simpl; intros Hs Hall.
  - repeat constructor.
  - inversion Hs; subst; inversion Hall; subst.
    constructor; [auto|]. apply Forall_app; split; auto.
Qed.

Lemma descending_rev l : StronglySorted Z.le l -> StronglySorted Z.ge (rev l).
Proof.
  induction l as [|x l IH]; simpl; intros H; [constructor|].
  inversion H as [|? ? Hs Hall]; subst.
  apply sorted_snoc; [auto|].
  apply Forall_rev. eapply Forall_impl; [|exact Hall]. intros; lia.
Qed.

(** Every combination is a subsequence of the pool: it keeps the order of
    the pool, and it has the length asked for. *)
Lemma combinations_nat_sorted {A : Type} (R : A -> A -> Prop) pool :
  StronglySorted R pool ->
  forall r c, In c (combinations_nat pool r) ->
    StronglySorted R c /\ Forall (fun x => In x pool) c.
Proof.
  induction pool as [|x rest IH]; intros Hs r c Hin.
  - destruct r; simpl in Hin; [|contradiction].
    destruct Hin as [<-|[]]. split; constructor.
  - destruct r as [|r']; simpl in Hin.
    + destruct Hin as [<-|[]]. split; constructor.
    + inversion Hs as [|? ? Hrest Hall]; subst.
      apply in_app_or in Hin. destruct Hin as [Hin|Hin].
      * apply in_map_iff in Hin. destruct Hin as (c' & <- & Hc').
        destruct (IH Hrest _ _ Hc') as [Hsc Hmem]. split.
        -- constructor; [assumption|].
           rewrite Forall_forall in *. intros y Hy. apply Hall. now apply Hmem.
        -- constructor; [now left|].
           eapply Forall_impl; [|exact Hmem]. intros; now right.
      * destruct (IH Hrest _ _ Hin) as [Hsc Hmem]. split; [assumption|].
        eapply Forall_impl; [|exact Hmem]. intros; now right.
Qed.

Lemma combinations_nat_length {A : Type} (pool : list A) :
  forall r c, In c (combinations_nat pool r) -> List.length c = r.
Proof.
  induction pool as [|x rest IH]; intros r c Hin.
  - destruct r; simpl in Hin; [|contradiction]. now destruct Hin as [<-|[]].
  - destruct r as [|r']; simpl in Hin.
    + now destruct Hin as [<-|[]].
    + apply in_app_or in Hin. destruct Hin as [Hin|Hin].
      * apply in_map_iff in Hin. destruct Hin as (c' & <- & Hc').
        simpl. f_equal. eauto.
      * eauto.
Qed.

Lemma map_const_repeat {A B : Type} (b : B) (l : list A) :
  map (fun _ => b) l = repeat b (List.length l).
Proof. induction l; simpl; congruence. Qed.

Lemma descending_Sorted l : StronglySorted Z.ge l -> Sorted Z.ge l.
Proof. apply StronglySorted_Sorted. Qed.

Section Shape.

Variable D : Type.
Variable dropout_list : list D.

Local Abbreviation well_shaped := (PermutatorSpec.well_shaped dropout_list).
Local Abbreviation funnel := PermutatorSpec.funnel.

Lemma visit_layer_shape cap d a layer :
  In d dropout_list -> well_shaped a -> funnel layer ->
  exists a', visit_layer cap d a layer = Ok a' /\ well_shaped a'.
Proof.
  intros Hd Ha [Hne Hs]. unfold visit_layer.
  destruct (py_last_nonempty Hne) as (final & ->). simpl.
  destruct ((final <=? cap) && negb (layer_in layer (_repeated_layers a))).
  - eexists; split; [reflexivity|]. unfold PermutatorSpec.well_shaped; simpl.
    apply Forall2_app; [exact Ha|]. constructor; [|constructor].
    split; [now apply descending_Sorted|].
    exists d. split; [assumption|apply map_const_repeat].
  - eauto.
Qed.

Lemma visit_layer_num_shape pool cap d a layer_num :
  StronglySorted Z.ge pool -> In d dropout_list -> well_shaped a ->
  0 < layer_num ->
  exists a', visit_layer_num pool cap d a layer_num = Ok a' /\ well_shaped a'.
Proof.
  intros Hpool Hd Ha Hpos. unfold visit_layer_num, combinations.
  destruct (layer_num <? 0) eqn:E; [apply Z.ltb_lt in E; lia|]. simpl.
  apply for_each_total with (Q := funnel); [| |assumption].
  - intros s x Hs Hx. now apply visit_layer_shape.
  - apply Forall_forall. intros c Hc. split.
    + apply combinations_nat_length in Hc. intros ->. simpl in Hc. lia.
    + eapply combinations_nat_sorted; eauto.
Qed.

Lemma visit_dropout_shape layer_nums pool cap a d :
  StronglySorted Z.ge pool -> Forall (fun n => 0 < n) layer_nums ->
  In d dropout_list -> well_shaped a ->
  exists a', visit_dropout layer_nums pool cap a d = Ok a' /\ well_shaped a'.
Proof.
  intros Hpool Hnums Hd Ha. unfold visit_dropout.
  apply for_each_total with (Q := fun n => 0 < n); [|assumption|exact Ha].
  intros s n Hs Hn. now apply visit_layer_num_shape.
Qed.

(** The same three steps when a layer count may be zero or negative: the
    body may then raise, but what it returns is still well shaped. *)
Lemma visit_layer_keeps cap d a layer a' :
  In d dropout_list -> well_shaped a -> StronglySorted Z.ge layer ->
  visit_layer cap d a layer = Ok a' -> well_shaped a'.
Proof.
  intros Hd Ha Hs. destruct layer as [|x l].
  - discriminate.
  - intros H.
    destruct (@visit_layer_shape cap d a (x :: l) Hd Ha) as (a1 & E & Ha1).
    + split; [discriminate|assumption].
    + congruence.
Qed.

Lemma visit_layer_num_keeps pool cap d a layer_num a' :
  StronglySorted Z.ge pool -> In d dropout_list -> well_shaped a ->
  visit_layer_num pool cap d a layer_num = Ok a' -> well_shaped a'.
Proof.
  intros Hpool Hd Ha. unfold visit_layer_num, combinations.
  destruct (layer_num <? 0); [discriminate|]. simpl.
  apply for_each_invariant with (Q := StronglySorted Z.ge); [| |assumption].
  - intros s x s' Hs Hx. now apply visit_layer_keeps.
  - apply Forall_forall. intros c Hc. eapply combinations_nat_sorted; eauto.
Qed.

Lemma visit_dropout_keeps layer_nums pool cap a d a' :
  StronglySorted Z.ge pool -> In d dropout_list -> well_shaped a ->
  visit_dropout layer_nums pool cap a d = Ok a' -> well_shaped a'.
Proof.
  intros Hpool Hd Ha. unfold visit_dropout.
  apply for_each_invariant with (Q := fun _ => True).
  - intros s n s' Hs _. now apply visit_layer_num_keeps.
  - apply Forall_forall; auto.
  - exact Ha.
Qed.

End Shape.

End PermutatorFacts.

Import Permutator.

(** C1.  For every call of [permutate_NNlayer_combo_params] with a
    non-empty [node_nums]: when the call returns, the two lists it returns
    are index-aligned, every emitted [layer_sizes] entry is non-increasing
    from left to right, and the dropouts paired with it are one value of
    [dropout_list] repeated once per layer.  The call returns unless
    [dropout_list] is non-empty and some layer count is zero or negative
    (the only way it raises). *)
Theorem permutate_funnel_and_dropouts
    (D : Type) (layer_nums node_nums : list Z) (dropout_list : list D)
    (max_final_layer_size : Z) :
  node_nums <> [] ->
  match permutate_NNlayer_combo_params layer_nums node_nums dropout_list
          max_final_layer_size with
  | Ok (sizes, drops) => Forall2 (PermutatorSpec.aligned dropout_list) sizes drops
  | Raise _ => dropout_list <> [] /\ exists n, In n layer_nums /\ n <= 0
  end.
Proof.
  intros Hne. unfold permutate_NNlayer_combo_params.
  destruct (py_last_nonempty (PermutatorFacts.np_sort_nonempty Hne))
    as (smallest & ->).
  simpl.
  set (pool := rev (np_sort node_nums)).
  set (cap := if smallest >? max_final_layer_size then smallest
              else max_final_layer_size).
  assert (Hpool : StronglySorted Z.ge pool)
    by apply PermutatorFacts.descending_rev, PermutatorFacts.np_sort_sorted.
  set (start := {| layer_sizes := []; dropouts := []; _repeated_layers := [] |}).
  assert (Hstart : PermutatorSpec.well_shaped dropout_list start)
    by constructor.
  assert (Hall : Forall (fun d => In d dropout_list) dropout_list)
    by (apply Forall_forall; auto).
  destruct (for_each (visit_dropout layer_nums pool cap) dropout_list start)
    as [a|e] eqn:E; simpl.
  - revert E.
    apply for_each_invariant
      with (P := PermutatorSpec.well_shaped dropout_list)
           (Q := fun d => In d dropout_list); auto.
    intros s d s' Hs Hd. now apply PermutatorFacts.visit_dropout_keeps.
  - split.
    + intros ->. discriminate E.
    + destruct (Forall_Exists_dec (fun n => 0 < n) (Z_lt_dec 0) layer_nums)
        as [Hpos|Hneg].
      * exfalso.
        assert (Hbody : forall s d,
                   PermutatorSpec.well_shaped dropout_list s ->
                   In d dropout_list ->
                   exists s', visit_dropout layer_nums pool cap s d = Ok s'
                              /\ PermutatorSpec.well_shaped dropout_list s').
        { intros s d Hs Hd. now apply PermutatorFacts.visit_dropout_shape. }
        destruct (@for_each_total _ _ _ _ _ Hbody dropout_list start Hall Hstart)
          as (a & Ea & _).
        congruence.
      * apply Exists_exists in Hneg. destruct Hneg as (n & Hin & Hn).
        exists n. split; [assumption|lia].
Qed.

Lemma permutate_funnel_and_dropouts_witness :
  [4; 8; 16] <> [] /\
  match permutate_NNlayer_combo_params [2] [4; 8; 16] [0] 16 with
  | Ok (sizes, drops) => Forall2 (PermutatorSpec.aligned [0]) sizes drops
  | Raise _ => [0] <> [] /\ exists n, In n [2] /\ n <= 0
  end.
Proof.
  split; [discriminate|].
  apply (@permutate_funnel_and_dropouts Z [2] [4; 8; 16] [0] 16).
  discriminate.
Defined.

(** C7.  The two examples of the docstring.  With [[2], [4,8,16], [0], 16]
    the topologies are exactly the set [{[16,4], [16,8], [8,4]}], without
    repetition, each paired with [[0,0]]; with [[2], [4,8,8], [0], 16] they
    are exactly [[8,8]] and [[8,4]], the two equal widths giving one
    topology of two equal layers and [[8,4]] once. *)
Theorem permutate_docstring_examples :
  (exists sizes drops,
      permutate_NNlayer_combo_params [2] [4; 8; 16] [0] 16 = Ok (sizes, drops)
      /\ NoDup sizes
      /\ (forall t, In t sizes <-> In t [[16; 4]; [16; 8]; [8; 4]])
      /\ drops = map (fun _ => [0; 0]) sizes)
  /\ permutate_NNlayer_combo_params [2] [4; 8; 8] [0] 16
     = Ok ([[8; 8]; [8; 4]], [[0; 0]; [0; 0]]).
Proof.
  split; [|reflexivity].
  exists [[16; 8]; [16; 4]; [8; 4]], [[0; 0]; [0; 0]; [0; 0]].
  split; [reflexivity|]. split; [|split; [|reflexivity]].
  - repeat constructor; simpl; intuition discriminate.
  - intros t; simpl; tauto.
Qed.

(** C8, at the input the code fails on.  With an empty [node_nums] the
    index [node_nums[-1]] of line 166 raises [IndexError], whatever the
    other arguments are. *)
Theorem permutate_empty_node_nums_raises
    (D : Type) (layer_nums : list Z) (dropout_list : list D)
    (max_final_layer_size : Z) :
  permutate_NNlayer_combo_params layer_nums [] dropout_list max_final_layer_size
  = Raise IndexError.
Proof. reflexivity. Qed.

(** The other two empty inputs do give the empty output: with some node
    size to choose from, an empty [layer_nums] or an empty [dropout_list]
    returns two empty lists. *)
Lemma permutate_nothing_to_permute
    (D : Type) (layer_nums node_nums : list Z) (dropout_list : list D)
    (max_final_layer_size : Z) :
  node_nums <> [] ->
  layer_nums = [] \/ dropout_list = [] ->
  permutate_NNlayer_combo_params layer_nums node_nums dropout_list
    max_final_layer_size = Ok ([], []).
Proof.
  intros Hne Hempty. unfold permutate_NNlayer_combo_params.
  destruct (py_last_nonempty (PermutatorFacts.np_sort_nonempty Hne))
    as (smallest & ->).
  simpl. destruct Hempty as [-> | ->]; [|reflexivity].
  match goal with
  | |- rbind (for_each ?body _ ?s) _ = _ =>
      assert (E : for_each body dropout_list s = Ok s)
  end.
  { induction dropout_list as [|d l IH]; simpl; auto. }
  rewrite E. reflexivity.
Qed.

Lemma permutate_nothing_to_permute_witness :
  permutate_NNlayer_combo_params [] [4; 8] [0; 1] 16 = Ok ([], []).
Proof.
  apply (@permutate_nothing_to_permute Z [] [4; 8] [0; 1] 16).
  - discriminate.
  - now left.
Defined.

(** ** Parameter-count estimate *)

Module NumParamsFacts.

Import NumParams NumParamsSpec.

Lemma fold_add_from (l : list Z) (a : Z) :
  fold_left Z.add l a = a + fold_left Z.add l 0.
Proof.
  revert a; induction l as [|x l IH]; intros a; simpl; [lia|].
  rewrite (IH (a + x)), (IH x). lia.
Qed.

Lemma adjacent_sum_cons (a b : Z) (rest : list Z) :
  adjacent_sum (a :: b :: rest) = a * b + b + adjacent_sum (b :: rest).
Proof.
  unfold adjacent_sum.
  replace (List.length (a :: b :: rest) - 1)%nat
    with (S (List.length (b :: rest) - 1)) by (simpl; lia).
  rewrite <- cons_seq, <- seq_shift, map_cons, map_map.
  cbn [fold_left]. rewrite fold_add_from. cbn [nth]. f_equal.
Qed.

Lemma adjacent_sum_pairwise (layers : list Z) :
  adjacent_sum layers = pairwise_sum layers.
Proof.
  induction layers as [|a layers IH]; [reflexivity|].
  destruct layers as [|b rest]; [reflexivity|].
  rewrite adjacent_sum_cons, IH. reflexivity.
Qed.

Lemma as_ints_PInt (layers : list Z) : as_ints (map PInt layers) = Ok layers.
Proof.
  induction layers as [|n l IH]; simpl; [reflexivity|]. now rewrite IH.
Qed.

Section Cases.

Variable combo : Dict.t pyval.
Variable first : Z.
Variable rest : list Z.
Variable featurizer : pyval.

Hypothesis layer_sizes_given :
  Dict.get combo "layer_sizes" = Some (PList (map PInt (first :: rest))).
Hypothesis featurizer_given : Dict.get combo "featurizer" = Some featurizer.

Let tmp_sum : Z := first + pairwise_sum (first :: rest).

Lemma get_num_params_unfold :
  get_num_params combo =
  if eq_str featurizer "ecfp" then Ok (PInt (tmp_sum + first * 1024))
  else if eq_str featurizer "descriptors" then
    match Dict.get combo "descriptor_type" with
    | None => Raise KeyError
    | Some descriptor_type =>
        if eq_str descriptor_type "moe" then Ok (PInt (tmp_sum + first * 306))
        else if eq_str descriptor_type "mordred_filtered"
             then Ok (PInt (tmp_sum + first * 1555))
             else Ok PNone
    end
  else Ok (PInt tmp_sum).
Proof.
  unfold get_num_params, Dict.getitem.
  rewrite layer_sizes_given. cbn [rbind int_list].
  rewrite as_ints_PInt. cbn [rbind].
  rewrite featurizer_given. cbn [rbind].
  rewrite adjacent_sum_pairwise. fold tmp_sum.
  destruct (eq_str featurizer "ecfp"); [reflexivity|].
  destruct (eq_str featurizer "descriptors"); [|reflexivity].
  destruct (Dict.get combo "descriptor_type") as [dt|]; [|reflexivity].
  cbn [rbind].
  destruct (eq_str dt "moe"); [reflexivity|].
  destruct (eq_str dt "mordred_filtered"); reflexivity.
Qed.

End Cases.

End NumParamsFacts.

(** C6, at the input the code fails on.  With the featurizer
    ['descriptors'] and a descriptor type that is neither ['moe'] nor
    ['mordred_filtered'], [get_num_params] runs off its end and returns
    [None], not the product sum. *)
Theorem get_num_params_unlisted_descriptor_is_None :
  NumParams.get_num_params
    [("layer_sizes", PList [PInt 10; PInt 5]);
     ("featurizer", PStr "descriptors");
     ("descriptor_type", PStr "rdkit_raw")]%string
  = Ok PNone.
Proof. reflexivity. Qed.

(** ** SearchSpaceBuilder *)

Module BuilderFacts.

Import Builder BuilderSpec.




Lemma sampled_keeps_names convert_to_int py_int sampler :
  keeps_names
    {| generate_combo :=
         Strategies.sampled_generate_combo convert_to_int py_int sampler |}.
Proof. intros model_type featurizer. reflexivity. Qed.


Lemma RandomSearch_keeps_names convert_to_int py_int np_random_uniform :
  keeps_names (Strategies.RandomSearch convert_to_int py_int np_random_uniform).
Proof. apply sampled_keeps_names. Qed.

Lemma GeometricSearch_keeps_names convert_to_int py_int np_geomspace :
  keeps_names (Strategies.GeometricSearch convert_to_int py_int np_geomspace).
Proof. apply sampled_keeps_names. Qed.

Lemma user_entry_verbatim convert_to_int convert_to_float py_int py_float
    (new_dict : Dict.t pyval) (key : string) (items : list pyval) :
  String.eqb key "layers" = false ->
  name_in key convert_to_int = false ->
  name_in key convert_to_float = false ->
  Strategies.user_entry convert_to_int convert_to_float py_int py_float
    new_dict (key, PList items)
  = Ok (Dict.set new_dict key (PList items)).
Proof.
  intros Hl Hi Hf. unfold Strategies.user_entry.
  cbn [is_iterable negb]. now rewrite Hl, Hi, Hf.
Qed.

Lemma UserSpecifiedSearch_keeps_names convert_to_int convert_to_float py_int py_float :
  name_in "model_type" (convert_to_int ++ convert_to_float) = false ->
  name_in "featurizer" (convert_to_int ++ convert_to_float) = false ->
  keeps_names
    (Strategies.UserSpecifiedSearch convert_to_int convert_to_float py_int py_float).
Proof.
  unfold name_in. rewrite !existsb_app, !orb_false_iff.
  intros [Hm1 Hm2] [Hf1 Hf2] model_type featurizer.
  unfold generate_combo, Strategies.UserSpecifiedSearch,
    Strategies.user_generate_combo.
  cbn [for_each].
  rewrite user_entry_verbatim by (reflexivity || assumption).
  rewrite user_entry_verbatim by (reflexivity || assumption).
  reflexivity.
Qed.

End BuilderFacts.

Import Builder.



(** ** Dictionaries *)

Module DictFacts.

Lemma get_set_same {V : Type} (d : Dict.t V) (k : string) (v : V) :
  Dict.get (Dict.set d k v) k = Some v.
Proof.
  induction d as [|[k' v'] d IH]; simpl.
  - now rewrite String.eqb_refl.
  - destruct (String.eqb k k') eqn:E; simpl; rewrite E; auto.
Qed.

Lemma get_set_other {V : Type} (d : Dict.t V) (k k' : string) (v : V) :
  k <> k' -> Dict.get (Dict.set d k v) k' = Dict.get d k'.
Proof.
  intros Hne. induction d as [|[k0 v0] d IH]; simpl.
  - destruct (String.eqb_spec k' k); congruence.
  - destruct (String.eqb_spec k k0) as [->|Hk]; simpl.
    + destruct (String.eqb_spec k' k0); congruence.
    + destruct (String.eqb_spec k' k0); auto.
Qed.

Lemma get_None_keys {V : Type} (d : Dict.t V) (k : string) :
  Dict.get d k = None <-> ~ In k (Dict.keys d).
Proof.
  induction d as [|[k' v'] d IH]; simpl.
  - tauto.
  - destruct (String.eqb_spec k k') as [->|Hk].
    + split; [discriminate|]. intros H. exfalso. apply H. now left.
    + rewrite IH. split.
      * intros H [E|E]; [congruence|contradiction].
      * intros H E. apply H. now right.
Qed.

(** A key that is not there yet goes last. *)
Lemma set_fresh {V : Type} (d : Dict.t V) (k : string) (v : V) :
  ~ In k (Dict.keys d) -> Dict.set d k v = d ++ [(k, v)].
Proof.
  induction d as [|[k' v'] d IH]; simpl; intros H; [reflexivity|].
  destruct (String.eqb_spec k k') as [->|Hk].
  - exfalso. apply H. now left.
  - f_equal. apply IH. tauto.
Qed.

End DictFacts.

(** ** The [layers] bundle *)

Module LayersFacts.

Import Builder LayersSpec.

Lemma fold_min_le (l : list nat) (a : nat) :
  (fold_left Nat.min l a <= a)%nat
  /\ Forall (fun x => (fold_left Nat.min l a <= x)%nat) l.
Proof.
  revert a; induction l as [|x l IH]; intros a; simpl.
  - split; [lia|constructor].
  - destruct (IH (Nat.min a x)) as [H1 H2]. split; [lia|].
    constructor; [lia|assumption].
Qed.

Lemma positions_le (t : table) kr :
  In kr t -> (positions t <= List.length (snd kr))%nat.
Proof.
  unfold positions. intros Hin.
  apply (in_map (fun kr => List.length (snd kr))) in Hin.
  destruct (map (fun kr => List.length (snd kr)) t) as [|n rest]; [contradiction|].
  destruct (fold_min_le rest n) as [H1 H2].
  destruct Hin as [<-|Hin]; [assumption|].
  rewrite Forall_forall in H2. now apply H2.
Qed.

Lemma lengths_of_encode (t : table) :
  map_result py_len (Dict.values (encode t))
  = Ok (map (fun kr => List.length (snd kr)) t).
Proof.
  unfold Dict.values, encode.
  induction t as [|[k rows] t IH]; [reflexivity|].
  cbn [map fst snd map_result py_len rbind] in *.
  rewrite IH. cbn [rbind]. now rewrite length_map.
Qed.

Lemma lengths_of_bundle (t : table) (i : nat) :
  map_result py_len (Dict.values (bundle_at t i))
  = Ok (map (fun kr => List.length (constituent i kr)) t).
Proof.
  unfold Dict.values, bundle_at.
  induction t as [|[k rows] t IH]; [reflexivity|].
  cbn [map fst snd map_result py_len rbind] in *.
  rewrite IH. reflexivity.
Qed.

Lemma index_row (rows : list (list pyval)) (i : nat) :
  (i < List.length rows)%nat ->
  py_index (PList (map PList rows)) i = Ok (PList (nth i rows [])).
Proof.
  intros Hi. unfold py_index.
  rewrite nth_error_map, (nth_error_nth' rows [] Hi). reflexivity.
Qed.

(** The inner loop zips position [i]. *)
Lemma bundle_loop (i : nat) (t : table) :
  forall acc : Dict.t pyval,
    (forall kr, In kr t -> (i < List.length (snd kr))%nat) ->
    NoDup (map fst t) ->
    (forall k, In k (map fst t) -> ~ In k (Dict.keys acc)) ->
    for_each (bundle_entry i) (encode t) acc = Ok (acc ++ bundle_at t i).
Proof.
  induction t as [|[k rows] t IH]; intros acc Hlen Hnd Hfresh; simpl.
  - now rewrite app_nil_r.
  - unfold bundle_entry at 1. cbn [fst snd].
    rewrite index_row by (apply (Hlen (k, rows)); now left).
    cbn [rbind].
    rewrite DictFacts.set_fresh by (apply Hfresh; now left).
    inversion Hnd as [|? ? Hk Hnd']; subst.
    rewrite IH.
    + now rewrite <- app_assoc.
    + intros kr Hkr. apply Hlen. now right.
    + assumption.
    + intros k' Hk' Hin. unfold Dict.keys in Hin.
      rewrite map_app in Hin. apply in_app_or in Hin.
      destruct Hin as [Hin|[<-|[]]].
      * apply (Hfresh k'); [now right|exact Hin].
      * contradiction.
Qed.

Lemma count_occ_all (l : list nat) (a : nat) :
  count_occ Nat.eq_dec l a = List.length l <-> Forall (eq a) l.
Proof.
  induction l as [|x l IH]; simpl.
  - split; [constructor|reflexivity].
  - destruct (Nat.eq_dec x a) as [->|Hne].
    + split.
      * intros H. constructor; [reflexivity|]. apply IH. lia.
      * intros H. inversion H; subst. f_equal. now apply IH.
    + split.
      * intros H. pose proof (count_occ_bound Nat.eq_dec a l). lia.
      * intros H. inversion H; subst. congruence.
Qed.

Lemma assert_same_length_map {A : Type} (f : A -> nat) (x0 : A) (xs : list A) :
  assert_same_length (map f (x0 :: xs)) = true
  <-> Forall (fun x => f x0 = f x) (x0 :: xs).
Proof.
  unfold assert_same_length. cbn [map].
  rewrite Nat.eqb_eq, (count_occ_all (f x0 :: map f xs) (f x0)).
  change (f x0 :: map f xs) with (map f (x0 :: xs)).
  now rewrite Forall_map.
Qed.

Lemma uniformb_spec (t : table) (i : nat) :
  t <> [] -> (uniformb t i = true <-> uniform_at t i).
Proof.
  intros Hne. unfold uniformb, uniform_at.
  destruct t as [|kr0 t]; [congruence|].
  rewrite assert_same_length_map, Forall_forall.
  split.
  - intros H kr1 kr2 H1 H2. now rewrite <- (H kr1 H1), <- (H kr2 H2).
  - intros H kr Hkr. apply H; [now left|assumption].
Qed.

(** The loop over the positions keeps the uniform ones, in order. *)
Lemma positions_loop (t : table) :
  NoDup (map fst t) ->
  forall ps acc,
    Forall (fun i => (i < positions t)%nat) ps ->
    for_each (bundle_position (encode t)) ps acc
    = Ok (acc ++ map (bundle_at t) (filter (uniformb t) ps)).
Proof.
  intros Hnd ps. induction ps as [|i ps IH]; intros acc Hps; simpl.
  - now rewrite app_nil_r.
  - inversion Hps as [|? ? Hi Hps']; subst.
    unfold bundle_position at 1.
    rewrite (@bundle_loop i t Dict.empty); cycle 1.
    + intros kr Hkr. pose proof (positions_le _ _ Hkr). lia.
    + assumption.
    + intros k _ [].
    + cbn [rbind app Dict.empty]. rewrite lengths_of_bundle. cbn [rbind].
      fold (uniformb t i). destruct (uniformb t i); rewrite IH by assumption.
      * now rewrite <- app_assoc.
      * reflexivity.
Qed.

Lemma seq_increasing (a n : nat) : StronglySorted lt (seq a n).
Proof.
  revert a; induction n as [|n IH]; intros a; simpl; constructor; [apply IH|].
  apply Forall_forall. intros x Hx. apply in_seq in Hx. lia.
Qed.

Lemma filter_increasing (f : nat -> bool) (l : list nat) :
  StronglySorted lt l -> StronglySorted lt (filter f l).
Proof.
  induction l as [|x l IH]; simpl; intros H; [constructor|].
  inversion H as [|? ? Hs Hall]; subst.
  destruct (f x); [|auto]. constructor; [auto|].
  apply Forall_forall. intros y Hy. apply filter_In in Hy.
  rewrite Forall_forall in Hall. now apply Hall.
Qed.

End LayersFacts.

(** C10.  For layer-group parameters given as lists of lists (under
    distinct names, at least one), [assemble_layers] does not raise.  Its
    [layers] bundle holds, in increasing order of position, the zipped
    entry of exactly those positions (up to the length of the shortest
    parameter) whose constituent lists all have the same length; a
    position whose constituent lists differ in length leaves no entry. *)
Theorem layer_bundles_keep_uniform_positions (t : LayersSpec.table) :
  t <> [] ->
  NoDup (map fst t) ->
  exists kept : list nat,
    layer_bundles (LayersSpec.encode t) = Ok (map (LayersSpec.bundle_at t) kept)
    /\ StronglySorted lt kept
    /\ (forall i, In i kept <->
                  (i < LayersSpec.positions t)%nat /\ LayersSpec.uniform_at t i)
    /\ (forall s, layers s = LayersSpec.encode t ->
          exists s',
            assemble_layers s = Ok s'
            /\ Dict.get (hyperparams s') "layers"
               = Some (PList (map PDict (map (LayersSpec.bundle_at t) kept)))).
Proof.
  intros Hne Hnd.
  exists (filter (LayersSpec.uniformb t) (seq 0 (LayersSpec.positions t))).
  assert (Hrun : layer_bundles (LayersSpec.encode t)
                 = Ok (map (LayersSpec.bundle_at t)
                         (filter (LayersSpec.uniformb t)
                            (seq 0 (LayersSpec.positions t))))).
  { unfold layer_bundles. rewrite LayersFacts.lengths_of_encode. cbn [rbind].
    assert (Hmin : py_min (map (fun kr => List.length (snd kr)) t)
                   = Ok (LayersSpec.positions t)).
    { unfold LayersSpec.positions, py_min.
      destruct t as [|kr t']; [congruence|reflexivity]. }
    rewrite Hmin. cbn [rbind].
    rewrite LayersFacts.positions_loop; [reflexivity|assumption|].
    apply Forall_forall. intros i Hi. apply in_seq in Hi. lia. }
  split; [exact Hrun|]. split; [|split].
  - apply LayersFacts.filter_increasing, LayersFacts.seq_increasing.
  - intros i. rewrite filter_In, in_seq, LayersFacts.uniformb_spec by assumption.
    intuition lia.
  - intros s Hs. unfold assemble_layers. rewrite Hs, Hrun. cbn [rbind].
    eexists. split; [reflexivity|]. cbn [hyperparams set_hyperparam_keys set_hyperparam].
    apply DictFacts.get_set_same.
Qed.

Lemma layer_bundles_keep_uniform_positions_witness :
  exists kept : list nat,
    layer_bundles (LayersSpec.encode Scenario.mismatched_table)
    = Ok (map (LayersSpec.bundle_at Scenario.mismatched_table) kept)
    /\ (forall i, In i kept <->
                  (i < LayersSpec.positions Scenario.mismatched_table)%nat
                  /\ LayersSpec.uniform_at Scenario.mismatched_table i).
Proof.
  destruct (@layer_bundles_keep_uniform_positions Scenario.mismatched_table)
    as (kept & Hrun & _ & Hkept & _).
  - discriminate.
  - repeat constructor; simpl; intuition discriminate.
  - exists kept. split; [exact Hrun|exact Hkept].
Defined.

(** The same table, run: positions 0 and 2 are kept, position 1 is not. *)
Example layer_bundles_mismatched_table :
  layer_bundles (LayersSpec.encode Scenario.mismatched_table)
  = Ok [[("layer_sizes", PList [PInt 8; PInt 4]); ("dropouts", PList [PInt 0; PInt 0])];
        [("layer_sizes", PList [PInt 16; PInt 8]); ("dropouts", PList [PInt 1; PInt 1])]]%string.
Proof. reflexivity. Qed.

(** ** DispatchLoop: what a run appends to the trace *)

Module DispatchFacts.

Import Dispatch Trace.

Lemma throttle_check_app max_jobs observed evs1 evs2 :
  throttle_check max_jobs observed (evs1 ++ evs2)
  = match throttle_check max_jobs observed evs1 with
    | Some observed' => throttle_check max_jobs observed' evs2
    | None => None
    end.
Proof.
  revert observed; induction evs1 as [|e evs1 IH]; intros observed; simpl.
  - reflexivity.
  - destruct (throttle_step max_jobs observed e); auto.
Qed.

Lemma quiet_nil : quiet [].
Proof. constructor. Qed.

Lemma quiet_app evs1 evs2 : quiet evs1 -> quiet evs2 -> quiet (evs1 ++ evs2).
Proof. intros H1 H2. apply Forall_app; auto. Qed.

Lemma admissible_nil max_jobs : admissible max_jobs [].
Proof. intros observed; discriminate. Qed.

Lemma admissible_app max_jobs evs1 evs2 :
  admissible max_jobs evs1 -> admissible max_jobs evs2 ->
  admissible max_jobs (evs1 ++ evs2).
Proof.
  intros H1 H2 observed. rewrite throttle_check_app.
  destruct (throttle_check max_jobs observed evs1) as [o|] eqn:E.
  - apply H2.
  - now apply H1 in E.
Qed.

Lemma quiet_admissible max_jobs evs : quiet evs -> admissible max_jobs evs.
Proof.
  induction evs as [|e evs IH]; intros Hq observed; simpl; [discriminate|].
  inversion Hq as [|? ? He Hq']; subst.
  destruct e; simpl in *; try discriminate; now apply IH.
Qed.

(** *** A small logic of appended events *)

Section Appends.

(** A property of event lists that holds of the empty list and of
    concatenations. *)
Variable P : list event -> Prop.
Hypothesis P_nil : P [].
Hypothesis P_app : forall evs1 evs2, P evs1 -> P evs2 -> P (evs1 ++ evs2).

Local Abbreviation appends := (Trace.appends P).

Lemma appends_ret {A : Type} (a : A) : appends (ret a).
Proof. intros w. exists []. simpl. now rewrite app_nil_r. Qed.

Lemma appends_raise {A : Type} (e : pyexn) : appends (@raise A e).
Proof. intros w. exists []. simpl. now rewrite app_nil_r. Qed.

Lemma appends_sys_exit {A : Type} (status : Z) : appends (@sys_exit A status).
Proof. intros w. exists []. simpl. now rewrite app_nil_r. Qed.

Lemma appends_lift {A : Type} (r : result A) : appends (lift r).
Proof. destruct r; [apply appends_ret|apply appends_raise]. Qed.

Lemma appends_emit (e : event) : P [e] -> appends (emit e).
Proof. intros He w. exists [e]. simpl. auto. Qed.

Lemma appends_bind {A B : Type} (m : M A) (k : A -> M B) :
  appends m -> (forall a, appends (k a)) -> appends (bind m k).
Proof.
  intros Hm Hk w. unfold bind.
  destruct (Hm w) as (evs1 & E1 & P1).
  destruct (m w) as [a w1|e w1|c w1|w1]; simpl in *; try (exists evs1; now auto).
  destruct (Hk a w1) as (evs2 & E2 & P2).
  exists (evs1 ++ evs2). rewrite E2, E1, app_assoc. auto.
Qed.

Lemma appends_try_except {A : Type} (m : M A) : appends m -> appends (try_except m).
Proof.
  intros Hm w. unfold try_except. destruct (Hm w) as (evs & E & HP).
  exists evs. destruct (m w); simpl in *; auto.
Qed.

Lemma appends_for_loop {S A : Type} (body : S -> A -> M S) (xs : list A) :
  (forall s x, appends (body s x)) -> forall s, appends (for_loop body xs s).
Proof.
  intros Hbody. induction xs as [|x xs IH]; intros s; simpl.
  - apply appends_ret.
  - apply appends_bind; auto.
Qed.

Lemma appends_retry_loop {A : Type} (attempt : M A) (before_sleep : pyexn -> M unit)
    (left : nat) :
  appends attempt -> (forall e, appends (before_sleep e)) -> P [Sleep 60] ->
  appends (retry_loop attempt before_sleep left).
Proof.
  intros Ha Hb Hs. induction left as [|left IH]; simpl.
  - apply appends_bind; [now apply appends_try_except|].
    intros [a|e]; apply appends_ret.
  - apply appends_bind; [now apply appends_try_except|].
    intros [a|e]; [apply appends_ret|].
    apply appends_bind; [apply Hb|]. intros _.
    apply appends_bind; [now apply appends_emit|]. intros _. exact IH.
Qed.

(** A step that touches the world but not its trace. *)
Lemma appends_silent {A : Type} (m : M A) :
  (forall w, trace (world_of (m w)) = trace w) -> appends m.
Proof. intros H w. exists []. now rewrite H, app_nil_r. Qed.

End Appends.

Lemma appends_weaken {A : Type} (P Q : list event -> Prop) (m : M A) :
  (forall evs, P evs -> Q evs) -> appends P m -> appends Q m.
Proof.
  intros HPQ Hm w. destruct (Hm w) as (evs & E & HP). exists evs. auto.
Qed.

(** *** Automation *)

Create HintDb trace discriminated.

#[local] Hint Resolve quiet_nil quiet_app admissible_nil admissible_app : trace.

Lemma quiet_one (e : event) : is_sbatch e = false -> quiet [e].
Proof. intros H. constructor; [assumption|constructor]. Qed.

#[local] Hint Extern 1 (quiet [_]) => (apply quiet_one; reflexivity) : trace.

#[local] Hint Extern 1 (admissible _ [_]) =>
  (apply quiet_admissible, quiet_one; reflexivity) : trace.

(** One step through a computation built from the combinators. *)
Ltac appends_step :=
  lazymatch goal with
  | |- appends _ (bind _ _) =>
      apply appends_bind; [solve [auto with trace] | | intros ?]
  | |- appends _ (ret _) => apply appends_ret; solve [auto with trace]
  | |- appends _ (raise _) => apply appends_raise; solve [auto with trace]
  | |- appends _ (sys_exit _) => apply appends_sys_exit; solve [auto with trace]
  | |- appends _ (lift _) => apply appends_lift; solve [auto with trace]
  | |- appends _ (emit _) => apply appends_emit; solve [auto with trace]
  | |- appends _ (try_except _) => apply appends_try_except
  | |- appends _ (retry_loop _ _ _) =>
      apply appends_retry_loop;
      [solve [auto with trace] | solve [auto with trace] | | intros ?
      | solve [auto with trace]]
  | |- appends _ (for_loop _ _ _) =>
      apply appends_for_loop;
      [solve [auto with trace] | solve [auto with trace] | intros ? ?]
  | |- appends _ (match ?x with _ => _ end) => destruct x
  end.

Ltac appends_auto := repeat appends_step.

Section ServiceFacts.

Variable get_keyval : nat -> pyval -> pyval -> result pyval.
Variable get_metadata : nat -> Dict.t pyval -> pyval -> result (list pyval).
Variable retrieve_dataset_by_datasetkey : nat -> result pyval.
Variable uuid4 : nat -> string.
Variable scaled_ge : Z -> pyval -> result bool.

Lemma call_get_keyval_quiet dataset_key bucket :
  appends quiet (call_get_keyval get_keyval dataset_key bucket).
Proof.
  intros w. exists [GetKeyval dataset_key bucket]. unfold call_get_keyval.
  destruct (get_keyval (keyval_calls w) dataset_key bucket); simpl;
    auto with trace.
Qed.

Lemma call_get_metadata_quiet filter_dict collection_name :
  appends quiet (call_get_metadata get_metadata filter_dict collection_name).
Proof.
  intros w. exists [GetMetadata filter_dict collection_name].
  unfold call_get_metadata.
  destruct (get_metadata (tracker_calls w) filter_dict collection_name); simpl;
    auto with trace.
Qed.

Lemma call_retrieve_shortlist_quiet :
  appends quiet (call_retrieve_shortlist retrieve_dataset_by_datasetkey).
Proof.
  intros w. exists [RetrieveShortlist]. unfold call_retrieve_shortlist.
  destruct (retrieve_dataset_by_datasetkey (shortlist_calls w)); simpl;
    auto with trace.
Qed.

Lemma fresh_uuid_quiet : appends quiet (fresh_uuid uuid4).
Proof. apply appends_silent; auto with trace. Qed.

Lemma set_num_rows_quiet key rows : appends quiet (set_num_rows key rows).
Proof. apply appends_silent; auto with trace. Qed.

Lemma read_num_rows_quiet key : appends quiet (read_num_rows key).
Proof. apply appends_silent; auto with trace. Qed.

#[local] Hint Resolve call_get_keyval_quiet call_get_metadata_quiet
  call_retrieve_shortlist_quiet fresh_uuid_quiet set_num_rows_quiet
  read_num_rows_quiet : trace.

Lemma get_dataset_metadata_quiet uuid assay_params :
  appends quiet (get_dataset_metadata get_keyval uuid assay_params).
Proof.
  unfold get_dataset_metadata, fetch_keyval.
  appends_auto; auto with trace.
Qed.

Lemma already_run_quiet assay_params :
  appends quiet (already_run get_metadata assay_params).
Proof.
  unfold already_run, query_tracker.
  appends_auto; auto with trace.
Qed.

Lemma get_shortlist_df_fetch_quiet :
  appends quiet (get_shortlist_df_fetch retrieve_dataset_by_datasetkey).
Proof.
  unfold get_shortlist_df_fetch.
  appends_auto; auto with trace.
Qed.

Lemma too_large_quiet assay_params :
  appends quiet (too_large scaled_ge assay_params).
Proof.
  unfold too_large.
  appends_auto; auto with trace.
Qed.

#[local] Hint Resolve get_dataset_metadata_quiet already_run_quiet
  too_large_quiet : trace.

(** *** The queue loop *)

Lemma queue_wait_done max_jobs polls :
  forall rest evs,
    queue_wait max_jobs polls = (Some rest, evs) ->
    forall observed,
      exists i, throttle_check max_jobs observed evs = Some (Some i)
                /\ i < max_jobs.
Proof.
  induction polls as [|i polls IH]; intros rest evs H observed; simpl in H.
  - discriminate.
  - destruct (i >=? max_jobs) eqn:E.
    + destruct (queue_wait max_jobs polls) as [r evs'] eqn:Er.
      injection H as -> <-. simpl. now apply (IH rest evs').
    + injection H as <- <-. exists i. split; [reflexivity|].
      rewrite Z.geb_leb in E. now apply Z.leb_gt in E.
Qed.

Lemma queue_wait_pending max_jobs polls :
  forall evs, queue_wait max_jobs polls = (None, evs) -> quiet evs.
Proof.
  induction polls as [|i polls IH]; intros evs H; simpl in H.
  - injection H as <-. constructor.
  - destruct (i >=? max_jobs).
    + destruct (queue_wait max_jobs polls) as [r evs'] eqn:Er.
      injection H as -> <-. repeat (constructor; [reflexivity|]). now apply IH.
    + discriminate.
Qed.

(** The polls that come back at or above the cap are all followed by a
    sleep of 60 seconds; the loop ends at the first poll below the cap. *)
Lemma queue_wait_first_below max_jobs (busy : list Z) (i : Z) (later : list Z) :
  Forall (fun j => max_jobs <= j) busy -> i < max_jobs ->
  queue_wait max_jobs (busy ++ i :: later)
  = (Some later,
     flat_map (fun j => [Squeue j; Print (MsgJobsInQueue j); Sleep 60]) busy
       ++ [Squeue i]).
Proof.
  intros Hbusy Hi. induction busy as [|j busy IH]; simpl.
  - destruct (i >=? max_jobs) eqn:E; [|reflexivity].
    rewrite Z.geb_leb in E. apply Z.leb_le in E. lia.
  - inversion Hbusy as [|? ? Hj Hbusy']; subst.
    destruct (j >=? max_jobs) eqn:E.
    + rewrite (IH Hbusy'). reflexivity.
    + rewrite Z.geb_leb in E. apply Z.leb_gt in E. lia.
Qed.

Section SweepFacts.

Variable self : dispatcher.

Lemma wait_then_submit_admissible base_result_dir assay_params :
  appends (admissible (max_jobs self))
    (wait_for_queue (max_jobs self) ;; submit uuid4 base_result_dir assay_params).
Proof.
  intros w. unfold bind at 1. unfold wait_for_queue.
  destruct (queue_wait (max_jobs self) (squeue w)) as [[rest|] evs] eqn:E.
  - eexists (evs ++ [_; _; _; _]). split.
    + cbn. rewrite <- !app_assoc. reflexivity.
    + intros observed. rewrite throttle_check_app.
      destruct (queue_wait_done _ _ E observed) as (i & -> & Hi).
      apply Z.ltb_lt in Hi. cbn. rewrite Hi. discriminate.
  - exists evs. split; [reflexivity|].
    apply quiet_admissible. eapply queue_wait_pending; eauto.
Qed.

Lemma is_duplicate_quiet assay_params :
  appends quiet (is_duplicate get_metadata self assay_params).
Proof. unfold is_duplicate. appends_auto; auto with trace. Qed.

#[local] Hint Resolve is_duplicate_quiet wait_then_submit_admissible : trace.

#[local] Hint Extern 3 (appends (admissible _) _) =>
  (eapply appends_weaken; [apply quiet_admissible|]) : trace.

Lemma submit_combo_admissible base_result_dir assay_params combo :
  appends (admissible (max_jobs self))
    (submit_combo get_metadata uuid4 scaled_ge self base_result_dir
       assay_params combo).
Proof.
  unfold submit_combo.
  repeat lazymatch goal with
         | |- appends _ (bind (wait_for_queue _) _) =>
             apply wait_then_submit_admissible
         | _ => appends_step
         end;
    auto with trace.
Qed.

(** With a sweep configured, whatever one assay appends is admissible. *)
Lemma submit_for_assay_admissible (u : unit) a :
  param_combos self <> [] ->
  appends (admissible (max_jobs self))
    (submit_for_assay get_keyval get_metadata uuid4 scaled_ge self u a).
Proof.
  intros Hsweep. unfold submit_for_assay.
  destruct (param_combos self) as [|combo combos] eqn:E; [congruence|].
  appends_auto; auto using submit_combo_admissible with trace.
Qed.

(** With a sweep configured, every submission of a run is admissible. *)
Lemma submit_jobs_admissible :
  param_combos self <> [] ->
  appends (admissible (max_jobs self))
    (submit_jobs get_keyval get_metadata uuid4 scaled_ge self).
Proof.
  intros Hsweep. unfold submit_jobs.
  apply appends_for_loop; auto with trace.
  intros u a. now apply submit_for_assay_admissible.
Qed.

End SweepFacts.

End ServiceFacts.

End DispatchFacts.

Import Dispatch.

(** The three runs below are what the builder makes of their
    configurations, whichever the strategy. *)
Example two_kinds_is_built :
  exists s,
    @generate_param_combos Scenario.verbatim (init Scenario.two_kinds_config "run")
    = Ok s
    /\ Builder.new_params s = Dispatch.new_params Scenario.two_kinds
    /\ Builder.param_combos s = Dispatch.param_combos Scenario.two_kinds.
Proof.
  eexists. split; [vm_compute; reflexivity|]. split; vm_compute; reflexivity.
Qed.

Example no_sweep_is_built :
  exists s,
    @generate_param_combos Scenario.grid (init Scenario.no_sweep_config "run")
    = Ok s
    /\ Builder.new_params s = Dispatch.new_params Scenario.no_sweep
    /\ Builder.param_combos s = Dispatch.param_combos Scenario.no_sweep.
Proof.
  eexists. split; [vm_compute; reflexivity|]. split; vm_compute; reflexivity.
Qed.

Example one_combo_is_built :
  exists s,
    @generate_param_combos Scenario.grid (init Scenario.one_combo_config "run")
    = Ok s
    /\ Builder.new_params s = Dispatch.new_params Scenario.one_combo
    /\ Builder.param_combos s = Dispatch.param_combos Scenario.one_combo.
Proof.
  eexists. split; [vm_compute; reflexivity|]. split; vm_compute; reflexivity.
Qed.

(** C3, at the input the code fails on.  No combination is generated and
    one job is allowed; the queue would show seven jobs.  The job is submitted
    all the same, and before any poll: the three scripted polls are still
    unread when the run ends. *)
Theorem no_sweep_submits_without_polling :
  exists w,
    submit_jobs Scenario.datastore_up Scenario.tracker_empty Scenario.uuid4
      Scenario.scaled_ge Scenario.no_sweep (fresh_world [7; 7; 0])
    = Done tt w
    /\ List.length (Trace.submitted (trace w)) = 1%nat
    /\ squeue w = [7; 7; 0]
    /\ Trace.throttled (max_jobs Scenario.no_sweep) (trace w) = false.
Proof.
  eexists. split; [vm_compute; reflexivity|].
  split; [|split]; vm_compute; reflexivity.
Qed.

(** The sibling path does throttle.  With a sweep configured, whatever
    the services answer and however the run ends, every submission comes
    right after a poll that showed fewer than [max_jobs] jobs. *)
Theorem sweep_submissions_are_throttled
    (get_keyval : nat -> pyval -> pyval -> result pyval)
    (get_metadata : nat -> Dict.t pyval -> pyval -> result (list pyval))
    (uuid4 : nat -> string) (scaled_ge : Z -> pyval -> result bool)
    (self : dispatcher) (w : world) :
  Dispatch.param_combos self <> [] ->
  exists evs,
    trace (Trace.world_of
             (submit_jobs get_keyval get_metadata uuid4 scaled_ge self w))
    = trace w ++ evs
    /\ Trace.throttled (max_jobs self) evs = true.
Proof.
  intros Hsweep.
  destruct (@DispatchFacts.submit_jobs_admissible get_keyval get_metadata uuid4
              scaled_ge self Hsweep w) as (evs & E & Hadm).
  exists evs. split; [exact E|].
  unfold Trace.throttled.
  destruct (Trace.throttle_check (max_jobs self) None evs) eqn:Ec;
    [reflexivity|]. now apply Hadm in Ec.
Qed.

Lemma sweep_submissions_are_throttled_witness :
  exists evs,
    trace (Trace.world_of
             (submit_jobs Scenario.datastore_up Scenario.tracker_empty
                Scenario.uuid4 Scenario.scaled_ge Scenario.two_kinds
                (fresh_world [9; 3; 4; 0; 5; 1; 2])))
    = trace (fresh_world [9; 3; 4; 0; 5; 1; 2]) ++ evs
    /\ Trace.throttled (max_jobs Scenario.two_kinds) evs = true.
Proof.
  apply (@sweep_submissions_are_throttled Scenario.datastore_up
           Scenario.tracker_empty Scenario.uuid4 Scenario.scaled_ge
           Scenario.two_kinds (fresh_world [9; 3; 4; 0; 5; 1; 2])).
  discriminate.
Defined.

(** C4, at the input the code fails on.  Two neural-network combinations
    are followed by two random-forest ones.  The third job, the first
    random forest, still carries the learning rate and the layer sizes of
    the combination before it, which neither the assay's base nor its own
    combination holds. *)
Theorem later_candidate_keeps_earlier_keys :
  exists w base expected job1 job2 job3 job4,
    submit_jobs Scenario.datastore_up Scenario.tracker_empty Scenario.uuid4
      Scenario.scaled_ge Scenario.two_kinds (fresh_world [0; 0; 0; 0])
    = Done tt w
    /\ Trace.submitted (trace w) = [job1; job2; job3; job4]
    /\ get_dataset_metadata Scenario.datastore_up "run"
         (assay_base Scenario.two_kinds Scenario.assay) (fresh_world [])
       = Done base (Trace.world_of
                      (get_dataset_metadata Scenario.datastore_up "run"
                         (assay_base Scenario.two_kinds Scenario.assay)
                         (fresh_world [])))
    /\ Trace.overlay base (Scenario.rf_combo 100) = Ok expected
    /\ Dict.get expected "learning_rate" = None
    /\ Dict.get expected "layer_sizes" = None
    /\ Dict.get job3 "rf_estimators" = Some (PInt 100)
    /\ Dict.get job3 "learning_rate" = Some (PFloat 0.25%float)
    /\ Dict.get job3 "layer_sizes" = Some (PList [PInt 8; PInt 4]).
Proof.
  do 7 eexists.
  split; [vm_compute; reflexivity|].
  split; [vm_compute; reflexivity|].
  split; [vm_compute; reflexivity|].
  split; [vm_compute; reflexivity|].
  repeat split; vm_compute; reflexivity.
Qed.

(** ** Retry and backoff *)





(** ** Further properties *)

(** The estimate on the paths that do return a number: the product sum
    [layers[0] + sum(layers[i]*layers[i+1] + layers[i+1])], plus
    [1024*layers[0]] for ['ecfp'], [306*layers[0]] for ['descriptors'] of
    type ['moe'], [1555*layers[0]] for ['descriptors'] of type
    ['mordred_filtered'], and nothing more for any featurizer other than
    ['ecfp'] and ['descriptors']. *)
Theorem get_num_params_listed_cases
    (combo : Dict.t pyval) (first : Z) (rest : list Z) (featurizer : string) :
  Dict.get combo "layer_sizes" = Some (PList (map PInt (first :: rest))) ->
  Dict.get combo "featurizer" = Some (PStr featurizer) ->
  let tmp_sum := first + NumParamsSpec.pairwise_sum (first :: rest) in
  (featurizer = "ecfp"%string ->
   NumParams.get_num_params combo = Ok (PInt (tmp_sum + first * 1024)))
  /\ (featurizer = "descriptors"%string ->
      Dict.get combo "descriptor_type" = Some (PStr "moe") ->
      NumParams.get_num_params combo = Ok (PInt (tmp_sum + first * 306)))
  /\ (featurizer = "descriptors"%string ->
      Dict.get combo "descriptor_type" = Some (PStr "mordred_filtered") ->
      NumParams.get_num_params combo = Ok (PInt (tmp_sum + first * 1555)))
  /\ (featurizer <> "ecfp"%string -> featurizer <> "descriptors"%string ->
      NumParams.get_num_params combo = Ok (PInt tmp_sum)).
Proof.
  intros Hlayers Hfeat tmp_sum.
  pose proof (NumParamsFacts.get_num_params_unfold _ Hlayers Hfeat) as E.
  cbv zeta in E. fold tmp_sum in E. unfold eq_str in E.
  repeat split.
  - intros ->. exact E.
  - intros -> Hd. rewrite Hd in E. exact E.
  - intros -> Hd. rewrite Hd in E. exact E.
  - intros H1 H2. apply String.eqb_neq in H1, H2. now rewrite H1, H2 in E.
Qed.

Lemma get_num_params_listed_cases_witness :
  NumParams.get_num_params
    [("layer_sizes", PList [PInt 10; PInt 5]); ("featurizer", PStr "ecfp")]%string
  = Ok (PInt (10 + (10 * 5 + 5) + 10 * 1024)).
Proof.
  apply (@get_num_params_listed_cases
           [("layer_sizes", PList [PInt 10; PInt 5]);
            ("featurizer", PStr "ecfp")]%string 10 [5] "ecfp");
    reflexivity.
Defined.

(** One combination written over the parameters: when the combination
    has distinct keys and no [layers] entry, each of its keys ends with the
    value the combination gives it, and every other key keeps the value it
    had before, be it from the base or from an earlier combination. *)
Theorem overlay_writes_the_combination
    (combo assay_params : Dict.t pyval) :
  NoDup (Dict.keys combo) ->
  ~ In "layers"%string (Dict.keys combo) ->
  exists written,
    Trace.overlay assay_params combo = Ok written
    /\ forall key,
         Dict.get written key
         = match Dict.get combo key with
           | Some value => Some value
           | None => Dict.get assay_params key
           end.
Proof.
  unfold Trace.overlay. revert assay_params.
  induction combo as [|[k v] combo IH]; intros assay_params Hnd Hlayers.
  - exists assay_params. split; reflexivity.
  - inversion Hnd as [|? ? Hk Hnd']; subst.
    cbn [for_each overlay_entry].
    destruct (String.eqb_spec k "layers") as [->|Hne].
    { exfalso. apply Hlayers. now left. }
    destruct (IH (Dict.set assay_params k v) Hnd') as (written & E & Hget).
    { intros Hin. apply Hlayers. now right. }
    exists written. split; [exact E|].
    intros key. rewrite Hget. cbn [Dict.get].
    destruct (String.eqb_spec key k) as [->|Hkey].
    + apply DictFacts.get_None_keys in Hk. unfold Dict.keys in Hk.
      rewrite Hk. apply DictFacts.get_set_same.
    + destruct (Dict.get combo key); [reflexivity|].
      apply DictFacts.get_set_other. congruence.
Qed.

Lemma overlay_writes_the_combination_witness :
  exists written,
    Trace.overlay Scenario.candidate (Scenario.rf_combo 100) = Ok written
    /\ forall key,
         Dict.get written key
         = match Dict.get (Scenario.rf_combo 100) key with
           | Some value => Some value
           | None => Dict.get Scenario.candidate key
           end.
Proof.
  apply (@overlay_writes_the_combination (Scenario.rf_combo 100) Scenario.candidate).
  - repeat constructor; simpl; intuition discriminate.
  - simpl; intuition discriminate.
Defined.

(** The queue loop: after every poll that shows [max_jobs] jobs or more it
    prints and sleeps 60 seconds, and it ends at the first poll that shows
    fewer, leaving the later polls unread. *)
Theorem queue_loop_ends_at_first_free_slot
    (max_jobs : Z) (busy : list Z) (i : Z) (later : list Z) (w : world) :
  Forall (fun j => max_jobs <= j) busy ->
  i < max_jobs ->
  squeue w = busy ++ i :: later ->
  exists w',
    wait_for_queue max_jobs w = Done tt w'
    /\ squeue w' = later
    /\ trace w'
       = trace w
           ++ flat_map (fun j => [Squeue j; Print (MsgJobsInQueue j); Sleep 60]) busy
           ++ [Squeue i].
Proof.
  intros Hbusy Hi Hq. unfold wait_for_queue.
  rewrite Hq, (@DispatchFacts.queue_wait_first_below max_jobs busy i later Hbusy Hi).
  eexists. split; [reflexivity|]. split; reflexivity.
Qed.

Lemma queue_loop_ends_at_first_free_slot_witness :
  exists w',
    wait_for_queue 4 (fresh_world [9; 4; 3; 8]) = Done tt w'
    /\ squeue w' = [8]
    /\ trace w'
       = [Squeue 9; Print (MsgJobsInQueue 9); Sleep 60;
          Squeue 4; Print (MsgJobsInQueue 4); Sleep 60; Squeue 3].
Proof.
  apply (@queue_loop_ends_at_first_free_slot 4 [9; 4] 3 [8]
           (fresh_world [9; 4; 3; 8])).
  - repeat constructor; lia.
  - lia.
  - reflexivity.
Defined.

(** *** The attempt ceiling *)

Module RetryFacts.

Import Dispatch Trace.

Section Counter.

(** One of the three call counters of the world. *)
Variable calls : world -> nat.
Hypothesis calls_record_event :
  forall e w, calls (record_event e w) = calls w.

Local Abbreviation at_most := (Trace.at_most calls).

Lemma at_most_ret {A : Type} (a : A) : at_most 0 (ret a).
Proof. intros w. simpl. lia. Qed.

Lemma at_most_raise {A : Type} (e : pyexn) : at_most 0 (@raise A e).
Proof. intros w. simpl. lia. Qed.

Lemma at_most_sys_exit {A : Type} (c : Z) : at_most 0 (@sys_exit A c).
Proof. intros w. simpl. lia. Qed.

Lemma at_most_lift {A : Type} (r : result A) : at_most 0 (lift r).
Proof. destruct r; [apply at_most_ret|apply at_most_raise]. Qed.

Lemma at_most_emit (e : event) : at_most 0 (emit e).
Proof. intros w. simpl. rewrite calls_record_event. lia. Qed.

Lemma at_most_bind {A B : Type} (n1 n2 : nat) (m : M A) (k : A -> M B) :
  at_most n1 m -> (forall a, at_most n2 (k a)) -> at_most (n1 + n2) (bind m k).
Proof.
  intros Hm Hk w. unfold bind. specialize (Hm w).
  destruct (m w) as [a w1|e w1|c w1|w1]; simpl in *; try lia.
  specialize (Hk a w1). lia.
Qed.

Lemma at_most_try_except {A : Type} (n : nat) (m : M A) :
  at_most n m -> at_most n (try_except m).
Proof.
  intros Hm w. unfold try_except. specialize (Hm w).
  destruct (m w); simpl in *; lia.
Qed.

Lemma at_most_more {A : Type} (n n' : nat) (m : M A) :
  (n <= n')%nat -> at_most n m -> at_most n' m.
Proof. intros Hn Hm w. specialize (Hm w). lia. Qed.

(** A loop with [left] retries in hand makes at most [left + 1] attempts. *)
Lemma at_most_retry_loop {A : Type} (attempt : M A)
    (before_sleep : pyexn -> M unit) (left : nat) :
  at_most 1 attempt -> (forall e, at_most 0 (before_sleep e)) ->
  at_most (S left) (retry_loop attempt before_sleep left).
Proof.
  intros Ha Hb. induction left as [|left IH]; simpl.
  - apply (at_most_bind (n1 := 1) (n2 := 0)); [now apply at_most_try_except|].
    intros [a|e]; apply at_most_ret.
  - apply (at_most_bind (n1 := 1) (n2 := S left));
      [now apply at_most_try_except|].
    intros [a|e]; [eapply at_most_more; [|apply at_most_ret]; lia|].
    apply (at_most_bind (n1 := 0) (n2 := S left)); [apply Hb|]. intros _.
    apply (at_most_bind (n1 := 0) (n2 := S left)); [apply at_most_emit|].
    intros _. exact IH.
Qed.

End Counter.

(** One step through a computation, [n] calls being allowed in all and
    the retry loop being the only part that makes any. *)
Ltac at_most_step Hrec :=
  lazymatch goal with
  | |- at_most _ ?n (bind (retry_loop _ _ _) _) =>
      apply (@at_most_bind _ _ _ n 0%nat);
      [apply at_most_retry_loop; [exact Hrec | | ] | intros ?]
  | |- at_most _ ?n (bind _ _) =>
      apply (@at_most_bind _ _ _ 0%nat n); [ | intros ?]
  | |- at_most _ _ (ret _) =>
      eapply at_most_more; [|apply at_most_ret]; lia
  | |- at_most _ _ (raise _) =>
      eapply at_most_more; [|apply at_most_raise]; lia
  | |- at_most _ _ (sys_exit _) =>
      eapply at_most_more; [|apply at_most_sys_exit]; lia
  | |- at_most _ _ (lift _) =>
      eapply at_most_more; [|apply at_most_lift]; lia
  | |- at_most _ _ (emit _) =>
      eapply at_most_more; [|apply at_most_emit; exact Hrec]; lia
  | |- at_most _ _ (match ?x with _ => _ end) => destruct x
  end.

Section Services.

Variable get_keyval : nat -> pyval -> pyval -> result pyval.
Variable get_metadata : nat -> Dict.t pyval -> pyval -> result (list pyval).
Variable retrieve_dataset_by_datasetkey : nat -> result pyval.

Lemma keyval_calls_record_event e w :
  keyval_calls (record_event e w) = keyval_calls w.
Proof. reflexivity. Qed.

Lemma tracker_calls_record_event e w :
  tracker_calls (record_event e w) = tracker_calls w.
Proof. reflexivity. Qed.

Lemma shortlist_calls_record_event e w :
  shortlist_calls (record_event e w) = shortlist_calls w.
Proof. reflexivity. Qed.

Lemma call_get_keyval_once dataset_key bucket :
  at_most keyval_calls 1 (call_get_keyval get_keyval dataset_key bucket).
Proof.
  intros w. unfold call_get_keyval.
  destruct (get_keyval (keyval_calls w) dataset_key bucket); simpl; lia.
Qed.

Lemma call_get_metadata_once filter_dict collection_name :
  at_most tracker_calls 1
    (call_get_metadata get_metadata filter_dict collection_name).
Proof.
  intros w. unfold call_get_metadata.
  destruct (get_metadata (tracker_calls w) filter_dict collection_name);
    simpl; lia.
Qed.

Lemma call_retrieve_shortlist_once :
  at_most shortlist_calls 1
    (call_retrieve_shortlist retrieve_dataset_by_datasetkey).
Proof.
  intros w. unfold call_retrieve_shortlist.
  destruct (retrieve_dataset_by_datasetkey (shortlist_calls w)); simpl; lia.
Qed.

Lemma set_num_rows_no_call key rows :
  at_most keyval_calls 0 (set_num_rows key rows).
Proof. intros w. simpl. lia. Qed.

Lemma get_dataset_metadata_six uuid assay_params :
  at_most keyval_calls 6 (get_dataset_metadata get_keyval uuid assay_params).
Proof.
  unfold get_dataset_metadata.
  at_most_step keyval_calls_record_event; [at_most_step keyval_calls_record_event|].
  at_most_step keyval_calls_record_event; [at_most_step keyval_calls_record_event|].
  at_most_step keyval_calls_record_event.
  - unfold fetch_keyval.
    at_most_step keyval_calls_record_event;
      [at_most_step keyval_calls_record_event|].
    at_most_step keyval_calls_record_event;
      [at_most_step keyval_calls_record_event|].
    apply call_get_keyval_once.
  - intros e. at_most_step keyval_calls_record_event.
  - repeat first
      [ apply set_num_rows_no_call
      | at_most_step keyval_calls_record_event ].
Qed.

Lemma already_run_six assay_params :
  at_most tracker_calls 6 (already_run get_metadata assay_params).
Proof.
  unfold already_run.
  at_most_step tracker_calls_record_event;
    [at_most_step tracker_calls_record_event|].
  at_most_step tracker_calls_record_event.
  - unfold query_tracker.
    at_most_step tracker_calls_record_event;
      [at_most_step tracker_calls_record_event|].
    apply call_get_metadata_once.
  - intros e. at_most_step tracker_calls_record_event.
  - repeat at_most_step tracker_calls_record_event.
Qed.

Lemma get_shortlist_df_fetch_six :
  at_most shortlist_calls 6
    (get_shortlist_df_fetch retrieve_dataset_by_datasetkey).
Proof.
  unfold get_shortlist_df_fetch.
  at_most_step shortlist_calls_record_event.
  - apply call_retrieve_shortlist_once.
  - intros e. at_most_step shortlist_calls_record_event.
  - repeat at_most_step shortlist_calls_record_event.
Qed.

End Services.

End RetryFacts.

(** Whatever the services answer, one call of the metadata fetch, of the
    duplicate query or of the shortlist fetch makes at most six attempts. *)
Theorem reads_stop_at_six_attempts
    (get_keyval : nat -> pyval -> pyval -> result pyval)
    (get_metadata : nat -> Dict.t pyval -> pyval -> result (list pyval))
    (retrieve_dataset_by_datasetkey : nat -> result pyval)
    (uuid : string) (assay_params : Dict.t pyval) (w : world) :
  (keyval_calls
     (Trace.world_of (get_dataset_metadata get_keyval uuid assay_params w))
   <= keyval_calls w + 6)%nat
  /\ (tracker_calls (Trace.world_of (already_run get_metadata assay_params w))
      <= tracker_calls w + 6)%nat
  /\ (shortlist_calls
        (Trace.world_of (get_shortlist_df_fetch retrieve_dataset_by_datasetkey w))
      <= shortlist_calls w + 6)%nat.
Proof.
  split; [|split].
  - apply RetryFacts.get_dataset_metadata_six.
  - apply RetryFacts.already_run_six.
  - apply RetryFacts.get_shortlist_df_fetch_six.
Qed.

(** ** LayerTopologyPermutator, continued *)

Module TopologyFacts.

Import Permutator.

Lemma insert_asc_In (x y : Z) (l : list Z) :
  In y (insert_asc x l) <-> y = x \/ In y l.
Proof.
  induction l as [|z l IH]; simpl.
  - intuition.
  - destruct (x <=? z); simpl; [intuition|]. rewrite IH. intuition.
Qed.

Lemma np_sort_In (y : Z) (l : list Z) : In y (np_sort l) <-> In y l.
Proof.
  induction l as [|x l IH]; simpl; [tauto|].
  rewrite insert_asc_In, IH. intuition.
Qed.

(** The last element of a descending list is below all of them. *)
Lemma py_last_descending (l : list Z) (final : Z) :
  StronglySorted Z.ge l -> py_last l = Ok final ->
  Forall (fun n => final <= n) l.
Proof.
  induction l as [|x l IH]; intros Hs Hlast; [constructor|].
  inversion Hs as [|? ? Hs' Hall]; subst.
  destruct l as [|y l'].
  - simpl in Hlast. injection Hlast as <-. repeat constructor. lia.
  - assert (Hrest : Forall (fun n => final <= n) (y :: l')) by (apply IH; auto).
    constructor; [|exact Hrest].
    inversion Hrest; subst. inversion Hall; subst. lia.
Qed.

Lemma py_last_In {A : Type} (l : list A) (x : A) : py_last l = Ok x -> In x l.
Proof.
  induction l as [|a l IH]; [discriminate|].
  destruct l as [|b l']; simpl.
  - intros [= <-]. now left.
  - intros H. right. now apply IH.
Qed.

Section Drawn.

Variable D : Type.
Variable layer_nums node_nums : list Z.
Variable max_final_layer_size : Z.

Variable pool : list Z.
Variable cap : Z.
Hypothesis pool_nodes : forall n, In n pool -> In n node_nums.
Hypothesis cap_relaxed :
  forall final, final <= cap ->
    final <= max_final_layer_size \/ Forall (fun n => final <= n) node_nums.

Let all_drawn (a : acc D) : Prop :=
  Forall (TopologySpec.drawn layer_nums node_nums max_final_layer_size)
    (layer_sizes a).

Lemma visit_layer_drawn (d : D) (a a' : acc D) (layer : list Z) :
  all_drawn a ->
  Forall (fun n => In n pool) layer ->
  In (Z.of_nat (List.length layer)) layer_nums ->
  visit_layer cap d a layer = Ok a' -> all_drawn a'.
Proof.
  intros Ha Hmem Hlen. unfold visit_layer.
  destruct (py_last layer) as [final|e] eqn:Elast; [|discriminate].
  cbn [rbind].
  destruct (final <=? cap) eqn:Ecap; cbn [andb].
  - destruct (negb (layer_in layer (_repeated_layers a))).
    + intros [= <-]. unfold all_drawn. cbn [layer_sizes].
      apply Forall_app. split; [exact Ha|]. constructor; [|constructor].
      split; [|split].
      * eapply Forall_impl; [|exact Hmem]. auto.
      * exact Hlen.
      * exists final. split; [exact Elast|].
        apply cap_relaxed. now apply Z.leb_le.
    + now intros [= <-].
  - now intros [= <-].
Qed.

Lemma visit_layer_num_drawn (d : D) (a a' : acc D) (layer_num : Z) :
  all_drawn a -> In layer_num layer_nums ->
  visit_layer_num pool cap d a layer_num = Ok a' -> all_drawn a'.
Proof.
  intros Ha Hnum. unfold visit_layer_num, combinations.
  destruct (layer_num <? 0) eqn:E; [discriminate|]. cbn [rbind].
  apply Z.ltb_ge in E.
  apply for_each_invariant
    with (Q := fun c => In c (combinations_nat pool (Z.to_nat layer_num)));
    [| apply Forall_forall; auto | exact Ha].
  intros s c s' Hs Hc. apply visit_layer_drawn; [exact Hs| |].
  - destruct (@PermutatorFacts.combinations_nat_sorted Z (fun _ _ => True) pool)
      with (r := Z.to_nat layer_num) (c := c) as [_ Hmem]; auto.
    clear. induction pool; constructor; auto. apply Forall_forall; auto.
  - rewrite (PermutatorFacts.combinations_nat_length _ _ _ Hc).
    now rewrite Z2Nat.id.
Qed.

Lemma visit_dropout_drawn (a a' : acc D) (d : D) :
  all_drawn a ->
  visit_dropout layer_nums pool cap a d = Ok a' -> all_drawn a'.
Proof.
  intros Ha. unfold visit_dropout.
  apply for_each_invariant with (Q := fun n => In n layer_nums);
    [| apply Forall_forall; auto | exact Ha].
  intros s n s' Hs Hn. now apply visit_layer_num_drawn.
Qed.

End Drawn.

End TopologyFacts.

Import Permutator.

(** Every topology [permutate_NNlayer_combo_params] returns is made of
    node sizes of [node_nums], has one of the lengths of [layer_nums], and
    ends in a size that is at most [max_final_layer_size] or else the
    smallest node size there is. *)
Theorem permutate_draws_from_the_inputs
    (D : Type) (layer_nums node_nums : list Z) (dropout_list : list D)
    (max_final_layer_size : Z) (sizes : list (list Z)) (drops : list (list D)) :
  permutate_NNlayer_combo_params layer_nums node_nums dropout_list
    max_final_layer_size = Ok (sizes, drops) ->
  Forall (TopologySpec.drawn layer_nums node_nums max_final_layer_size) sizes.
Proof.
  unfold permutate_NNlayer_combo_params.
  set (pool := rev (np_sort node_nums)).
  destruct (py_last pool) as [smallest|e] eqn:Elast; [|discriminate].
  cbn [rbind].
  set (cap := if smallest >? max_final_layer_size then smallest
              else max_final_layer_size).
  assert (Hpool : StronglySorted Z.ge pool)
    by apply PermutatorFacts.descending_rev, PermutatorFacts.np_sort_sorted.
  assert (Hnodes : forall n, In n pool <-> In n node_nums).
  { intros n. unfold pool. rewrite <- in_rev. apply TopologyFacts.np_sort_In. }
  assert (Hcap : forall final, final <= cap ->
             final <= max_final_layer_size
             \/ Forall (fun n => final <= n) node_nums).
  { intros final Hle. unfold cap in Hle.
    destruct (smallest >? max_final_layer_size) eqn:E; [|now left].
    right. apply Forall_forall. intros n Hn. apply Hnodes in Hn.
    pose proof (TopologyFacts.py_last_descending Hpool Elast) as Hmin.
    rewrite Forall_forall in Hmin. specialize (Hmin n Hn). lia. }
  destruct (for_each _ dropout_list _) as [a|e] eqn:E; [|discriminate].
  cbn [rbind]. intros [= <- <-].
  revert E.
  apply for_each_invariant
    with (P := fun a => Forall (TopologySpec.drawn layer_nums node_nums
                                  max_final_layer_size) (layer_sizes a))
         (Q := fun _ : D => True);
    [| apply Forall_forall; auto | constructor].
  intros s d s' Hs _.
  eapply TopologyFacts.visit_dropout_drawn; eauto.
  intros n Hn. now apply Hnodes.
Qed.

Lemma permutate_draws_from_the_inputs_witness :
  Forall (TopologySpec.drawn [2; 3] [4; 8; 16] 5)
    [[16; 4]; [8; 4]; [16; 8; 4]].
Proof.
  apply (@permutate_draws_from_the_inputs Z [2; 3] [4; 8; 16] [0] 5
           [[16; 4]; [8; 4]; [16; 8; 4]] [[0; 0]; [0; 0]; [0; 0; 0]]).
  reflexivity.
Defined.

Module CandidateFacts.

Import Permutator.

Lemma combine_snoc {A B : Type} (l1 : list A) (l2 : list B) (x : A) (y : B) :
  List.length l1 = List.length l2 ->
  combine (l1 ++ [x]) (l2 ++ [y]) = combine l1 l2 ++ [(x, y)].
Proof.
  revert l2; induction l1 as [|a l1 IH]; intros [|b l2] H; simpl in *;
    try discriminate; [reflexivity|].
  f_equal. apply IH. congruence.
Qed.

Lemma repeat_inj {A : Type} (x y : A) (n : nat) :
  (0 < n)%nat -> repeat x n = repeat y n -> x = y.
Proof. destruct n; [lia|]. simpl. congruence. Qed.

Lemma layer_in_spec (layer : list Z) (seen : list (list Z)) :
  layer_in layer seen = true <-> In layer seen.
Proof.
  unfold layer_in. destruct (in_dec _ layer seen); split; auto; discriminate.
Qed.



Section Rounds.

Variable D : Type.

Local Abbreviation pairs := (@TopologySpec.pairs D).

(** One step of the innermost loop either leaves the lists alone or
    appends one topology that the current round has not seen, with its
    dropouts. *)
Lemma visit_layer_inv (cap : Z) (d : D) (a a' : acc D) (layer : list Z) :
  visit_layer cap d a layer = Ok a' ->
  exists final, py_last layer = Ok final /\
    ((final <= cap /\ ~ In layer (_repeated_layers a) /\
      a' = {| layer_sizes := layer_sizes a ++ [layer];
              dropouts := dropouts a ++ [repeat d (List.length layer)];
              _repeated_layers := _repeated_layers a ++ [layer] |})
     \/ ((cap < final \/ In layer (_repeated_layers a)) /\ a' = a)).
Proof.
  unfold visit_layer.
  destruct (py_last layer) as [final|e]; [|discriminate]. cbn [rbind].
  exists final. split; [reflexivity|].
  destruct (final <=? cap) eqn:Ecap; cbn [andb] in *.
  - destruct (layer_in layer (_repeated_layers a)) eqn:Eseen; cbn [negb] in *.
    + right. injection H as <-. split; [|reflexivity].
      right. now apply layer_in_spec.
    + left. injection H as <-. apply Z.leb_le in Ecap.
      rewrite PermutatorFacts.map_const_repeat.
      repeat split; [assumption|].
      intros Hin. apply layer_in_spec in Hin. congruence.
  - right. injection H as <-. apply Z.leb_gt in Ecap. auto.
Qed.

Lemma py_last_Ok_nonempty {A : Type} (l : list A) (x : A) :
  py_last l = Ok x -> l <> [].
Proof. destruct l; [discriminate|discriminate]. Qed.

(** *** No candidate twice *)

Section Distinct.

Variable earlier : list D.
Variable d : D.
Hypothesis d_new : ~ In d earlier.

Local Abbreviation from_earlier := (TopologySpec.from_earlier earlier).
Local Abbreviation in_round := (TopologySpec.in_round earlier d).

Lemma visit_layer_distinct cap a a' layer :
  in_round a -> visit_layer cap d a layer = Ok a' -> in_round a'.
Proof.
  intros (Hlen & Hnd & Hall) H.
  destruct (visit_layer_inv _ _ _ _ H)
    as (final & Hlast & [(_ & Hfresh & ->)|(_ & ->)]);
    [|exact (conj Hlen (conj Hnd Hall))].
  pose proof (@py_last_Ok_nonempty _ _ _ Hlast) as Hne.
  unfold TopologySpec.in_round, TopologySpec.pairs; cbn [layer_sizes dropouts _repeated_layers].
  rewrite !length_app, combine_snoc by assumption. simpl.
  split; [lia|]. split.
  - apply NoDup_app; [assumption|repeat constructor; auto|].
    intros p Hp [<-|[]].
    destruct (Hall _ _ Hp) as [_ [(d' & Hd' & Heq)|(_ & Hin)]]; [|auto].
    apply repeat_inj in Heq; [congruence|].
    destruct layer; [congruence|simpl; lia].
  - intros l ds Hin. apply in_app_or in Hin. destruct Hin as [Hin|[[= <- <-]|[]]].
    + destruct (Hall _ _ Hin) as [Hl [Hold|(Hds & Hseen)]];
        (split; [assumption|]); [now left|].
      right. split; [assumption|]. apply in_or_app; now left.
    + split; [assumption|]. right. split; [reflexivity|].
      apply in_or_app; right; now left.
Qed.

Lemma visit_dropout_distinct layer_nums pool cap a a' :
  from_earlier a ->
  visit_dropout layer_nums pool cap a d = Ok a' -> in_round a'.
Proof.
  intros (Hlen & Hnd & Hall). unfold visit_dropout.
  apply for_each_invariant with (Q := fun _ : Z => True);
    [| apply Forall_forall; auto |].
  - intros s n s' Hs _. unfold visit_layer_num.
    destruct (combinations pool n) as [layers|e]; [|discriminate].
    cbn [rbind].
    apply for_each_invariant with (Q := fun _ : list Z => True);
      [| apply Forall_forall; auto | exact Hs].
    intros s0 layer s1 Hs0 _. now apply visit_layer_distinct.
  - repeat split; [assumption..| |]; destruct (Hall _ _ H) as [Hl Hex]; auto.
Qed.

End Distinct.

Lemma in_round_from_earlier (earlier : list D) (d : D) (a : acc D) :
  TopologySpec.in_round earlier d a ->
  TopologySpec.from_earlier (earlier ++ [d]) a.
Proof.
  intros (Hlen & Hnd & Hall). repeat split; [assumption..| |];
    destruct (Hall _ _ H) as [Hl [(d' & Hd' & Hds)|(Hds & _)]]; auto.
  - exists d'. split; [apply in_or_app; now left|assumption].
  - exists d. split; [apply in_or_app; right; now left|assumption].
Qed.

Lemma rounds_distinct layer_nums pool cap :
  forall (rest earlier : list D) (a a' : acc D),
    NoDup (earlier ++ rest) -> TopologySpec.from_earlier earlier a ->
    for_each (visit_dropout layer_nums pool cap) rest a = Ok a' ->
    TopologySpec.from_earlier (earlier ++ rest) a'.
Proof.
  induction rest as [|d rest IH]; intros earlier a a' Hnd Ha; simpl.
  - intros [= <-]. now rewrite app_nil_r.
  - destruct (visit_dropout layer_nums pool cap a d) as [a1|e] eqn:E;
      [|discriminate].
    intros Hrest.
    replace (earlier ++ d :: rest) with ((earlier ++ [d]) ++ rest) in *
      by (rewrite <- app_assoc; reflexivity).
    apply (IH (earlier ++ [d]) a1 a' Hnd); [|assumption].
    apply in_round_from_earlier.
    apply (@visit_dropout_distinct earlier d) with (3 := E); [|assumption].
    rewrite <- app_assoc in Hnd. simpl in Hnd.
    apply NoDup_remove_2 in Hnd. intros Hin. apply Hnd.
    apply in_or_app; now left.
Qed.

(** *** No candidate lost *)

Section Complete.

Variable d : D.
Variable cap : Z.

Local Abbreviation listed := (TopologySpec.listed d).
Local Abbreviation emitted := (TopologySpec.emitted d cap).

Lemma visit_layer_grows (d0 : D) cap0 a a' layer p :
  List.length (layer_sizes a) = List.length (dropouts a) ->
  visit_layer cap0 d0 a layer = Ok a' ->
  List.length (layer_sizes a') = List.length (dropouts a')
  /\ (In p (pairs a) -> In p (pairs a')).
Proof.
  intros Hlen H.
  destruct (visit_layer_inv _ _ _ _ H) as (final & _ & [(_ & _ & ->)|(_ & ->)]);
    [|auto].
  unfold TopologySpec.pairs; cbn [layer_sizes dropouts].
  rewrite !length_app, combine_snoc by assumption. simpl.
  split; [lia|]. intros Hp. apply in_or_app; now left.
Qed.

Lemma visit_layer_emits a a' layer :
  listed a -> visit_layer cap d a layer = Ok a' ->
  listed a' /\ emitted layer a'.
Proof.
  intros (Hlen & Hseen) H.
  destruct (visit_layer_inv _ _ _ _ H)
    as (final & Hlast & [(_ & _ & ->)|([Hbig|Hin] & ->)]).
  - unfold TopologySpec.listed, TopologySpec.emitted, TopologySpec.pairs;
      cbn [layer_sizes dropouts _repeated_layers].
    rewrite !length_app, combine_snoc by assumption. simpl.
    split; [split; [lia|]|].
    + intros l Hl. apply in_or_app. apply in_app_or in Hl.
      destruct Hl as [Hl|[<-|[]]]; [left; auto|right; now left].
    + intros _ _ _. apply in_or_app; right; now left.
  - split; [now split|]. intros final' Hlast' Hle.
    rewrite Hlast in Hlast'. injection Hlast' as <-. lia.
  - split; [now split|]. intros _ _ _. auto.
Qed.

Lemma for_each_covers {S A : Type} (I : S -> Prop) (Post : A -> S -> Prop)
    (body : S -> A -> result S) :
  (forall s x s', I s -> body s x = Ok s' -> I s' /\ Post x s') ->
  (forall s x s' y, I s -> Post y s -> body s x = Ok s' -> Post y s') ->
  forall xs s s', I s -> for_each body xs s = Ok s' ->
    I s' /\ forall x, In x xs -> Post x s'.
Proof.
  intros Hstep Hkeep xs. induction xs as [|x xs IH]; intros s s' HI; simpl.
  - intros [= <-]. split; [assumption|contradiction].
  - destruct (body s x) as [s1|e] eqn:E; [|discriminate]. intros Hrest.
    destruct (Hstep _ _ _ HI E) as [HI1 Hpost].
    destruct (IH _ _ HI1 Hrest) as [HI' Hall]. split; [assumption|].
    intros y [<-|Hy]; [|auto].
    apply (@for_each_invariant S A (fun s => I s /\ Post x s) (fun _ => True)
             body) with (xs := xs) (s := s1) (s' := s');
      [| apply Forall_forall; auto | auto | assumption].
    intros s0 z s2 [HI0 HP0] _ Ez. split.
    + now destruct (Hstep _ _ _ HI0 Ez).
    + eapply Hkeep; eauto.
Qed.

Lemma visit_layer_num_emits pool a a' layer_num :
  listed a -> visit_layer_num pool cap d a layer_num = Ok a' ->
  listed a' /\
  forall layer, In layer (combinations_nat pool (Z.to_nat layer_num)) ->
    emitted layer a'.
Proof.
  intros Ha. unfold visit_layer_num, combinations.
  destruct (layer_num <? 0); [discriminate|]. cbn [rbind].
  apply for_each_covers with (I := listed); [| |exact Ha].
  - intros s x s'. apply visit_layer_emits.
  - intros s x s' y (Hlen & _) Hy Hx final Hlast Hle.
    eapply visit_layer_grows; eauto.
Qed.

Lemma visit_layer_num_grows (d0 : D) cap0 pool a a' layer_num p :
  List.length (layer_sizes a) = List.length (dropouts a) ->
  visit_layer_num pool cap0 d0 a layer_num = Ok a' ->
  List.length (layer_sizes a') = List.length (dropouts a')
  /\ (In p (pairs a) -> In p (pairs a')).
Proof.
  intros Hlen. unfold visit_layer_num.
  destruct (combinations pool layer_num) as [layers|e]; [|discriminate].
  cbn [rbind].
  apply for_each_invariant
    with (P := fun s => List.length (layer_sizes s) = List.length (dropouts s)
                        /\ (In p (pairs a) -> In p (pairs s)))
         (Q := fun _ : list Z => True);
    [| apply Forall_forall; auto | auto].
  intros s x s' [Hs Hp] _ Hx.
  destruct (@visit_layer_grows d0 cap0 s s' x p Hs Hx). auto.
Qed.

Lemma visit_dropout_grows (d0 : D) cap0 layer_nums pool a a' p :
  List.length (layer_sizes a) = List.length (dropouts a) ->
  visit_dropout layer_nums pool cap0 a d0 = Ok a' ->
  List.length (layer_sizes a') = List.length (dropouts a')
  /\ (In p (pairs a) -> In p (pairs a')).
Proof.
  intros Hlen. unfold visit_dropout.
  apply for_each_invariant
    with (P := fun s => List.length (layer_sizes s) = List.length (dropouts s)
                        /\ (In p (pairs a) -> In p (pairs s)))
         (Q := fun _ : Z => True);
    [| apply Forall_forall; auto | split; [exact Hlen|auto]].
  intros s x s' [Hs Hp] _ Hx.
  destruct (@visit_layer_num_grows d0 cap0 pool s s' x p Hs Hx). auto.
Qed.

Lemma visit_dropout_emits layer_nums pool a a' :
  List.length (layer_sizes a) = List.length (dropouts a) ->
  visit_dropout layer_nums pool cap a d = Ok a' ->
  List.length (layer_sizes a') = List.length (dropouts a') /\
  forall layer_num layer,
    In layer_num layer_nums ->
    In layer (combinations_nat pool (Z.to_nat layer_num)) ->
    emitted layer a'.
Proof.
  intros Hlen. unfold visit_dropout. intros H.
  apply for_each_covers
    with (I := listed)
         (Post := fun n s => forall layer,
                    In layer (combinations_nat pool (Z.to_nat n)) ->
                    emitted layer s) in H.
  - destruct H as [[Hlen' _] Hall]. split; [assumption|].
    intros n layer Hn Hl. exact (Hall n Hn layer Hl).
  - intros s x s'. apply visit_layer_num_emits.
  - intros s x s' y (Hs & _) Hy Hx layer Hl final Hlast Hle.
    eapply visit_layer_num_grows; eauto. eapply Hy; eauto.
  - split; [exact Hlen|]. intros l [].
Qed.

End Complete.

Lemma rounds_emit layer_nums pool cap (dropout_list : list D) a a' :
  List.length (layer_sizes a) = List.length (dropouts a) ->
  for_each (visit_dropout layer_nums pool cap) dropout_list a = Ok a' ->
  forall d layer_num layer,
    In d dropout_list -> In layer_num layer_nums ->
    In layer (combinations_nat pool (Z.to_nat layer_num)) ->
    TopologySpec.emitted d cap layer a'.
Proof.
  intros Hlen H d n layer Hd Hn Hl.
  apply for_each_covers
    with (I := fun s => List.length (layer_sizes s) = List.length (dropouts s))
         (Post := fun d s => forall n layer,
                    In n layer_nums ->
                    In layer (combinations_nat pool (Z.to_nat n)) ->
                    TopologySpec.emitted d cap layer s) in H.
  - destruct H as [_ Hall]. exact (Hall d Hd n layer Hn Hl).
  - intros s x s' Hs Hx. eapply visit_dropout_emits; eauto.
  - intros s x s' y Hs Hy Hx n0 layer0 Hn0 Hl0 final Hlast Hle.
    eapply visit_dropout_grows; eauto. eapply Hy; eauto.
  - exact Hlen.
Qed.

End Rounds.

End CandidateFacts.

(** With no value repeated in [dropout_list], no candidate is returned
    twice by [permutate_NNlayer_combo_params]: the pairs of a topology and
    its dropouts are pairwise distinct, also when [node_nums] repeats a
    size and the combinations repeat a topology. *)
Theorem permutate_returns_no_candidate_twice
    (D : Type) (layer_nums node_nums : list Z) (dropout_list : list D)
    (max_final_layer_size : Z) (sizes : list (list Z)) (drops : list (list D)) :
  NoDup dropout_list ->
  permutate_NNlayer_combo_params layer_nums node_nums dropout_list
    max_final_layer_size = Ok (sizes, drops) ->
  NoDup (combine sizes drops).
Proof.
  intros Hnd. unfold permutate_NNlayer_combo_params.
  destruct (py_last _) as [smallest|e]; [|discriminate]. cbn [rbind].
  destruct (for_each _ dropout_list _) as [a|e] eqn:E; [|discriminate].
  cbn [rbind]. intros [= <- <-].
  apply (@CandidateFacts.rounds_distinct D _ _ _ dropout_list []) in E.
  - now destruct E as (_ & Hdistinct & _).
  - exact Hnd.
  - repeat split; try constructor; contradiction.
Qed.

Lemma permutate_returns_no_candidate_twice_witness :
  NoDup (combine [[4; 4]; [4]; [4; 4]; [4]] [[1; 1]; [1]; [2; 2]; [2]]).
Proof.
  apply (@permutate_returns_no_candidate_twice Z [2; 1] [4; 4; 4] [1; 2] 4).
  - repeat constructor; simpl; intuition discriminate.
  - reflexivity.
Defined.

(** No admissible topology is lost by [permutate_NNlayer_combo_params]:
    when the call returns, every combination of the node sizes in
    descending order, of a length taken from [layer_nums], whose last layer
    is at most [max_final_layer_size] or at most the smallest node size,
    is returned with every dropout value of [dropout_list]. *)
Theorem permutate_returns_every_admissible_topology
    (D : Type) (layer_nums node_nums : list Z) (dropout_list : list D)
    (max_final_layer_size : Z) (sizes : list (list Z)) (drops : list (list D))
    (d : D) (layer_num : Z) (layer : list Z) (final smallest : Z) :
  permutate_NNlayer_combo_params layer_nums node_nums dropout_list
    max_final_layer_size = Ok (sizes, drops) ->
  In d dropout_list -> In layer_num layer_nums ->
  In layer (combinations_nat (rev (np_sort node_nums)) (Z.to_nat layer_num)) ->
  py_last layer = Ok final ->
  py_last (rev (np_sort node_nums)) = Ok smallest ->
  final <= Z.max smallest max_final_layer_size ->
  In (layer, repeat d (List.length layer)) (combine sizes drops).
Proof.
  intros H Hd Hn Hl Hlast Hsmall Hle. revert H.
  unfold permutate_NNlayer_combo_params. rewrite Hsmall. cbn [rbind].
  destruct (for_each _ dropout_list _) as [a|e] eqn:E; [|discriminate].
  cbn [rbind]. intros [= <- <-].
  eapply CandidateFacts.rounds_emit in E; [| reflexivity | eauto..].
  apply (E final Hlast).
  destruct (smallest >? max_final_layer_size) eqn:Ecmp; lia.
Qed.

Lemma permutate_returns_every_admissible_topology_witness :
  In ([16; 4], repeat 0 2)
    (combine [[16; 4]; [8; 4]; [16; 8; 4]] [[0; 0]; [0; 0]; [0; 0; 0]]).
Proof.
  apply (@permutate_returns_every_admissible_topology Z [2; 3] [4; 8; 16] [0] 5
           [[16; 4]; [8; 4]; [16; 8; 4]] [[0; 0]; [0; 0]; [0; 0; 0]]
           0 2 [16; 4] 4 4);
    try reflexivity; simpl; try tauto; lia.
Defined.


(** ** Distinct names *)

Module NamesFacts.

Import NamesSpec.

Lemma name_in_spec (k : string) (names : list string) :
  name_in k names = true <-> In k names.
Proof.
  unfold name_in. rewrite existsb_exists. split.
  - intros (x & Hx & E). apply String.eqb_eq in E. now subst.
  - intros H. exists k. split; [assumption|apply String.eqb_refl].
Qed.

Lemma distinctb_NoDup (l : list string) : distinctb l = true -> NoDup l.
Proof.
  induction l as [|x l IH]; simpl; intros H; [constructor|].
  apply andb_prop in H. destruct H as [Hx Hl].
  constructor; [|auto].
  intros Hin. apply name_in_spec in Hin. rewrite Hin in Hx. discriminate.
Qed.

End NamesFacts.

(** ** The reformatted filter *)

Module FilterFacts.

Import Dispatch FilterSpec.

(** The two nested loops are one loop over the flattened pairs. *)
Lemma fold_flat (filter_dict : Dict.t pyval) renames d :
  fold_left
    (fun new_filter_dict kv =>
       fold_left (rename_under filter_dict (fst kv)) (snd kv) new_filter_dict)
    renames d
  = fold_left (fun acc p => rename_under filter_dict (fst p) acc (snd p))
      (flat renames) d.
Proof.
  revert d. induction renames as [|[ns names] renames IH]; intros d;
    [reflexivity|].
  unfold flat in *. cbn [flat_map fold_left fst snd].
  rewrite fold_left_app, <- IH. f_equal.
  clear. revert d. induction names as [|n names IHn]; intros d; simpl; auto.
Qed.

(** With every path written at most once, the loop adds exactly the listed
    names the filter has, each with the filter's value. *)
Lemma renamed_entries (filter_dict : Dict.t pyval) :
  forall ps d,
    NoDup (map path ps) ->
    (forall p, In p ps -> Dict.get d (path p) = None) ->
    forall k v,
      Dict.get
        (fold_left (fun acc p => rename_under filter_dict (fst p) acc (snd p))
           ps d) k = Some v
      <-> Dict.get d k = Some v
          \/ exists p, In p ps /\ k = path p
                       /\ Dict.get filter_dict (snd p) = Some v.
Proof.
  induction ps as [|p ps IH]; intros d Hnd Hfree k v; simpl.
  - split; [auto|]. intros [H|(p & [] & _)]. exact H.
  - inversion Hnd as [|? ? Hp Hnd']; subst.
    assert (Hfree1 : forall q, In q ps ->
              Dict.get (rename_under filter_dict (fst p) d (snd p)) (path q)
              = None).
    { intros q Hq. unfold rename_under.
      destruct (Dict.get filter_dict (snd p)); [|apply Hfree; now right].
      fold (path p). rewrite DictFacts.get_set_other; [apply Hfree; now right|].
      intros E. apply Hp. rewrite E. now apply in_map. }
    rewrite (IH _ Hnd' Hfree1 k v). unfold rename_under.
    destruct (Dict.get filter_dict (snd p)) as [fv|] eqn:Efv.
    + fold (path p). destruct (string_dec (path p) k) as [<-|Hk].
      * rewrite DictFacts.get_set_same. split.
        -- intros [[= <-]|(q & Hq & Eq & Hv)].
           ++ right. exists p. auto.
           ++ right. exists q. auto.
        -- intros [Hd|(q & [<-|Hq] & Eq & Hv)].
           ++ rewrite Hfree in Hd by now left. discriminate.
           ++ left. congruence.
           ++ right. exists q. auto.
      * rewrite DictFacts.get_set_other by assumption. split.
        -- intros [Hd|(q & Hq & Eq & Hv)]; [auto|]. right. exists q. auto.
        -- intros [Hd|(q & [<-|Hq] & Eq & Hv)]; [auto|congruence|].
           right. exists q. auto.
    + split.
      * intros [Hd|(q & Hq & Eq & Hv)]; [auto|]. right. exists q. auto.
      * intros [Hd|(q & [<-|Hq] & Eq & Hv)]; [auto|congruence|].
        right. exists q. auto.
Qed.

(** No path is written twice, whatever model type and featurizer the
    filter names. *)
Lemma rename_dict_distinct (filter_dict : Dict.t pyval) renames :
  rename_dict filter_dict = Ok renames -> NoDup (map path (flat renames)).
Proof.
  unfold rename_dict.
  destruct (Dict.getitem filter_dict "model_type") as [m|e]; [|discriminate].
  destruct (Dict.getitem filter_dict "featurizer") as [f|e]; [|discriminate].
  cbn [rbind]. intros [= <-]. apply NamesFacts.distinctb_NoDup.
  unfold model_specific, featurizer_specific.
  destruct (eq_str m "NN"), (eq_str m "RF"), (eq_str m "xgboost"),
    (eq_str f "ecfp"), (eq_str f "descriptor"), (eq_str f "molvae");
    vm_compute; reflexivity.
Qed.

End FilterFacts.

Import Dispatch.

(** [reformat_filter_dict] raises [KeyError] when the filter has no
    ['model_type'] or no ['featurizer'], and nothing else.  Otherwise the
    dictionary it returns holds exactly the names of the rename table that
    the filter has, each under [namespace.name] with the value the filter
    gives it: a name the table does not list for this model type and
    featurizer is left out. *)
Theorem reformat_filter_dict_renames_listed_names (filter_dict : Dict.t pyval) :
  match reformat_filter_dict filter_dict with
  | Ok new_filter_dict =>
      exists renames,
        rename_dict filter_dict = Ok renames /\
        forall k v,
          Dict.get new_filter_dict k = Some v
          <-> exists p, In p (FilterSpec.flat renames)
                        /\ k = FilterSpec.path p
                        /\ Dict.get filter_dict (snd p) = Some v
  | Raise e =>
      e = KeyError /\
      (Dict.get filter_dict "model_type" = None
       \/ Dict.get filter_dict "featurizer" = None)
  end.
Proof.
  unfold reformat_filter_dict.
  destruct (rename_dict filter_dict) as [renames|e] eqn:E; cbn [rbind].
  - exists renames. split; [reflexivity|]. intros k v.
    rewrite FilterFacts.fold_flat.
    rewrite FilterFacts.renamed_entries.
    + simpl. split; [intros [H|H]; [discriminate|exact H]|auto].
    + eapply FilterFacts.rename_dict_distinct; eauto.
    + reflexivity.
  - unfold rename_dict, Dict.getitem in E.
    destruct (Dict.get filter_dict "model_type"); cbn [rbind] in E.
    + destruct (Dict.get filter_dict "featurizer"); cbn [rbind] in E;
        [discriminate|]. injection E as <-. auto.
    + injection E as <-. auto.
Qed.

(** ** The combinations of a subset *)

Module CombosFacts.

Import Builder.

Lemma product_In {A : Type} (pools : list (list A)) (tuple : list A) :
  In tuple (product pools) <-> Forall2 (fun x pool => In x pool) tuple pools.
Proof.
  revert tuple. induction pools as [|pool rest IH]; intros tuple; simpl.
  - split.
    + intros [<-|[]]. constructor.
    + intros H. inversion H. now left.
  - rewrite in_flat_map. split.
    + intros (x & Hx & Hin). apply in_map_iff in Hin.
      destruct Hin as (t & <- & Ht). constructor; [assumption|now apply IH].
    + intros H. inversion H as [|x t ? ? Hx Ht]; subst.
      exists x. split; [assumption|]. apply in_map. now apply IH.
Qed.

Lemma keys_app {V : Type} (d1 d2 : Dict.t V) :
  Dict.keys (d1 ++ d2) = Dict.keys d1 ++ Dict.keys d2.
Proof. apply map_app. Qed.

(** Distinct names zipped with a tuple: the pairs, in order. *)
Lemma of_zip_distinct {V : Type} (ks : list string) :
  forall (vs : list V) (d : Dict.t V),
    NoDup (Dict.keys d ++ ks) ->
    Dict.of_zip ks vs d = d ++ combine ks vs.
Proof.
  induction ks as [|k ks IH]; intros vs d Hnd; simpl.
  - now rewrite app_nil_r.
  - destruct vs as [|v vs]; [now rewrite app_nil_r|].
    rewrite DictFacts.set_fresh.
    + rewrite IH.
      * now rewrite <- app_assoc.
      * rewrite keys_app, <- app_assoc. exact Hnd.
    + apply NoDup_remove_2 in Hnd. intros Hin. apply Hnd.
      apply in_or_app. now left.
Qed.

Lemma combine_keys_values {V : Type} (d : Dict.t V) :
  combine (Dict.keys d) (Dict.values d) = d.
Proof. induction d as [|[k v] d IH]; simpl; congruence. Qed.

Lemma keys_combine {V : Type} (ks : list string) (vs : list V) :
  List.length ks = List.length vs -> Dict.keys (combine ks vs) = ks.
Proof.
  revert vs. induction ks as [|k ks IH]; intros [|v vs] H; simpl in *;
    try discriminate; [reflexivity|].
  f_equal. apply IH. congruence.
Qed.

Lemma values_combine {V : Type} (ks : list string) (vs : list V) :
  List.length ks = List.length vs -> Dict.values (combine ks vs) = vs.
Proof.
  revert vs. induction ks as [|k ks IH]; intros [|v vs] H; simpl in *;
    try discriminate; [reflexivity|].
  f_equal. apply IH. congruence.
Qed.

Lemma map_result_length {A B : Type} (f : A -> result B) :
  forall xs ys, map_result f xs = Ok ys -> List.length ys = List.length xs.
Proof.
  induction xs as [|x xs IH]; intros ys; simpl.
  - now intros [= <-].
  - destruct (f x); [|discriminate]. cbn [rbind].
    destruct (map_result f xs) as [ys'|]; [|discriminate]. cbn [rbind].
    intros [= <-]. simpl. f_equal. now apply IH.
Qed.

(** The combinations are the choices of one value per name. *)
Lemma combos_spec (strategy : SearchStrategy)
    (params_dict new_dict : Dict.t pyval) (pools : list (list pyval)) :
  generate_combo params_dict = Ok (Some new_dict) ->
  NoDup (Dict.keys new_dict) ->
  map_result py_iter (Dict.values new_dict) = Ok pools ->
  exists combos,
    generate_combos params_dict = Ok combos
    /\ forall combo,
         In combo combos
         <-> Dict.keys combo = Dict.keys new_dict
             /\ Forall2 (fun v pool => In v pool) (Dict.values combo) pools.
Proof.
  intros Hexpand Hnd Hpools. unfold generate_combos.
  rewrite Hexpand. cbn [rbind]. rewrite Hpools. cbn [rbind].
  eexists. split; [reflexivity|]. intros combo.
  assert (Hlen : List.length pools = List.length (Dict.keys new_dict)).
  { rewrite (map_result_length _ _ Hpools).
    unfold Dict.keys, Dict.values. now rewrite !length_map. }
  rewrite in_map_iff. split.
  - intros (tuple & <- & Htuple). apply product_In in Htuple.
    pose proof (Forall2_length Htuple) as Hl.
    rewrite of_zip_distinct by exact Hnd. simpl.
    rewrite keys_combine, values_combine by congruence.
    auto.
  - intros [Hkeys Hvals]. exists (Dict.values combo). split.
    + rewrite of_zip_distinct by exact Hnd. simpl.
      rewrite <- Hkeys. apply combine_keys_values.
    + now apply product_In.
Qed.

End CombosFacts.

Import Builder.

(** The combinations [generate_combos] returns are exactly the choices of
    one value for every name: when the strategy's dictionary has distinct
    names and values that can be iterated, a dictionary is among the
    combinations if and only if it has the names of the strategy's
    dictionary, in the same order, each with a value taken from what that
    name iterates to. *)
Theorem generate_combos_are_the_choices
    (strategy : SearchStrategy) (params_dict new_dict : Dict.t pyval)
    (pools : list (list pyval)) :
  generate_combo params_dict = Ok (Some new_dict) ->
  NoDup (Dict.keys new_dict) ->
  map_result py_iter (Dict.values new_dict) = Ok pools ->
  exists combos,
    generate_combos params_dict = Ok combos
    /\ forall combo,
         In combo combos
         <-> Dict.keys combo = Dict.keys new_dict
             /\ Forall2 (fun v pool => In v pool) (Dict.values combo) pools.
Proof. apply CombosFacts.combos_spec. Qed.

Lemma generate_combos_are_the_choices_witness :
  exists combos,
    @generate_combos Scenario.verbatim Scenario.rf_subset = Ok combos
    /\ forall combo,
         In combo combos
         <-> Dict.keys combo = Dict.keys Scenario.rf_subset
             /\ Forall2 (fun v pool => In v pool) (Dict.values combo)
                  [[PInt 100; PInt 200; PInt 300]; [PInt 4; PInt 8];
                   [PStr "RF"]; [PStr "ecfp"]].
Proof.
  apply (@generate_combos_are_the_choices Scenario.verbatim
           Scenario.rf_subset Scenario.rf_subset).
  - reflexivity.
  - apply NamesFacts.distinctb_NoDup. reflexivity.
  - reflexivity.
Defined.

(** ** The dictionaries of the search classes *)

Module StrategyFacts.

Import Strategies StrategySpec.

Lemma is_iterable_iter (v : pyval) :
  is_iterable v = true -> exists items, py_iter v = Ok items.
Proof. destruct v; try discriminate; simpl; eauto. Qed.

Lemma Forall2_snoc {A B : Type} (R : A -> B -> Prop) l1 l2 x y :
  Forall2 R l1 l2 -> R x y -> Forall2 R (l1 ++ [x]) (l2 ++ [y]).
Proof. intros H1 H2. apply Forall2_app; auto. Qed.

Lemma Forall2_keys {V W : Type} (R : string * V -> string * W -> Prop)
    (d : Dict.t V) (d' : Dict.t W) :
  (forall kv kv', R kv kv' -> fst kv' = fst kv) ->
  Forall2 R d d' -> Dict.keys d' = Dict.keys d.
Proof.
  intros HR H. induction H as [|kv kv' d d' Hkv _ IH]; simpl; [reflexivity|].
  f_equal; [now apply HR|exact IH].
Qed.

(** A loop that sets one fresh key per entry builds its dictionary entry
    by entry. *)
Lemma entrywise {St : Type} (dict_of : St -> Dict.t pyval)
    (R : string * pyval -> string * pyval -> Prop)
    (body : St -> string * pyval -> result St) :
  (forall kv kv', R kv kv' -> fst kv' = fst kv) ->
  (forall st kv st', body st kv = Ok st' ->
     exists v', dict_of st' = Dict.set (dict_of st) (fst kv) v'
                /\ R kv (fst kv, v')) ->
  forall entries st st' done,
    NoDup (Dict.keys done ++ Dict.keys entries) ->
    Forall2 R done (dict_of st) ->
    for_each body entries st = Ok st' ->
    Forall2 R (done ++ entries) (dict_of st').
Proof.
  intros HR Hbody. induction entries as [|kv entries IH];
    intros st st' done Hnd Hdone; simpl.
  - intros [= <-]. now rewrite app_nil_r.
  - destruct (body st kv) as [st1|e] eqn:E; [|discriminate]. intros Hrest.
    destruct (Hbody _ _ _ E) as (v' & Hset & Hkv).
    replace (done ++ kv :: entries) with ((done ++ [kv]) ++ entries)
      by (rewrite <- app_assoc; reflexivity).
    apply IH with (st := st1); [| |exact Hrest].
    + rewrite CombosFacts.keys_app, <- app_assoc. exact Hnd.
    + rewrite Hset, DictFacts.set_fresh.
      * now apply Forall2_snoc.
      * rewrite (Forall2_keys HR Hdone).
        simpl in Hnd. apply NoDup_remove_2 in Hnd.
        intros Hin. apply Hnd. apply in_or_app. now left.
Qed.

Section Sampled.

Variable convert_to_int : list string.
Variable py_int : pyval -> result pyval.
Variable sampler : nat -> pyval -> pyval -> pyval -> result (list pyval).

Local Abbreviation sampled_from :=
  (StrategySpec.sampled_from convert_to_int py_int sampler).

Lemma sampled_from_key kv kv' : sampled_from kv kv' -> fst kv' = fst kv.
Proof. destruct kv, kv'. simpl. tauto. Qed.

Lemma sampled_entry_sets st kv st' :
  sampled_entry convert_to_int py_int sampler st kv = Ok st' ->
  exists v', snd st' = Dict.set (snd st) (fst kv) v'
             /\ sampled_from kv (fst kv, v').
Proof.
  destruct st as [n new_dict], kv as [key value]. unfold sampled_entry.
  destruct (is_iterable value) eqn:Eiter; cbn [negb]; [|discriminate].
  cbn [fst snd StrategySpec.sampled_from].
  destruct (String.eqb_spec key "layers") as [Hl|Hl].
  - intros [= <-]. exists value.
    split; [reflexivity|]. split; [reflexivity|]. split; [exact Eiter|].
    left. auto.
  - destruct (py_index value 0) as [v0|e] eqn:E0; cbn [rbind]; [|discriminate].
    destruct (is_str v0) eqn:Estr; cbn [negb].
    + intros [= <-]. exists value.
      split; [reflexivity|]. split; [reflexivity|]. split; [exact Eiter|].
      right. split; [assumption|].
      exists v0. split; [reflexivity|]. left. auto.
    + destruct (py_index value 1) as [v1|e] eqn:E1; cbn [rbind];
        [|discriminate].
      destruct (py_index value 2) as [v2|e] eqn:E2; cbn [rbind];
        [|discriminate].
      destruct (sampler n v0 v1 v2) as [tmp_list|e] eqn:Es; cbn [rbind];
        [|discriminate].
      destruct (name_in key convert_to_int) eqn:Eint.
      * destruct (map_result py_int tmp_list) as [ints|e] eqn:Em;
          cbn [rbind]; [|discriminate].
        intros [= <-]. exists (PList ints).
        split; [reflexivity|]. split; [reflexivity|]. split; [exact Eiter|].
        right. split; [assumption|].
        exists v0. split; [reflexivity|]. right. split; [assumption|].
        exists n, v1, v2, tmp_list.
        split; [reflexivity|]. split; [reflexivity|]. split; [assumption|].
        exists ints. auto.
      * intros [= <-]. exists (PList tmp_list).
        split; [reflexivity|]. split; [reflexivity|]. split; [exact Eiter|].
        right. split; [assumption|].
        exists v0. split; [reflexivity|]. right. split; [assumption|].
        exists n, v1, v2, tmp_list.
        split; [reflexivity|]. split; [reflexivity|]. split; [assumption|].
        reflexivity.
Qed.

Lemma sampled_from_iterable kv kv' :
  sampled_from kv kv' -> is_iterable (snd kv') = true.
Proof.
  destruct kv as [key value], kv' as [key' v']. simpl.
  intros (_ & Hiter & [(_ & ->)|(_ & v0 & _ & [(_ & ->)|(_ & H)])]); auto.
  destruct H as (i & v1 & v2 & tmp_list & _ & _ & _ & H).
  destruct (name_in key convert_to_int).
  - now destruct H as (ints & _ & ->).
  - now subst.
Qed.

End Sampled.

Section User.

Variable convert_to_int convert_to_float : list string.
Variable py_int py_float : pyval -> result pyval.

Local Abbreviation converted_from :=
  (StrategySpec.converted_from convert_to_int convert_to_float py_int py_float).

Lemma converted_from_key kv kv' : converted_from kv kv' -> fst kv' = fst kv.
Proof. destruct kv, kv'. simpl. tauto. Qed.

Lemma user_entry_sets new_dict kv new_dict' :
  user_entry convert_to_int convert_to_float py_int py_float new_dict kv
  = Ok new_dict' ->
  exists v', new_dict' = Dict.set new_dict (fst kv) v'
             /\ converted_from kv (fst kv, v').
Proof.
  destruct kv as [key value]. unfold user_entry, StrategySpec.converted_from.
  destruct (is_iterable value) eqn:Eiter; cbn [negb]; [|discriminate].
  cbn [fst].
  destruct (String.eqb key "layers").
  - intros [= <-]. exists value. auto.
  - destruct (name_in key convert_to_int).
    + destruct (py_iter value) as [items|e] eqn:Ei; cbn [rbind];
        [|discriminate].
      destruct (map_result py_int items) as [ints|e] eqn:Em; cbn [rbind];
        [|discriminate].
      intros [= <-]. exists (PList ints). eauto 8.
    + destruct (name_in key convert_to_float).
      * destruct (py_iter value) as [items|e] eqn:Ei; cbn [rbind];
          [|discriminate].
        destruct (map_result py_float items) as [floats|e] eqn:Em;
          cbn [rbind]; [|discriminate].
        intros [= <-]. exists (PList floats). eauto 8.
      * intros [= <-]. exists value. auto.
Qed.

Lemma converted_from_iterable kv kv' :
  converted_from kv kv' -> is_iterable (snd kv') = true.
Proof.
  destruct kv as [key value], kv' as [key' v']. simpl.
  intros (_ & Hiter & H).
  destruct (String.eqb key "layers"); [now subst|].
  destruct (name_in key convert_to_int);
    [now destruct H as (? & ? & _ & _ & ->)|].
  destruct (name_in key convert_to_float);
    [now destruct H as (? & ? & _ & _ & ->)|now subst].
Qed.

End User.

(** Values that can be iterated make [generate_combos] return. *)
Lemma iterable_values (R : string * pyval -> string * pyval -> Prop)
    (d d' : Dict.t pyval) :
  (forall kv kv', R kv kv' -> is_iterable (snd kv') = true) ->
  Forall2 R d d' ->
  exists pools, map_result py_iter (Dict.values d') = Ok pools.
Proof.
  intros HR H. unfold Dict.values.
  induction H as [|kv kv' d d' Hkv _ (pools & IH)]; cbn [map map_result].
  - eauto.
  - destruct (is_iterable_iter _ (HR _ _ Hkv)) as (items & ->).
    cbn [rbind]. rewrite IH. cbn [rbind]. eauto.
Qed.

(** The sampled classes write their dictionary entry by entry. *)
Lemma sampled_entrywise convert_to_int py_int sampler
    (params_dict new_dict : Dict.t pyval) :
  NoDup (Dict.keys params_dict) ->
  sampled_generate_combo convert_to_int py_int sampler params_dict
  = Ok (Some new_dict) ->
  Dict.keys new_dict = Dict.keys params_dict
  /\ Forall2 (StrategySpec.sampled_from convert_to_int py_int sampler)
       params_dict new_dict.
Proof.
  intros Hnd H.
  assert (Hall : Forall2 (StrategySpec.sampled_from convert_to_int py_int sampler)
                   params_dict new_dict).
  { assert (Hloop : exists st,
              for_each (sampled_entry convert_to_int py_int sampler)
                params_dict (O, Dict.empty) = Ok st /\ snd st = new_dict).
    { clear Hnd. unfold sampled_generate_combo in H.
      destruct params_dict as [|kv rest]; [discriminate|].
      destruct (for_each _ (kv :: rest) _) as [st|e]; [|discriminate].
      injection H as <-. eauto. }
    destruct Hloop as (st & E & <-).
    apply (@entrywise _ snd
             (StrategySpec.sampled_from convert_to_int py_int sampler)
             (sampled_entry convert_to_int py_int sampler))
      with (entries := params_dict) (st := (O, Dict.empty)) (done := []).
    - apply sampled_from_key.
    - apply sampled_entry_sets.
    - exact Hnd.
    - constructor.
    - exact E. }
  split; [|exact Hall].
  eapply Forall2_keys; [|exact Hall]. apply sampled_from_key.
Qed.

(** So does [UserSpecifiedSearch]. *)
Lemma user_entrywise convert_to_int convert_to_float py_int py_float
    (params_dict new_dict : Dict.t pyval) :
  NoDup (Dict.keys params_dict) ->
  user_generate_combo convert_to_int convert_to_float py_int py_float
    params_dict = Ok (Some new_dict) ->
  Dict.keys new_dict = Dict.keys params_dict
  /\ Forall2 (StrategySpec.converted_from convert_to_int convert_to_float
                py_int py_float) params_dict new_dict.
Proof.
  intros Hnd H.
  assert (Hall : Forall2 (StrategySpec.converted_from convert_to_int
                            convert_to_float py_int py_float)
                   params_dict new_dict).
  { assert (Hloop :
              for_each (user_entry convert_to_int convert_to_float py_int
                          py_float) params_dict Dict.empty = Ok new_dict).
    { clear Hnd. unfold user_generate_combo in H.
      destruct params_dict as [|kv rest]; [discriminate|].
      destruct (for_each _ (kv :: rest) _) as [st|e]; [|discriminate].
      now injection H as <-. }
    apply (@entrywise _ (fun d => d)
             (StrategySpec.converted_from convert_to_int convert_to_float
                py_int py_float)
             (user_entry convert_to_int convert_to_float py_int py_float))
      with (entries := params_dict) (st := Dict.empty) (done := []).
    - apply converted_from_key.
    - apply user_entry_sets.
    - exact Hnd.
    - constructor.
    - exact Hloop. }
  split; [|exact Hall].
  eapply Forall2_keys; [|exact Hall]. apply converted_from_key.
Qed.

End StrategyFacts.

Import Strategies.

(** What [GridSearch], [RandomSearch] and [GeometricSearch] return for a
    dictionary of distinct names: a dictionary with the same names in the
    same order; under ['layers'], and wherever the value starts with a
    string, the value as it was; elsewhere the samples of the range, passed
    through [int] for a key of [convert_to_int].  Every value of it can be
    iterated, so [generate_combos] returns its combinations. *)
Theorem sampled_classes_expand_entry_by_entry
    (convert_to_int : list string) (py_int : pyval -> result pyval)
    (sampler : nat -> pyval -> pyval -> pyval -> result (list pyval))
    (params_dict new_dict : Dict.t pyval) :
  NoDup (Dict.keys params_dict) ->
  sampled_generate_combo convert_to_int py_int sampler params_dict
  = Ok (Some new_dict) ->
  Dict.keys new_dict = Dict.keys params_dict
  /\ Forall2 (StrategySpec.sampled_from convert_to_int py_int sampler)
       params_dict new_dict
  /\ exists combos,
       @Builder.generate_combos
         {| generate_combo :=
              sampled_generate_combo convert_to_int py_int sampler |}
         params_dict = Ok combos.
Proof.
  intros Hnd H.
  destruct (@StrategyFacts.sampled_entrywise _ _ _ _ _ Hnd H) as [Hkeys Hall].
  split; [exact Hkeys|]. split; [exact Hall|].
  destruct (StrategyFacts.iterable_values
              (@StrategyFacts.sampled_from_iterable convert_to_int py_int sampler)
              Hall) as (pools & Hpools).
  unfold Builder.generate_combos. cbn [generate_combo]. rewrite H.
  cbn [rbind]. rewrite Hpools. cbn [rbind]. eauto.
Qed.

Lemma sampled_classes_expand_entry_by_entry_witness :
  let params_dict :=
    [("learning_rate"%string, PList [PFloat 0.125; PFloat 0.5; PInt 4]);
     ("model_type"%string, PList [PStr "NN"]);
     ("featurizer"%string, PList [PStr "ecfp"])] in
  let new_dict :=
    [("learning_rate"%string,
      PList [PFloat 0.125; PFloat 0.25; PFloat 0.375; PFloat 0.5]);
     ("model_type"%string, PList [PStr "NN"]);
     ("featurizer"%string, PList [PStr "ecfp"])] in
  Dict.keys new_dict = Dict.keys params_dict
  /\ Forall2 (StrategySpec.sampled_from [] Ok (fun _ => Scenario.np_linspace))
       params_dict new_dict
  /\ exists combos,
       @Builder.generate_combos
         {| generate_combo :=
              sampled_generate_combo [] Ok (fun _ => Scenario.np_linspace) |}
         params_dict = Ok combos.
Proof.
  apply (@sampled_classes_expand_entry_by_entry [] Ok
           (fun _ => Scenario.np_linspace)).
  - apply NamesFacts.distinctb_NoDup. reflexivity.
  - vm_compute. reflexivity.
Defined.

(** What [UserSpecifiedSearch] returns for a dictionary of distinct names:
    a dictionary with the same names in the same order; under ['layers'],
    and for a key in neither conversion list, the value as it was; for a
    key of [convert_to_int] or [convert_to_float] the items of the value,
    each passed through [int] or [float].  Every value of it can be
    iterated, so [generate_combos] returns its combinations. *)
Theorem user_specified_converts_entry_by_entry
    (convert_to_int convert_to_float : list string)
    (py_int py_float : pyval -> result pyval)
    (params_dict new_dict : Dict.t pyval) :
  NoDup (Dict.keys params_dict) ->
  user_generate_combo convert_to_int convert_to_float py_int py_float
    params_dict = Ok (Some new_dict) ->
  Dict.keys new_dict = Dict.keys params_dict
  /\ Forall2 (StrategySpec.converted_from convert_to_int convert_to_float
                py_int py_float) params_dict new_dict
  /\ exists combos,
       @Builder.generate_combos
         (UserSpecifiedSearch convert_to_int convert_to_float py_int py_float)
         params_dict = Ok combos.
Proof.
  intros Hnd H.
  destruct (@StrategyFacts.user_entrywise _ _ _ _ _ _ Hnd H) as [Hkeys Hall].
  split; [exact Hkeys|]. split; [exact Hall|].
  destruct (StrategyFacts.iterable_values
              (@StrategyFacts.converted_from_iterable convert_to_int
                 convert_to_float py_int py_float)
              Hall) as (pools & Hpools).
  unfold Builder.generate_combos, UserSpecifiedSearch. cbn [generate_combo].
  rewrite H. cbn [rbind]. rewrite Hpools. cbn [rbind]. eauto.
Qed.

Lemma user_specified_converts_entry_by_entry_witness :
  Dict.keys Scenario.rf_subset = Dict.keys Scenario.rf_subset
  /\ Forall2 (StrategySpec.converted_from [] [] Ok Ok)
       Scenario.rf_subset Scenario.rf_subset
  /\ exists combos,
       @Builder.generate_combos (UserSpecifiedSearch [] [] Ok Ok)
         Scenario.rf_subset = Ok combos.
Proof.
  apply (@user_specified_converts_entry_by_entry [] [] Ok Ok).
  - apply NamesFacts.distinctb_NoDup. reflexivity.
  - reflexivity.
Defined.

(** ** More on dictionaries *)

Module DictMore.

Lemma set_keys_In {V : Type} (d : Dict.t V) (k k' : string) (v : V) :
  In k' (Dict.keys (Dict.set d k v)) <-> k' = k \/ In k' (Dict.keys d).
Proof.
  induction d as [|[k0 v0] d IH]; simpl.
  - intuition.
  - destruct (String.eqb_spec k k0) as [->|Hk]; simpl.
    + intuition.
    + rewrite IH. intuition.
Qed.

Lemma set_keys_NoDup {V : Type} (d : Dict.t V) (k : string) (v : V) :
  NoDup (Dict.keys d) -> NoDup (Dict.keys (Dict.set d k v)).
Proof.
  induction d as [|[k0 v0] d IH]; simpl; intros H.
  - repeat constructor. auto.
  - inversion H as [|? ? Hk0 Hd]; subst.
    destruct (String.eqb_spec k k0) as [->|Hk]; simpl.
    + now constructor.
    + constructor; [|auto]. rewrite set_keys_In. intros [E|E]; congruence.
Qed.

Lemma get_In {V : Type} (d : Dict.t V) (k : string) (v : V) :
  NoDup (Dict.keys d) -> In (k, v) d -> Dict.get d k = Some v.
Proof.
  induction d as [|[k0 v0] d IH]; simpl; intros Hnd Hin; [contradiction|].
  inversion Hnd as [|? ? Hk0 Hd]; subst.
  destruct Hin as [[= -> ->]|Hin].
  - now rewrite String.eqb_refl.
  - destruct (String.eqb_spec k k0) as [->|Hk]; [|auto].
    exfalso. apply Hk0. apply (in_map fst) in Hin. exact Hin.
Qed.

Lemma get_Some_In {V : Type} (d : Dict.t V) (k : string) (v : V) :
  Dict.get d k = Some v -> In (k, v) d.
Proof.
  induction d as [|[k0 v0] d IH]; simpl; [discriminate|].
  destruct (String.eqb_spec k k0) as [->|Hk].
  - intros [= ->]. now left.
  - intros H. right. auto.
Qed.

Lemma filter_keys_NoDup {V : Type} (P : string * V -> bool) (d : Dict.t V) :
  NoDup (Dict.keys d) -> NoDup (Dict.keys (filter P d)).
Proof.
  induction d as [|kv d IH]; simpl; intros H; [constructor|].
  inversion H as [|? ? Hk Hd]; subst.
  destruct (P kv); simpl; [|auto].
  constructor; [|auto]. intros Hin. apply Hk.
  unfold Dict.keys in *. apply in_map_iff in Hin.
  destruct Hin as (kv' & E & Hin). apply filter_In in Hin.
  rewrite <- E. apply in_map. tauto.
Qed.

Lemma filter_keys_In {V : Type} (P : string * V -> bool) (d : Dict.t V) k :
  In k (Dict.keys (filter P d)) ->
  exists v, In (k, v) d /\ P (k, v) = true.
Proof.
  unfold Dict.keys. rewrite in_map_iff. intros ([k' v] & E & Hin).
  apply filter_In in Hin. simpl in E. subst. eauto.
Qed.

End DictMore.

(** ** The subsets of the search space *)

Module SubsetFacts.

Import Builder SubsetSpec.

(** The value chosen under a name whose pool has one value. *)
Lemma chosen_singleton (k : string) (x : pyval) :
  forall (new_dict combo : Dict.t pyval) (pools : list (list pyval)),
    map_result py_iter (Dict.values new_dict) = Ok pools ->
    Dict.keys combo = Dict.keys new_dict ->
    Forall2 (fun v pool => In v pool) (Dict.values combo) pools ->
    In (k, PList [x]) new_dict -> In (k, x) combo.
Proof.
  induction new_dict as [|[k0 v0] new_dict IH]; intros combo pools Hpools Hkeys Hvals Hin;
    [contradiction|].
  destruct combo as [|[k1 v1] combo]; [discriminate|].
  simpl in Hkeys. injection Hkeys as -> Hkeys.
  cbn [Dict.values map map_result snd] in Hpools.
  destruct (py_iter v0) as [items|e] eqn:Eit; [|discriminate].
  cbn [rbind] in Hpools.
  destruct (map_result py_iter (map snd new_dict)) as [pools'|e] eqn:Ep;
    [|discriminate].
  cbn [rbind] in Hpools. injection Hpools as <-.
  cbn [Dict.values map snd] in Hvals. inversion Hvals as [|? ? ? ? Hv1 Hrest]; subst.
  destruct Hin as [E|Hin].
  - injection E as -> ->. simpl in Eit. injection Eit as <-.
    destruct Hv1 as [->|[]]. now left.
  - right. eapply IH; eauto.
Qed.

Lemma generate_combos_inv (strategy : SearchStrategy) params_dict combos :
  generate_combos params_dict = Ok combos ->
  exists new_dict pools,
    generate_combo params_dict = Ok (Some new_dict)
    /\ map_result py_iter (Dict.values new_dict) = Ok pools.
Proof.
  unfold generate_combos.
  destruct (generate_combo params_dict) as [[new_dict|]|e]; cbn [rbind];
    try discriminate.
  destruct (map_result py_iter (Dict.values new_dict)) as [pools|e] eqn:Ep;
    cbn [rbind]; [|discriminate].
  intros _. exists new_dict, pools. split; [reflexivity|exact Ep].
Qed.

Section WithStrategy.

Context {strategy : SearchStrategy}.
Hypothesis kept : keeps_singletons ["model_type"; "featurizer"]%string strategy.

Lemma subcombo_keys_NoDup s others1 others2 model_type featurizer :
  NoDup (Dict.keys (hyperparams s)) ->
  NoDup (Dict.keys (subcombo s others1 others2 model_type featurizer)).
Proof.
  intros H. unfold subcombo, swept_hyperparams.
  now apply DictMore.set_keys_NoDup, DictMore.set_keys_NoDup,
    DictMore.filter_keys_NoDup.
Qed.

Lemma names_minus_spec k a b :
  name_in k (names_minus a b) = true -> name_in k b = false.
Proof.
  rewrite NamesFacts.name_in_spec. unfold names_minus. rewrite filter_In.
  intros [_ H]. now destruct (name_in k b).
Qed.

Lemma names_minus_sub k a b :
  name_in k (names_minus a b) = true -> name_in k a = true.
Proof.
  rewrite !NamesFacts.name_in_spec. unfold names_minus. rewrite filter_In.
  tauto.
Qed.

Lemma name_in_app k a b :
  name_in k (a ++ b) = name_in k a || name_in k b.
Proof. unfold name_in. apply existsb_app. Qed.

(** The combinations of one subset carry the model type and the
    featurizer of the subset, and no key of the two excluded sets. *)
Lemma subset_combos s others1 others2 model_type featurizer combos :
  name_in "model_type" (others1 ++ others2) = false ->
  name_in "featurizer" (others1 ++ others2) = false ->
  NoDup (Dict.keys (hyperparams s)) ->
  generate_combos (subcombo s others1 others2 model_type featurizer)
  = Ok combos ->
  forall combo, In combo combos ->
    Dict.get combo "model_type" = Some model_type
    /\ Dict.get combo "featurizer" = Some featurizer
    /\ Forall (fun k => name_in k (others1 ++ others2) = false)
         (Dict.keys combo).
Proof.
  intros Hm Hf Hnd Hrun combo Hin.
  pose proof (@subcombo_keys_NoDup s others1 others2 model_type featurizer Hnd)
    as Hsub.
  destruct (@generate_combos_inv strategy _ _ Hrun) as (new_dict & pools & Hexp & Hpools).
  destruct (@kept _ _ Hsub Hexp) as [Hkeys Hsingle].
  assert (Hnd' : NoDup (Dict.keys new_dict)) by now rewrite Hkeys.
  destruct (@CombosFacts.combos_spec strategy _ _ _ Hexp Hnd' Hpools) as (combos' & Hrun' & Hspec).
  rewrite Hrun in Hrun'. injection Hrun' as <-.
  apply Hspec in Hin. destruct Hin as [Hck Hcv].
  assert (Hcnd : NoDup (Dict.keys combo)) by now rewrite Hck.
  split; [|split].
  - apply DictMore.get_In; [assumption|].
    apply chosen_singleton with (new_dict := new_dict) (pools := pools);
      auto.
    apply DictMore.get_Some_In, Hsingle; [now left|].
    unfold subcombo. rewrite DictFacts.get_set_other by discriminate.
    apply DictFacts.get_set_same.
  - apply DictMore.get_In; [assumption|].
    apply chosen_singleton with (new_dict := new_dict) (pools := pools);
      auto.
    apply DictMore.get_Some_In, Hsingle; [right; now left|].
    unfold subcombo. apply DictFacts.get_set_same.
  - rewrite Hck, Hkeys. apply Forall_forall. intros k Hk.
    unfold subcombo in Hk.
    apply DictMore.set_keys_In in Hk. destruct Hk as [->|Hk]; [exact Hf|].
    apply DictMore.set_keys_In in Hk. destruct Hk as [->|Hk]; [exact Hm|].
    unfold swept_hyperparams in Hk.
    apply DictMore.filter_keys_In in Hk. destruct Hk as (v & _ & Hallowed).
    cbn [fst] in Hallowed. rewrite name_in_app.
    rewrite (@names_minus_spec _ _ _ Hallowed).
    apply names_minus_sub in Hallowed.
    rewrite (@names_minus_spec _ _ _ Hallowed). reflexivity.
Qed.

Lemma add_subset_fitting skip others1 others2 (m : string) s featurizer s' :
  In m ["NN"; "RF"; "xgboost"]%string ->
  foreign_keys m = others1 ++ others2 ->
  (m <> "NN"%string -> skip = true) ->
  fitting s ->
  add_subset skip others1 others2 (PStr m) s featurizer = Ok s' ->
  fitting s'.
Proof.
  intros Hm Hforeign Hskip [Hnd Hall]. unfold add_subset.
  destruct (skip && eq_str featurizer "graphconv") eqn:Eskip.
  - intros [= <-]. now split.
  - destruct (generate_combos _) as [combos|e] eqn:Erun; cbn [rbind];
      [|discriminate].
    intros [= <-]. split; [exact Hnd|]. cbn [param_combos extend_param_combos].
    apply Forall_app. split; [exact Hall|].
    apply Forall_forall. intros combo Hin.
    destruct (@subset_combos s others1 others2 (PStr m) featurizer combos)
      with (4 := Erun) (5 := Hin) as (Hgm & Hgf & Hkeys); auto.
    + rewrite <- Hforeign.
      destruct Hm as [<-|[<-|[<-|[]]]]; reflexivity.
    + rewrite <- Hforeign.
      destruct Hm as [<-|[<-|[<-|[]]]]; reflexivity.
    + exists m, featurizer. repeat split; auto.
      * intros Hne. rewrite (Hskip Hne) in Eskip. exact Eskip.
      * now rewrite Hforeign.
Qed.

Lemma add_model_type_fitting s model_type s' :
  fitting s -> add_model_type s model_type = Ok s' -> fitting s'.
Proof.
  intros Hs. unfold add_model_type.
  destruct model_type as [| | | |m| |]; cbn [eq_str]; try (now intros [= <-]).
  destruct (String.eqb_spec m "NN") as [->|HNN];
    [|destruct (String.eqb_spec m "RF") as [->|HRF];
      [|destruct (String.eqb_spec m "xgboost") as [->|HX];
        [|now intros [= <-]]]];
    (destruct (attribute s "featurizer") as [fs|e]; cbn [rbind];
       [|discriminate]);
    (destruct (py_iter fs) as [featurizers|e]; cbn [rbind]; [|discriminate]);
    (apply for_each_invariant with (P := fitting) (Q := fun _ : pyval => True);
       [| apply Forall_forall; auto | exact Hs]);
    intros s0 f s1 Hs0 _; apply add_subset_fitting; auto;
    simpl; try tauto; congruence.
Qed.

Lemma classify_param_fitting s kv s' :
  fitting s -> classify_param s kv = Ok s' -> fitting s'.
Proof.
  intros [Hnd Hall]. destruct kv as [key value]. unfold classify_param.
  destruct (negb (truthy value) || name_in key excluded_keys);
    [now intros [= <-]|].
  destruct (String.eqb key "result_dir" || String.eqb key "output_dir").
  - destruct value; try discriminate. now intros [= <-].
  - destruct (if name_in key hyperparam_layers
              then (do first <- py_index value 0; Ok (is_list first))%result
              else Ok false) as [layered|e]; cbn [rbind]; [|discriminate].
    destruct layered; [now intros [= <-]|].
    destruct (name_in key (hyperparam_keys s)); [|now intros [= <-]].
    destruct (negb (is_list value)); [now intros [= <-]|].
    destruct (py_len value) as [n|e]; cbn [rbind]; [|discriminate].
    destruct (Nat.eqb n 1).
    + destruct (py_index value 0); cbn [rbind]; [|discriminate].
      now intros [= <-].
    + intros [= <-]. split; [|exact Hall].
      now apply DictMore.set_keys_NoDup.
Qed.

Lemma listify_fitting name s s' :
  fitting s -> listify name s = Ok s' -> fitting s'.
Proof.
  intros Hs. unfold listify.
  destruct (attribute s name) as [v|e]; cbn [rbind]; [|discriminate].
  destruct (is_str v); now intros [= <-].
Qed.

Lemma assemble_layers_fitting s s' :
  fitting s -> assemble_layers s = Ok s' -> fitting s'.
Proof.
  intros [Hnd Hall]. unfold assemble_layers.
  destruct (layer_bundles (layers s)) as [tmp_list|e]; cbn [rbind];
    [|discriminate].
  intros [= <-]. split; [|exact Hall].
  now apply DictMore.set_keys_NoDup.
Qed.

Lemma generate_param_combos_fitting s s' :
  fitting s -> generate_param_combos s = Ok s' -> fitting s'.
Proof.
  intros Hs. unfold generate_param_combos.
  destruct (for_each classify_param (params s) s) as [s1|e] eqn:E1;
    cbn [rbind]; [|discriminate].
  assert (H1 : fitting s1).
  { revert E1. apply for_each_invariant
      with (P := fitting) (Q := fun _ : string * pyval => True);
      [| apply Forall_forall; auto | exact Hs].
    intros s0 kv s0' H0 _. now apply classify_param_fitting. }
  destruct (match layers s1 with [] => Ok s1 | _ => assemble_layers s1 end)
    as [s2|e] eqn:E2; cbn [rbind]; [|discriminate].
  assert (H2 : fitting s2).
  { destruct (layers s1); [now injection E2 as <-|].
    eapply assemble_layers_fitting; eauto. }
  destruct (listify "model_type" s2) as [s3|e] eqn:E3; cbn [rbind];
    [|discriminate].
  pose proof (@listify_fitting _ _ _ H2 E3) as H3.
  destruct (listify "featurizer" s3) as [s4|e] eqn:E4; cbn [rbind];
    [|discriminate].
  pose proof (@listify_fitting _ _ _ H3 E4) as H4.
  destruct (attribute s4 "model_type") as [ms|e]; cbn [rbind]; [|discriminate].
  destruct (py_iter ms) as [model_types|e]; cbn [rbind]; [|discriminate].
  apply for_each_invariant with (P := fitting) (Q := fun _ : pyval => True);
    [| apply Forall_forall; auto | exact H4].
  intros s0 m s0' H0 _. now apply add_model_type_fitting.
Qed.

End WithStrategy.

Lemma Forall2_In_l {A B : Type} (R : A -> B -> Prop) l l' x :
  Forall2 R l l' -> In x l -> exists y, In y l' /\ R x y.
Proof.
  intros H. induction H as [|a b l l' Hab _ IH]; simpl; [contradiction|].
  intros [<-|Hin]; [eauto|]. destruct (IH Hin) as (y & Hy & Hr). eauto.
Qed.

(** The sampled classes keep a list of one value under every name: a
    range of one value has no second index to sample from. *)
Lemma sampled_keeps_singletons names convert_to_int py_int sampler :
  keeps_singletons names
    {| generate_combo :=
         Strategies.sampled_generate_combo convert_to_int py_int sampler |}.
Proof.
  intros d d' Hnd H. cbn [generate_combo] in H.
  destruct (@StrategyFacts.sampled_entrywise _ _ _ _ _ Hnd H) as [Hkeys Hall].
  split; [exact Hkeys|]. intros k v _ Hget.
  apply DictMore.get_In; [now rewrite Hkeys|].
  apply DictMore.get_Some_In in Hget.
  destruct (@Forall2_In_l _ _ _ _ _ _ Hall Hget) as ([k' v'] & Hin' & Hrel).
  destruct Hrel as (-> & _ & [(_ & ->)|(_ & v0 & _ & [(_ & ->)|(_ & Hs)])]);
    try assumption.
  destruct Hs as (i & v1 & v2 & tmp_list & H1 & _). discriminate H1.
Qed.

(** [UserSpecifiedSearch] keeps every value under a name that is in
    neither conversion list. *)
Lemma user_keeps_singletons names convert_to_int convert_to_float py_int py_float :
  Forall (fun k => name_in k (convert_to_int ++ convert_to_float) = false)
    names ->
  keeps_singletons names
    (Strategies.UserSpecifiedSearch convert_to_int convert_to_float
       py_int py_float).
Proof.
  intros Hnames d d' Hnd H.
  unfold Strategies.UserSpecifiedSearch in H. cbn [generate_combo] in H.
  destruct (@StrategyFacts.user_entrywise _ _ _ _ _ _ Hnd H) as [Hkeys Hall].
  split; [exact Hkeys|]. intros k v Hk Hget.
  apply DictMore.get_In; [now rewrite Hkeys|].
  apply DictMore.get_Some_In in Hget.
  destruct (@Forall2_In_l _ _ _ _ _ _ Hall Hget) as ([k' v'] & Hin' & Hrel).
  rewrite Forall_forall in Hnames. specialize (Hnames k Hk).
  rewrite name_in_app in Hnames. apply orb_false_iff in Hnames.
  destruct Hnames as [Hi Hf].
  cbn [StrategySpec.converted_from] in Hrel. rewrite Hi, Hf in Hrel.
  destruct Hrel as (-> & _ & Hv).
  destruct (String.eqb k "layers"); now subst.
Qed.

End SubsetFacts.

Import Builder.

(** Every candidate [generate_param_combos] makes fits its model type,
    for a strategy that keeps the names of a subset and the one-value
    lists of the model type and the featurizer: the candidate names one of
    ['NN'], ['RF'], ['xgboost'] and a featurizer, ['graphconv'] goes with
    ['NN'] only, and no key specific to another model type is among its
    keys (no learning rate or layers on a random forest). *)
Theorem param_combos_fit_their_model_type
    (strategy : SearchStrategy) (params : Dict.t pyval) (uuid : string)
    (s : search) :
  SubsetSpec.keeps_singletons ["model_type"; "featurizer"]%string strategy ->
  generate_param_combos (init params uuid) = Ok s ->
  Forall SubsetSpec.fits (param_combos s).
Proof.
  intros Hkept Hrun.
  apply (@SubsetFacts.generate_param_combos_fitting strategy Hkept) in Hrun.
  - now destruct Hrun.
  - split; constructor.
Qed.

Lemma param_combos_fit_their_model_type_witness :
  exists s,
    @generate_param_combos Scenario.verbatim
      (init Scenario.two_kinds_config "run") = Ok s
    /\ Forall SubsetSpec.fits (param_combos s).
Proof.
  eexists. split; [vm_compute; reflexivity|].
  apply (@param_combos_fit_their_model_type Scenario.verbatim
           Scenario.two_kinds_config "run").
  - apply SubsetFacts.user_keeps_singletons. repeat constructor.
  - vm_compute. reflexivity.
Defined.


(** ** The duplicate check *)

Module AuditFacts.

Import Dispatch Trace Audit.

Lemma last_query_app last evs1 evs2 :
  last_query last (evs1 ++ evs2) = last_query (last_query last evs1) evs2.
Proof.
  revert last. induction evs1 as [|e evs1 IH]; intros last; [reflexivity|].
  destruct e; simpl; apply IH.
Qed.

Lemma checked_app last evs1 evs2 :
  checked last (evs1 ++ evs2)
  <-> checked last evs1 /\ checked (last_query last evs1) evs2.
Proof.
  revert last. induction evs1 as [|e evs1 IH]; intros last; simpl.
  - tauto.
  - destruct e; simpl; rewrite ?IH; tauto.
Qed.

Lemma always_checked_nil : always_checked [].
Proof. intros last. exact I. Qed.

Lemma always_checked_app evs1 evs2 :
  always_checked evs1 -> always_checked evs2 -> always_checked (evs1 ++ evs2).
Proof. intros H1 H2 last. apply checked_app. split; [apply H1|apply H2]. Qed.

Lemma quiet_always_checked evs : quiet evs -> always_checked evs.
Proof.
  induction evs as [|e evs IH]; intros Hq last; [exact I|].
  inversion Hq as [|? ? He Hq']; subst.
  destruct e; simpl in *; try discriminate; now apply IH.
Qed.

Lemma passive_quiet evs : Forall (fun e => passive e = true) evs -> quiet evs.
Proof.
  apply Forall_impl. intros e. now destruct e.
Qed.

Lemma passive_last_query evs last :
  Forall (fun e => passive e = true) evs -> last_query last evs = last.
Proof.
  induction 1 as [|e evs He _ IH]; [reflexivity|].
  destruct e; simpl in *; try discriminate; exact IH.
Qed.

Lemma queue_wait_passive max_jobs polls :
  Forall (fun e => passive e = true) (snd (queue_wait max_jobs polls)).
Proof.
  induction polls as [|i polls IH]; simpl; [constructor|].
  destruct (i >=? max_jobs).
  - destruct (queue_wait max_jobs polls) as [r evs]. simpl in *.
    repeat (constructor; [reflexivity|]). exact IH.
  - repeat constructor.
Qed.

Lemma del_set {V : Type} (d : Dict.t V) (k : string) (v : V) :
  Dict.del (Dict.set d k v) k = Dict.del d k.
Proof.
  induction d as [|[k0 v0] d IH]; simpl.
  - now rewrite String.eqb_refl.
  - destruct (String.eqb k k0) eqn:E; simpl; rewrite E; [reflexivity|].
    now rewrite IH.
Qed.

(** The result directory is no part of the filter. *)
Lemma filter_of_result_dir assay_params v :
  filter_of (Dict.set assay_params "result_dir" v) = filter_of assay_params.
Proof.
  unfold filter_of, volatile_keys. cbn [fold_left]. now rewrite del_set.
Qed.

Section Services.

Variable get_keyval : nat -> pyval -> pyval -> result pyval.
Variable get_metadata : nat -> Dict.t pyval -> pyval -> result (list pyval).
Variable uuid4 : nat -> string.
Variable scaled_ge : Z -> pyval -> result bool.

Lemma query_tracker_run filter_dict assay_params collection_name w :
  Dict.get assay_params "collection_name" = Some collection_name ->
  query_tracker get_metadata filter_dict assay_params w
  = call_get_metadata get_metadata filter_dict collection_name w.
Proof.
  intros Hc. unfold query_tracker, bind, Dict.getitem. now rewrite Hc.
Qed.

Lemma call_get_metadata_run filter_dict collection_name w :
  exists w',
    trace w' = trace w ++ [GetMetadata filter_dict collection_name]
    /\ ((exists models,
           call_get_metadata get_metadata filter_dict collection_name w
           = Done models w')
        \/ (exists e,
              call_get_metadata get_metadata filter_dict collection_name w
              = Raised e w')).
Proof.
  unfold call_get_metadata.
  destruct (get_metadata (tracker_calls w) filter_dict collection_name);
    eexists; (split; [|eauto]); reflexivity.
Qed.

(** The retry loop around the query of a candidate that names its
    collection always returns, and has asked at least once. *)
Lemma retry_query filter_dict assay_params collection_name :
  Dict.get assay_params "collection_name" = Some collection_name ->
  forall left w,
    exists r w1 evs,
      retry_loop (query_tracker get_metadata filter_dict assay_params)
        (fun _ => ret tt) left w = Done r w1
      /\ trace w1 = trace w ++ evs
      /\ forall last, last_query last evs = Some (filter_dict, collection_name).
Proof.
  intros Hc. induction left as [|left IH]; intros w.
  - cbn [retry_loop]. unfold bind, try_except.
    rewrite (query_tracker_run _ _ _ Hc).
    destruct (call_get_metadata_run filter_dict collection_name w)
      as (w' & Htrace & [(models & ->)|(e & ->)]);
      cbn [ret]; eexists _, _, _;
      (split; [reflexivity|]); (split; [exact Htrace|]); reflexivity.
  - cbn [retry_loop]. unfold bind at 1. unfold try_except.
    rewrite (query_tracker_run _ _ _ Hc).
    destruct (call_get_metadata_run filter_dict collection_name w)
      as (w' & Htrace & [(models & ->)|(e & ->)]).
    + cbn [ret]. eexists _, _, _.
      (split; [reflexivity|]); (split; [exact Htrace|]); reflexivity.
    + unfold bind at 1. cbn [ret]. unfold bind at 1. cbn [emit].
      destruct (IH (record_event (Sleep 60) w'))
        as (r & w1 & evs & Hrun & Htrace1 & Hlast).
      exists r, w1, (GetMetadata filter_dict collection_name :: Sleep 60 :: evs).
      split; [exact Hrun|]. split.
      * rewrite Htrace1. cbn [record_event trace]. rewrite Htrace.
        rewrite <- !app_assoc. reflexivity.
      * intros last. cbn. apply Hlast.
Qed.

(** When [already_run] answers no for a candidate that names its
    collection, the last thing asked was this candidate's filter. *)
Lemma already_run_asked assay_params collection_name w w1 :
  Dict.get assay_params "collection_name" = Some collection_name ->
  already_run get_metadata assay_params w = Done false w1 ->
  exists filter_dict evs,
    filter_of assay_params = Ok filter_dict
    /\ trace w1 = trace w ++ evs
    /\ forall last, last_query last evs = Some (filter_dict, collection_name).
Proof.
  intros Hc. unfold already_run. fold (filter_of assay_params).
  destruct (filter_of assay_params) as [filter_dict|e]; [|discriminate].
  cbn [lift]. unfold bind at 1. cbn [ret]. unfold bind at 1.
  destruct (retry_query filter_dict assay_params Hc 5 w)
    as (r & w2 & evs & -> & Htrace & Hlast).
  destruct r as [[|model models]|e].
  - cbn [ret]. intros [= <-]. exists filter_dict, evs. auto.
  - unfold bind. cbn [emit ret]. discriminate.
  - unfold bind. cbn [emit ret]. intros [= <-].
    exists filter_dict, (evs ++ [Print (MsgTrackerUnavailable e)]).
    split; [reflexivity|]. split.
    + cbn [record_event trace]. rewrite Htrace, <- app_assoc. reflexivity.
    + intros last. rewrite last_query_app, Hlast. reflexivity.
Qed.

Section Loop.

Variable self : dispatcher.
Hypothesis checking : rerun self = false.

Lemma submit_run base_result_dir assay_params w :
  let job :=
    Dict.set assay_params "result_dir"
      (PStr (os_path_join base_result_dir (uuid4 (uuids_drawn w)))) in
  exists w1,
    submit uuid4 base_result_dir assay_params w = Done job w1
    /\ trace w1
       = trace w ++ [LogInfo job; OutFileWrite job;
                     Print (MsgSlurmCommand job); Sbatch job]
    /\ uuids_drawn w1 = S (uuids_drawn w).
Proof.
  eexists. split; [cbn; reflexivity|].
  unfold record_event. cbn [trace uuids_drawn].
  rewrite <- !app_assoc. split; reflexivity.
Qed.

Lemma covered_job filter_dict assay_params v :
  (forall collection_name,
     Dict.get assay_params "collection_name" = Some collection_name ->
     filter_of assay_params = Ok filter_dict) ->
  forall last,
    (forall collection_name,
       Dict.get assay_params "collection_name" = Some collection_name ->
       last = Some (filter_dict, collection_name)) ->
    covered last (Dict.set assay_params "result_dir" v).
Proof.
  intros Hf last Hlast. unfold covered.
  rewrite DictFacts.get_set_other by discriminate.
  destruct (Dict.get assay_params "collection_name") as [c|] eqn:Ec;
    [|exact I].
  exists filter_dict. rewrite filter_of_result_dir.
  split; [now apply (Hf c)|now apply (Hlast c)].
Qed.

(** The duplicate check followed by what the caller does with its answer:
    nothing on a duplicate, and otherwise the submission. *)
Lemma checked_submission {B : Type} assay_params (k : bool -> M B) :
  appends quiet (k true) ->
  appends (submission_of assay_params) (k false) ->
  appends always_checked (bind (is_duplicate get_metadata self assay_params) k).
Proof.
  intros Hskip Hsubmit w.
  unfold is_duplicate. rewrite checking. unfold bind.
  destruct (DispatchFacts.already_run_quiet get_metadata assay_params w)
    as (evs0 & Htrace0 & Hquiet0).
  destruct (already_run get_metadata assay_params w) as [dup w1|e w1|c w1|w1]
    eqn:Erun; cbn [world_of] in *;
    try (exists evs0; split; [assumption|now apply quiet_always_checked]).
  destruct dup.
  - destruct (Hskip w1) as (evs1 & Htrace1 & Hquiet1).
    exists (evs0 ++ evs1). split.
    + rewrite Htrace1, Htrace0, app_assoc. reflexivity.
    + apply quiet_always_checked. now apply DispatchFacts.quiet_app.
  - destruct (Hsubmit w1) as (evs1 & Htrace1 & before & Hpassive & Hevs).
    exists (evs0 ++ evs1). split;
      [rewrite Htrace1, Htrace0, app_assoc; reflexivity|].
    intros last. apply checked_app.
    split; [now apply quiet_always_checked|].
    destruct Hevs as [->|(v & ->)];
      [now apply quiet_always_checked, passive_quiet|].
    apply checked_app. split;
      [now apply quiet_always_checked, passive_quiet|].
    rewrite passive_last_query by assumption.
    cbn [checked]. split; [|exact I].
    destruct (Dict.get assay_params "collection_name") as [c|] eqn:Ec.
    + destruct (@already_run_asked _ _ _ _ Ec Erun)
        as (filter_dict & evs0' & Hf & Htrace0' & Hlast).
      assert (evs0' = evs0) as ->
        by (rewrite Htrace0 in Htrace0'; now apply app_inv_head in Htrace0').
      apply covered_job with (filter_dict := filter_dict).
      * intros _ _. exact Hf.
      * intros c' Hc'. rewrite Hlast. congruence.
    + unfold covered.
      rewrite DictFacts.get_set_other by discriminate. now rewrite Ec.
Qed.

Lemma submit_is_submission base_result_dir assay_params :
  appends (submission_of assay_params)
    (submit uuid4 base_result_dir assay_params).
Proof.
  intros w.
  destruct (submit_run base_result_dir assay_params w)
    as (w1 & Hrun & Htrace & _).
  rewrite Hrun. eexists. split; [exact Htrace|].
  exists []. split; [constructor|]. right. cbv zeta. eexists. reflexivity.
Qed.

Lemma submit_assay_tail base_result_dir assay_params :
  appends (submission_of assay_params)
    (bind (submit uuid4 base_result_dir assay_params) (fun _ => ret tt)).
Proof.
  intros w. unfold bind.
  destruct (submit_run base_result_dir assay_params w)
    as (w1 & Hrun & Htrace & _).
  rewrite Hrun. eexists. split; [exact Htrace|].
  exists []. split; [constructor|]. right. cbv zeta. eexists. reflexivity.
Qed.

Lemma wait_then_submit base_result_dir assay_params :
  appends (submission_of assay_params)
    (bind (wait_for_queue (max_jobs self))
       (fun _ => submit uuid4 base_result_dir assay_params)).
Proof.
  intros w. unfold bind, wait_for_queue.
  pose proof (queue_wait_passive (max_jobs self) (squeue w)) as Hpassive.
  destruct (queue_wait (max_jobs self) (squeue w)) as [[rest|] evs].
  - match goal with
    | |- context [submit _ _ _ ?w1] =>
        destruct (submit_run base_result_dir assay_params w1)
          as (w2 & Hrun & Htrace & _)
    end.
    rewrite Hrun. cbn [world_of]. eexists. split.
    + rewrite Htrace. cbn [trace]. rewrite <- app_assoc. reflexivity.
    + exists evs. split; [exact Hpassive|]. right. cbv zeta. eexists. reflexivity.
  - exists evs. split; [reflexivity|]. exists evs. auto.
Qed.

Local Abbreviation checks := (appends always_checked).

Lemma quiet_checks {A : Type} (m : M A) : appends quiet m -> checks m.
Proof. apply DispatchFacts.appends_weaken, quiet_always_checked. Qed.

Lemma checks_bind {A B : Type} (m : M A) (k : A -> M B) :
  checks m -> (forall a, checks (k a)) -> checks (bind m k).
Proof.
  intros Hm Hk. apply DispatchFacts.appends_bind;
    auto using always_checked_nil, always_checked_app.
Qed.

Lemma checks_ret {A : Type} (a : A) : checks (ret a).
Proof. apply DispatchFacts.appends_ret. exact always_checked_nil. Qed.

Lemma checks_lift {A : Type} (r : result A) : checks (lift r).
Proof. apply DispatchFacts.appends_lift. exact always_checked_nil. Qed.

Lemma checks_print (msg : message) : checks (emit (Print msg)).
Proof.
  apply quiet_checks, DispatchFacts.appends_emit,
    DispatchFacts.quiet_one. reflexivity.
Qed.

Lemma submit_combo_checks base_result_dir assay_params combo :
  checks (submit_combo get_metadata uuid4 scaled_ge self base_result_dir
            assay_params combo).
Proof.
  unfold submit_combo.
  apply checks_bind; [apply checks_lift|]. intros assay_params'.
  apply checks_bind;
    [apply quiet_checks, DispatchFacts.too_large_quiet|].
  intros [|]; [apply checks_ret|].
  apply checked_submission.
  - apply DispatchFacts.appends_ret. constructor.
  - apply wait_then_submit.
Qed.

Lemma submit_assay_checks base_result_dir assay_params :
  checks (submit_assay get_metadata uuid4 scaled_ge self base_result_dir
            assay_params).
Proof.
  unfold submit_assay.
  apply checks_bind;
    [apply quiet_checks, DispatchFacts.too_large_quiet|].
  intros [|]; [apply checks_ret|].
  apply checked_submission.
  - apply DispatchFacts.appends_ret. constructor.
  - apply submit_assay_tail.
Qed.

Lemma submit_for_assay_checks (u : unit) a :
  checks (submit_for_assay get_keyval get_metadata uuid4 scaled_ge self u a).
Proof.
  unfold submit_for_assay.
  apply checks_bind.
  - apply quiet_checks, DispatchFacts.appends_try_except,
      DispatchFacts.get_dataset_metadata_quiet.
  - intros [assay_params|e].
    + apply checks_bind; [apply checks_lift|]. intros result_dir.
      apply checks_bind; [apply checks_lift|]. intros dataset_name.
      apply checks_bind; [apply checks_lift|]. intros base_result_dir.
      destruct (param_combos self) as [|combo combos].
      * apply submit_assay_checks.
      * apply checks_bind; [|intros _; apply checks_ret].
        apply DispatchFacts.appends_for_loop;
          [exact always_checked_nil|exact always_checked_app|].
        intros s x. apply submit_combo_checks.
    + apply checks_bind; [apply checks_print|]. intros _.
      apply checks_bind; [apply checks_print|]. intros _.
      apply checks_ret.
Qed.

Lemma submit_jobs_checks :
  checks (submit_jobs get_keyval get_metadata uuid4 scaled_ge self).
Proof.
  unfold submit_jobs.
  apply DispatchFacts.appends_for_loop;
    [exact always_checked_nil|exact always_checked_app|].
  intros u a. apply submit_for_assay_checks.
Qed.

End Loop.

End Services.

End AuditFacts.

Import Dispatch.

(** With [rerun] off, every job [submit_jobs] hands to [sbatch] was
    checked right before: the last query of the model tracker since the
    previous submission asked the job's own collection for the job's own
    filter, whatever the datastore, the tracker and the queue answer and
    however the run ends.  The result directory, drawn after the check, is
    no part of the filter.  A job that names no collection is submitted
    without a query. *)
Theorem submissions_follow_their_duplicate_check
    (get_keyval : nat -> pyval -> pyval -> result pyval)
    (get_metadata : nat -> Dict.t pyval -> pyval -> result (list pyval))
    (uuid4 : nat -> string) (scaled_ge : Z -> pyval -> result bool)
    (self : dispatcher) (w : world) :
  rerun self = false ->
  exists evs,
    trace (Trace.world_of
             (submit_jobs get_keyval get_metadata uuid4 scaled_ge self w))
    = trace w ++ evs
    /\ Audit.checked None evs.
Proof.
  intros Hrerun.
  destruct (@AuditFacts.submit_jobs_checks get_keyval get_metadata uuid4
              scaled_ge self Hrerun w) as (evs & Htrace & Hchecked).
  exists evs. split; [exact Htrace|apply Hchecked].
Qed.


Lemma submissions_follow_their_duplicate_check_witness :
  exists evs,
    trace (Trace.world_of
             (submit_jobs Scenario.datastore_up Scenario.tracker_empty
                Scenario.uuid4 Scenario.scaled_ge Scenario.one_combo
                (fresh_world [0])))
    = trace (fresh_world [0]) ++ evs
    /\ Audit.checked None evs.
Proof.
  apply (@submissions_follow_their_duplicate_check Scenario.datastore_up
           Scenario.tracker_empty Scenario.uuid4 Scenario.scaled_ge
           Scenario.one_combo (fresh_world [0])).
  reflexivity.
Defined.

(** ** Worlds before and after *)

Module StepFacts.

Import Dispatch Trace Audit.

Section Steps.

(** A relation between worlds that holds of no step and of steps in a
    row. *)
Variable R : world -> world -> Prop.
Hypothesis R_refl : forall w, R w w.
Hypothesis R_trans : forall w1 w2 w3, R w1 w2 -> R w2 w3 -> R w1 w3.

Local Abbreviation steps := (Audit.steps R).

Lemma steps_ret {A : Type} (a : A) : steps (ret a).
Proof. intros w. apply R_refl. Qed.

Lemma steps_raise {A : Type} (e : pyexn) : steps (@raise A e).
Proof. intros w. apply R_refl. Qed.

Lemma steps_sys_exit {A : Type} (status : Z) : steps (@sys_exit A status).
Proof. intros w. apply R_refl. Qed.

Lemma steps_lift {A : Type} (r : result A) : steps (lift r).
Proof. destruct r; [apply steps_ret|apply steps_raise]. Qed.

Lemma steps_emit (e : event) :
  (forall w, R w (record_event e w)) -> steps (emit e).
Proof. intros He w. apply He. Qed.

Lemma steps_bind {A B : Type} (m : M A) (k : A -> M B) :
  steps m -> (forall a, steps (k a)) -> steps (bind m k).
Proof.
  intros Hm Hk w. unfold bind. specialize (Hm w).
  destruct (m w) as [a w1|e w1|c w1|w1]; simpl in *; try assumption.
  eapply R_trans; [exact Hm|apply Hk].
Qed.

Lemma steps_try_except {A : Type} (m : M A) : steps m -> steps (try_except m).
Proof.
  intros Hm w. unfold try_except. specialize (Hm w).
  destruct (m w); simpl in *; assumption.
Qed.

Lemma steps_for_loop {S A : Type} (body : S -> A -> M S) (xs : list A) :
  (forall s x, steps (body s x)) -> forall s, steps (for_loop body xs s).
Proof.
  intros Hbody. induction xs as [|x xs IH]; intros s; simpl.
  - apply steps_ret.
  - apply steps_bind; auto.
Qed.

Lemma steps_retry_loop {A : Type} (attempt : M A)
    (before_sleep : pyexn -> M unit) (left : nat) :
  steps attempt -> (forall e, steps (before_sleep e)) ->
  (forall w, R w (record_event (Sleep 60) w)) ->
  steps (retry_loop attempt before_sleep left).
Proof.
  intros Ha Hb Hs. induction left as [|left IH]; simpl.
  - apply steps_bind; [now apply steps_try_except|].
    intros [a|e]; apply steps_ret.
  - apply steps_bind; [now apply steps_try_except|].
    intros [a|e]; [apply steps_ret|].
    apply steps_bind; [apply Hb|]. intros _.
    apply steps_bind; [now apply steps_emit|]. intros _. exact IH.
Qed.

End Steps.

(** One step through a computation built from the combinators: [laws]
    settles the two laws of the relation, [event] an event, [service] a
    call of a collaborator. *)
Ltac steps_step laws event service :=
  lazymatch goal with
  | |- Audit.steps _ (bind _ _) => apply steps_bind; [laws .. | | intros ?]
  | |- Audit.steps _ (ret _) => apply steps_ret; laws
  | |- Audit.steps _ (raise _) => apply steps_raise; laws
  | |- Audit.steps _ (sys_exit _) => apply steps_sys_exit; laws
  | |- Audit.steps _ (lift _) => apply steps_lift; laws
  | |- Audit.steps _ (emit _) => apply steps_emit; event
  | |- Audit.steps _ (try_except _) => apply steps_try_except
  | |- Audit.steps _ (retry_loop _ _ _) =>
      apply steps_retry_loop; [laws .. | | intros ? | event]
  | |- Audit.steps _ (for_loop _ _ _) =>
      apply steps_for_loop; [laws .. | intros ? ?]
  | |- Audit.steps _ (match ?x with _ => _ end) => destruct x
  | |- Audit.steps _ _ => service
  end.

Lemma submitted_app evs1 evs2 :
  submitted (evs1 ++ evs2) = submitted evs1 ++ submitted evs2.
Proof.
  induction evs1 as [|e evs1 IH]; [reflexivity|].
  destruct e; simpl; rewrite ?IH; reflexivity.
Qed.

Lemma submitted_quiet evs : quiet evs -> submitted evs = [].
Proof.
  induction 1 as [|e evs He _ IH]; [reflexivity|].
  destruct e; simpl in *; try discriminate; exact IH.
Qed.

(** *** Counters that stay *)

Section Same.

Variable T : Type.
Variable counter : world -> T.
Hypothesis counter_record_event :
  forall e w, counter (record_event e w) = counter w.

Lemma same_refl w : same counter w w.
Proof. reflexivity. Qed.

Lemma same_trans w1 w2 w3 :
  same counter w1 w2 -> same counter w2 w3 -> same counter w1 w3.
Proof. unfold same. congruence. Qed.

Lemma same_event e w : same counter w (record_event e w).
Proof. apply counter_record_event. Qed.

End Same.

Ltac stays_step service :=
  steps_step
    ltac:(solve [apply same_refl | apply same_trans])
    ltac:(solve [intros; apply same_event; assumption | intros; reflexivity])
    service.

Section Services.

Variable get_keyval : nat -> pyval -> pyval -> result pyval.
Variable get_metadata : nat -> Dict.t pyval -> pyval -> result (list pyval).
Variable uuid4 : nat -> string.
Variable scaled_ge : Z -> pyval -> result bool.

(** The steps that are not a draw and not a query of the tracker. *)
Section Idle.

Variable T : Type.
Variable counter : world -> T.
Hypothesis counter_record_event :
  forall e w, counter (record_event e w) = counter w.
Hypothesis counter_keyval :
  forall w n, counter
    {| num_rows := num_rows w; squeue := squeue w; keyval_calls := n;
       tracker_calls := tracker_calls w; shortlist_calls := shortlist_calls w;
       uuids_drawn := uuids_drawn w; trace := trace w |} = counter w.
Hypothesis counter_num_rows :
  forall w rows, counter
    {| num_rows := rows; squeue := squeue w; keyval_calls := keyval_calls w;
       tracker_calls := tracker_calls w; shortlist_calls := shortlist_calls w;
       uuids_drawn := uuids_drawn w; trace := trace w |} = counter w.
Hypothesis counter_squeue :
  forall w polls tr, counter
    {| num_rows := num_rows w; squeue := polls; keyval_calls := keyval_calls w;
       tracker_calls := tracker_calls w; shortlist_calls := shortlist_calls w;
       uuids_drawn := uuids_drawn w; trace := tr |} = counter w.

Local Abbreviation stays := (Audit.steps (same counter)).

Lemma call_get_keyval_stays dataset_key bucket :
  stays (call_get_keyval get_keyval dataset_key bucket).
Proof.
  intros w. unfold call_get_keyval, same.
  destruct (get_keyval (keyval_calls w) dataset_key bucket); cbn [world_of];
    now rewrite counter_record_event, counter_keyval.
Qed.

Lemma set_num_rows_stays key rows : stays (set_num_rows key rows).
Proof. intros w. apply counter_num_rows. Qed.

Lemma read_num_rows_stays key : stays (read_num_rows key).
Proof. intros w. reflexivity. Qed.

Lemma wait_for_queue_stays max_jobs : stays (wait_for_queue max_jobs).
Proof.
  intros w. unfold wait_for_queue, same.
  destruct (queue_wait max_jobs (squeue w)) as [[rest|] evs];
    apply counter_squeue.
Qed.

Lemma get_dataset_metadata_stays uuid assay_params :
  stays (get_dataset_metadata get_keyval uuid assay_params).
Proof.
  unfold get_dataset_metadata, fetch_keyval.
  repeat stays_step
    ltac:(first [apply call_get_keyval_stays | apply set_num_rows_stays]).
Qed.

Lemma too_large_stays assay_params :
  stays (too_large scaled_ge assay_params).
Proof.
  unfold too_large.
  repeat stays_step ltac:(apply read_num_rows_stays).
Qed.

Hypothesis counter_tracker :
  forall w n, counter
    {| num_rows := num_rows w; squeue := squeue w;
       keyval_calls := keyval_calls w; tracker_calls := n;
       shortlist_calls := shortlist_calls w; uuids_drawn := uuids_drawn w;
       trace := trace w |} = counter w.

Lemma call_get_metadata_stays filter_dict collection_name :
  stays (call_get_metadata get_metadata filter_dict collection_name).
Proof.
  intros w. unfold call_get_metadata, same.
  destruct (get_metadata (tracker_calls w) filter_dict collection_name);
    cbn [world_of]; now rewrite counter_record_event, counter_tracker.
Qed.

Lemma already_run_stays assay_params :
  stays (already_run get_metadata assay_params).
Proof.
  unfold already_run, query_tracker.
  repeat stays_step ltac:(apply call_get_metadata_stays).
Qed.

End Idle.

Section Loop.

Variable self : dispatcher.

(** *** With [rerun], no query *)

Section Rerun.

Hypothesis rerunning : rerun self = true.

Local Abbreviation unasked := (Audit.steps (same tracker_calls)).

Lemma submit_unasked base_result_dir assay_params :
  unasked (submit uuid4 base_result_dir assay_params).
Proof. intros w. reflexivity. Qed.

Ltac unasked_step :=
  stays_step
    ltac:(first
            [ apply submit_unasked
            | apply get_dataset_metadata_stays; intros; reflexivity
            | apply too_large_stays; intros; reflexivity
            | apply wait_for_queue_stays; intros; reflexivity ]).

Lemma submit_combo_unasked base_result_dir assay_params combo :
  unasked (submit_combo get_metadata uuid4 scaled_ge self base_result_dir
             assay_params combo).
Proof.
  unfold submit_combo, is_duplicate. rewrite rerunning.
  repeat unasked_step.
Qed.

Lemma submit_jobs_unasked :
  unasked (submit_jobs get_keyval get_metadata uuid4 scaled_ge self).
Proof.
  unfold submit_jobs, submit_for_assay, submit_assay, is_duplicate.
  rewrite rerunning.
  repeat first [apply submit_combo_unasked | unasked_step].
Qed.

End Rerun.

(** *** One draw for every job *)

Local Abbreviation lockstep := (Audit.lockstep uuid4).

Lemma in_step_app n jobs1 jobs2 :
  in_step uuid4 n jobs1 ->
  in_step uuid4 (n + List.length jobs1) jobs2 ->
  in_step uuid4 n (jobs1 ++ jobs2).
Proof.
  revert n. induction jobs1 as [|job jobs1 IH]; intros n H1 H2; simpl in *.
  - now rewrite Nat.add_0_r in H2.
  - destruct H1 as [Hjob H1]. split; [exact Hjob|].
    apply IH; [exact H1|]. now rewrite Nat.add_succ_r in H2.
Qed.

Lemma lockstep_refl w : lockstep w w.
Proof.
  exists []. rewrite app_nil_r. simpl. rewrite Nat.add_0_r. auto.
Qed.

Lemma lockstep_trans w1 w2 w3 :
  lockstep w1 w2 -> lockstep w2 w3 -> lockstep w1 w3.
Proof.
  intros (evs1 & Ht1 & Hn1 & Hs1) (evs2 & Ht2 & Hn2 & Hs2).
  exists (evs1 ++ evs2). rewrite submitted_app, length_app.
  split; [rewrite Ht2, Ht1, app_assoc; reflexivity|].
  split; [lia|].
  apply in_step_app; [exact Hs1|]. now rewrite <- Hn1.
Qed.

(** A step that submits nothing and draws nothing. *)
Lemma idle_lockstep {A : Type} (m : M A) :
  appends quiet m -> Audit.steps (same uuids_drawn) m ->
  Audit.steps lockstep m.
Proof.
  intros Hquiet Hsame w. destruct (Hquiet w) as (evs & Htrace & Hq).
  exists evs. rewrite (submitted_quiet Hq). simpl.
  split; [exact Htrace|]. split; [|exact I].
  rewrite (Hsame w). lia.
Qed.

Lemma emit_lockstep (e : event) :
  is_sbatch e = false -> forall w, lockstep w (record_event e w).
Proof.
  intros He w. exists [e]. destruct e; try discriminate; simpl;
    rewrite Nat.add_0_r; auto.
Qed.

Lemma submit_lockstep base_result_dir assay_params :
  Audit.steps lockstep (submit uuid4 base_result_dir assay_params).
Proof.
  intros w.
  destruct (AuditFacts.submit_run uuid4 base_result_dir assay_params w)
    as (w1 & Hrun & Htrace & Hdrawn).
  rewrite Hrun. cbn [world_of]. eexists. split; [exact Htrace|].
  cbn [submitted List.length in_step]. split; [lia|]. split; [|exact I].
  exists base_result_dir. apply DictFacts.get_set_same.
Qed.

Ltac lockstep_step :=
  steps_step
    ltac:(solve [apply lockstep_refl | apply lockstep_trans])
    ltac:(apply emit_lockstep; reflexivity)
    ltac:(first
            [ apply submit_lockstep
            | apply idle_lockstep;
              [ apply DispatchFacts.get_dataset_metadata_quiet
              | apply get_dataset_metadata_stays; intros; reflexivity ]
            | apply idle_lockstep;
              [ apply DispatchFacts.too_large_quiet
              | apply too_large_stays; intros; reflexivity ]
            | apply idle_lockstep;
              [ apply DispatchFacts.is_duplicate_quiet
              | unfold is_duplicate; destruct (rerun self);
                [ apply steps_ret; apply same_refl
                | apply already_run_stays; intros; reflexivity ] ]
            | apply idle_lockstep;
              [ apply DispatchFacts.appends_weaken
                  with (P := Forall (fun e => passive e = true));
                [ apply AuditFacts.passive_quiet | ]
              | apply wait_for_queue_stays; intros; reflexivity ] ]).

Lemma wait_for_queue_passive max_jobs :
  appends (Forall (fun e => passive e = true)) (wait_for_queue max_jobs).
Proof.
  intros w. unfold wait_for_queue.
  pose proof (AuditFacts.queue_wait_passive max_jobs (squeue w)) as H.
  destruct (queue_wait max_jobs (squeue w)) as [[rest|] evs];
    exists evs; auto.
Qed.

Lemma submit_combo_lockstep base_result_dir assay_params combo :
  Audit.steps lockstep
    (submit_combo get_metadata uuid4 scaled_ge self base_result_dir
       assay_params combo).
Proof.
  unfold submit_combo.
  repeat first [apply wait_for_queue_passive | lockstep_step].
Qed.

Lemma submit_jobs_lockstep :
  Audit.steps lockstep
    (submit_jobs get_keyval get_metadata uuid4 scaled_ge self).
Proof.
  unfold submit_jobs, submit_for_assay, submit_assay.
  repeat first [apply submit_combo_lockstep | lockstep_step].
Qed.

End Loop.

End Services.

End StepFacts.

(** With [rerun] on, [submit_jobs] never asks the model tracker: however
    the run ends, the tracker has answered as many calls after it as
    before. *)
Theorem rerun_never_asks_the_tracker
    (get_keyval : nat -> pyval -> pyval -> result pyval)
    (get_metadata : nat -> Dict.t pyval -> pyval -> result (list pyval))
    (uuid4 : nat -> string) (scaled_ge : Z -> pyval -> result bool)
    (self : dispatcher) (w : world) :
  rerun self = true ->
  tracker_calls
    (Trace.world_of
       (submit_jobs get_keyval get_metadata uuid4 scaled_ge self w))
  = tracker_calls w.
Proof.
  intros Hrerun.
  apply (@StepFacts.submit_jobs_unasked get_keyval get_metadata uuid4
           scaled_ge self Hrerun w).
Qed.

Lemma rerun_never_asks_the_tracker_witness :
  tracker_calls
    (Trace.world_of
       (submit_jobs Scenario.datastore_up Scenario.tracker_down
          Scenario.uuid4 Scenario.scaled_ge Scenario.two_kinds
          (fresh_world [0; 0; 0; 0])))
  = tracker_calls (fresh_world [0; 0; 0; 0]).
Proof.
  apply (@rerun_never_asks_the_tracker Scenario.datastore_up
           Scenario.tracker_down Scenario.uuid4 Scenario.scaled_ge
           Scenario.two_kinds (fresh_world [0; 0; 0; 0])).
  reflexivity.
Defined.

(** Every job [submit_jobs] hands to [sbatch] has a result directory of
    its own draw: whatever the services and the queue answer and however
    the run ends, as many identifiers were drawn as jobs were submitted,
    and the job submitted at the [n]-th draw has [result_dir] set to a
    base directory joined with the [n]-th identifier. *)
Theorem every_submission_draws_its_own_directory
    (get_keyval : nat -> pyval -> pyval -> result pyval)
    (get_metadata : nat -> Dict.t pyval -> pyval -> result (list pyval))
    (uuid4 : nat -> string) (scaled_ge : Z -> pyval -> result bool)
    (self : dispatcher) (w : world) :
  Audit.lockstep uuid4 w
    (Trace.world_of
       (submit_jobs get_keyval get_metadata uuid4 scaled_ge self w)).
Proof. apply StepFacts.submit_jobs_lockstep. Qed.

(** ** What a read of the datastore writes *)

Module MetadataFacts.

Import Dispatch NameSpec.

Lemma rstrip_spec (cs s : string) :
  exists tail,
    s = String.append (rstrip cs s) tail
    /\ all_in cs tail = true
    /\ ends_outside cs (rstrip cs s) = true.
Proof.
  induction s as [|c rest (tail & Hrest & Hall & Hends)]; simpl.
  - exists EmptyString. auto.
  - destruct (rstrip cs rest) as [|k kept] eqn:Ek.
    + destruct (char_in c cs) eqn:Ec.
      * exists (String c tail). simpl in *. rewrite Ec, Hall. subst. auto.
      * exists tail. simpl in *. unfold ends_outside. simpl. rewrite Ec.
        subst. auto.
    + exists tail. simpl in *. rewrite <- Hrest. auto.
Qed.

Section Read.

Variable get_keyval : nat -> pyval -> pyval -> result pyval.

(** The dictionary a reply is merged into, lines 461-479. *)
Lemma first_read hyperparam_uuid assay_params key bucket metadata w :
  Dict.get assay_params "dataset_key" = Some (PStr key) ->
  Dict.get assay_params "bucket" = Some bucket ->
  get_keyval (keyval_calls w) (PStr key) bucket = Ok (PDict metadata) ->
  exists w',
    get_dataset_metadata get_keyval hyperparam_uuid assay_params w
    = Done
        (let merged := copy_key metadata "id_col" assay_params in
         let merged :=
           if response_cols_missing merged
           then copy_response_cols metadata merged else merged in
         let merged := copy_key metadata "smiles_col" merged in
         let merged := copy_key metadata "class_name" merged in
         let merged := copy_key metadata "class_number" merged in
         let merged :=
           Dict.set merged "dataset_name"
             (PStr (rstrip ".csv" (last_segment key))) in
         Dict.set merged "hyperparam_uuid" (PStr hyperparam_uuid)) w'
    /\ num_rows w'
       = match Dict.get metadata "num_row" with
         | Some rows => Dict.set (num_rows w) key rows
         | None => num_rows w
         end.
Proof.
  intros Hkey Hbucket Hreply.
  unfold get_dataset_metadata, fetch_keyval, Dict.getitem.
  rewrite Hkey, Hbucket. cbn [lift retry_loop]. unfold bind, try_except.
  cbn [ret emit]. unfold call_get_keyval.
  cbn [record_event keyval_calls]. rewrite Hreply. cbn [keys_of lift ret].
  destruct (Dict.get metadata "num_row") as [rows|];
    eexists; (split; [reflexivity|reflexivity]).
Qed.

End Read.

Lemma get_set {V : Type} (d : Dict.t V) (k k' : string) (v : V) :
  Dict.get (Dict.set d k v) k'
  = if String.eqb k' k then Some v else Dict.get d k'.
Proof.
  destruct (String.eqb_spec k' k) as [->|Hne].
  - apply DictFacts.get_set_same.
  - apply DictFacts.get_set_other. congruence.
Qed.

Lemma get_copy_key (metadata assay_params : Dict.t pyval) (k k' : string) :
  Dict.get (copy_key metadata k assay_params) k'
  = if String.eqb k' k
    then match Dict.get metadata k with
         | Some v => Some v
         | None => Dict.get assay_params k'
         end
    else Dict.get assay_params k'.
Proof.
  unfold copy_key. destruct (Dict.get metadata k); [apply get_set|].
  now destruct (String.eqb k' k).
Qed.

Lemma get_copy_response_cols (metadata assay_params : Dict.t pyval) (k : string) :
  Dict.get (copy_response_cols metadata assay_params) k
  = if String.eqb k "response_cols"
    then match Dict.get metadata "response_cols" with
         | Some v => Some v
         | None =>
             match Dict.get metadata "response_col" with
             | Some v => Some (PList [v])
             | None =>
                 match Dict.get metadata "param" with
                 | Some v => Some (PList [v])
                 | None => Dict.get assay_params k
                 end
             end
         end
    else Dict.get assay_params k.
Proof.
  unfold copy_response_cols. rewrite get_copy_key.
  destruct (String.eqb k "response_cols") eqn:E.
  - destruct (Dict.get metadata "response_cols"); [reflexivity|].
    destruct (Dict.get metadata "response_col");
      destruct (Dict.get metadata "param"); rewrite ?get_set, ?E; reflexivity.
  - destruct (Dict.get metadata "response_col");
      destruct (Dict.get metadata "param"); rewrite ?get_set, ?E; reflexivity.
Qed.

Lemma response_cols_missing_copy_key metadata k assay_params :
  String.eqb "response_cols" k = false ->
  response_cols_missing (copy_key metadata k assay_params)
  = response_cols_missing assay_params.
Proof.
  intros H. unfold response_cols_missing. now rewrite get_copy_key, H.
Qed.

End MetadataFacts.

Import Dispatch.

(** The dataset name [get_dataset_metadata] records after a read that
    succeeds is the last segment of the dataset key with its trailing
    characters ['.'], ['c'], ['s'] and ['v'] removed, however many there
    are: what is cut off is made of these four characters, and the name
    does not end with one of them. *)
Theorem dataset_name_loses_trailing_csv_characters
    (get_keyval : nat -> pyval -> pyval -> result pyval)
    (hyperparam_uuid : string) (assay_params : Dict.t pyval)
    (key : string) (bucket : pyval) (metadata : Dict.t pyval) (w : world) :
  Dict.get assay_params "dataset_key" = Some (PStr key) ->
  Dict.get assay_params "bucket" = Some bucket ->
  get_keyval (keyval_calls w) (PStr key) bucket = Ok (PDict metadata) ->
  exists assay_params' w' name tail,
    get_dataset_metadata get_keyval hyperparam_uuid assay_params w
    = Done assay_params' w'
    /\ Dict.get assay_params' "dataset_name" = Some (PStr name)
    /\ last_segment key = String.append name tail
    /\ NameSpec.all_in ".csv" tail = true
    /\ NameSpec.ends_outside ".csv" name = true.
Proof.
  intros Hkey Hbucket Hreply.
  destruct (MetadataFacts.first_read get_keyval hyperparam_uuid assay_params
              w Hkey Hbucket Hreply) as (w' & Hrun & _).
  destruct (MetadataFacts.rstrip_spec ".csv" (last_segment key))
    as (tail & Hsplit & Hall & Hends).
  eexists _, w', (rstrip ".csv" (last_segment key)), tail.
  split; [exact Hrun|]. cbv zeta.
  rewrite DictFacts.get_set_other by discriminate.
  rewrite DictFacts.get_set_same. auto.
Qed.

Lemma dataset_name_loses_trailing_csv_characters_witness :
  exists assay_params' w' name tail,
    get_dataset_metadata Scenario.datastore_up "run"
      [("dataset_key", PStr "data/docs.csv"); ("bucket", PStr "public")]%string
      (fresh_world [])
    = Done assay_params' w'
    /\ Dict.get assay_params' "dataset_name" = Some (PStr name)
    /\ last_segment "data/docs.csv" = String.append name tail
    /\ NameSpec.all_in ".csv" tail = true
    /\ NameSpec.ends_outside ".csv" name = true.
Proof.
  apply (@dataset_name_loses_trailing_csv_characters Scenario.datastore_up
           "run"
           [("dataset_key", PStr "data/docs.csv"); ("bucket", PStr "public")]%string
           "data/docs.csv" (PStr "public")
           [("id_col", PStr "compound_id")]%string (fresh_world []));
    reflexivity.
Defined.

(** What [get_dataset_metadata] makes of a reply to its first read: the
    identifier of the search is recorded; [id_col], [smiles_col],
    [class_name] and [class_number] are taken from the reply when it has
    them; response columns the caller gave are kept, and otherwise the
    reply's [response_cols] wins over its [response_col], which wins over
    its [param]; every other key but the dataset name keeps the value it
    had; and the number of rows of the reply is recorded under the dataset
    key. *)
Theorem get_dataset_metadata_merges_the_reply
    (get_keyval : nat -> pyval -> pyval -> result pyval)
    (hyperparam_uuid : string) (assay_params : Dict.t pyval)
    (key : string) (bucket : pyval) (metadata : Dict.t pyval) (w : world) :
  Dict.get assay_params "dataset_key" = Some (PStr key) ->
  Dict.get assay_params "bucket" = Some bucket ->
  get_keyval (keyval_calls w) (PStr key) bucket = Ok (PDict metadata) ->
  exists assay_params' w',
    get_dataset_metadata get_keyval hyperparam_uuid assay_params w
    = Done assay_params' w'
    /\ Dict.get assay_params' "hyperparam_uuid" = Some (PStr hyperparam_uuid)
    /\ (forall k,
          In k ["id_col"; "smiles_col"; "class_name"; "class_number"]%string ->
          Dict.get assay_params' k
          = match Dict.get metadata k with
            | Some v => Some v
            | None => Dict.get assay_params k
            end)
    /\ Dict.get assay_params' "response_cols"
       = (if response_cols_missing assay_params
          then match Dict.get metadata "response_cols" with
               | Some v => Some v
               | None =>
                   match Dict.get metadata "response_col" with
                   | Some v => Some (PList [v])
                   | None =>
                       match Dict.get metadata "param" with
                       | Some v => Some (PList [v])
                       | None => Dict.get assay_params "response_cols"
                       end
                   end
               end
          else Dict.get assay_params "response_cols")
    /\ (forall k,
          name_in k ["id_col"; "response_cols"; "smiles_col"; "class_name";
                     "class_number"; "dataset_name"; "hyperparam_uuid"]%string
          = false ->
          Dict.get assay_params' k = Dict.get assay_params k)
    /\ num_rows w'
       = match Dict.get metadata "num_row" with
         | Some rows => Dict.set (num_rows w) key rows
         | None => num_rows w
         end.
Proof.
  intros Hkey Hbucket Hreply.
  destruct (MetadataFacts.first_read get_keyval hyperparam_uuid assay_params
              w Hkey Hbucket Hreply) as (w' & Hrun & Hrows).
  eexists _, w'. split; [exact Hrun|]. cbv zeta.
  rewrite MetadataFacts.response_cols_missing_copy_key by reflexivity.
  split; [apply DictFacts.get_set_same|].
  split; [|split; [|split; [|exact Hrows]]].
  - intros k Hk.
    rewrite !MetadataFacts.get_set, !MetadataFacts.get_copy_key.
    destruct (response_cols_missing assay_params);
      rewrite ?MetadataFacts.get_copy_response_cols,
        ?MetadataFacts.get_copy_key;
      destruct Hk as [<-|[<-|[<-|[<-|[]]]]]; cbn [String.eqb Ascii.eqb Bool.eqb];
      repeat match goal with
             | |- context [match ?x with _ => _ end] => destruct x
             end; reflexivity.
  - rewrite !MetadataFacts.get_set, !MetadataFacts.get_copy_key.
    cbn [String.eqb Ascii.eqb Bool.eqb].
    destruct (response_cols_missing assay_params);
      rewrite ?MetadataFacts.get_copy_response_cols,
        ?MetadataFacts.get_copy_key;
      cbn [String.eqb Ascii.eqb Bool.eqb]; reflexivity.
  - intros k Hk. unfold name_in in Hk. cbn [existsb] in Hk.
    repeat (apply orb_false_iff in Hk; destruct Hk as [? Hk]).
    rewrite !MetadataFacts.get_set, !MetadataFacts.get_copy_key.
    destruct (response_cols_missing assay_params);
      rewrite ?MetadataFacts.get_copy_response_cols,
        ?MetadataFacts.get_copy_key;
      repeat match goal with
             | H : String.eqb k _ = false |- _ => rewrite H; clear H
             end; reflexivity.
Qed.


Lemma get_dataset_metadata_merges_the_reply_witness :
  let assay_params :=
    [("dataset_key", PStr "data/assay.csv"); ("bucket", PStr "public");
     ("response_cols", PNone); ("id_col", PStr "id")]%string in
  let metadata :=
    [("id_col", PStr "compound_id"); ("param", PStr "pIC50");
     ("response_col", PStr "activity"); ("num_row", PInt 120);
     ("owner", PStr "lab")]%string in
  exists assay_params' w',
    get_dataset_metadata (fun _ _ _ => Ok (PDict metadata)) "run" assay_params
      (fresh_world [])
    = Done assay_params' w'
    /\ Dict.get assay_params' "hyperparam_uuid" = Some (PStr "run")
    /\ (forall k,
          In k ["id_col"; "smiles_col"; "class_name"; "class_number"]%string ->
          Dict.get assay_params' k
          = match Dict.get metadata k with
            | Some v => Some v
            | None => Dict.get assay_params k
            end)
    /\ Dict.get assay_params' "response_cols"
       = Some (PList [PStr "activity"])
    /\ (forall k,
          name_in k ["id_col"; "response_cols"; "smiles_col"; "class_name";
                     "class_number"; "dataset_name"; "hyperparam_uuid"]%string
          = false ->
          Dict.get assay_params' k = Dict.get assay_params k)
    /\ num_rows w' = [("data/assay.csv"%string, PInt 120)].
Proof.
  intros assay_params metadata.
  apply (@get_dataset_metadata_merges_the_reply
           (fun _ _ _ => Ok (PDict metadata)) "run" assay_params
           "data/assay.csv" (PStr "public") metadata (fresh_world []));
    reflexivity.
Defined.

(** ** The fixed parameters *)

Module FixedFacts.

Import Builder FixedSpec.

Section Fixed.

Variable params0 : Dict.t pyval.
Variable uuid : string.

Local Abbreviation fixed := (fixed_from params0 uuid).

Lemma set_new_param_fixed s key v :
  fixed s -> from_configuration params0 uuid key v ->
  fixed (set_new_param s key v).
Proof.
  intros [Hu Hall] Hv. split; [exact Hu|]. intros k v'.
  cbn [new_params set_new_param].
  destruct (String.eqb_spec key k) as [->|Hne].
  - rewrite DictFacts.get_set_same. now intros [= <-].
  - rewrite DictFacts.get_set_other by assumption. apply Hall.
Qed.

Lemma classify_param_fixed s kv s' :
  In kv params0 -> fixed s -> classify_param s kv = Ok s' -> fixed s'.
Proof.
  intros Hin Hs. destruct kv as [key value]. unfold classify_param.
  destruct (truthy value) eqn:Etruthy; cbn [negb orb]; [|now intros [= <-]].
  destruct (name_in key excluded_keys) eqn:Eexcl; [now intros [= <-]|].
  assert (Hfrom : forall v,
            v = value \/ value = PList [v]
            \/ (exists dir, value = PStr dir /\ v = PStr (os_path_join dir uuid)) ->
            from_configuration params0 uuid key v).
  { intros v Hv. split; [exact Eexcl|]. exists value. auto. }
  destruct (String.eqb key "result_dir" || String.eqb key "output_dir").
  - destruct value; try discriminate. intros [= <-].
    apply set_new_param_fixed; [exact Hs|]. apply Hfrom.
    right. right. destruct Hs as [-> _]. eauto.
  - destruct (if name_in key hyperparam_layers
              then (do first <- py_index value 0; Ok (is_list first))%result
              else Ok false) as [layered|e]; cbn [rbind]; [|discriminate].
    destruct layered; [now intros [= <-]|].
    destruct (name_in key (hyperparam_keys s)).
    + destruct (is_list value) eqn:Elist; cbn [negb].
      * destruct (py_len value) as [n|e] eqn:Elen; cbn [rbind];
          [|discriminate].
        destruct (Nat.eqb_spec n 1) as [->|Hn].
        -- destruct (py_index value 0) as [first|e] eqn:Efirst; cbn [rbind];
             [|discriminate].
           intros [= <-].
           assert (Hs1 : fixed (set_new_param s key first)).
           { apply set_new_param_fixed; [exact Hs|]. apply Hfrom.
             right. left. destruct value; try discriminate.
             cbn in Elen, Efirst. destruct items as [|x [|y rest]];
               try discriminate. cbn in Efirst. congruence. }
           exact Hs1.
        -- now intros [= <-].
      * intros [= <-].
        assert (Hs1 : fixed (set_new_param s key value))
          by (apply set_new_param_fixed; auto).
        exact Hs1.
    + intros [= <-]. apply set_new_param_fixed; auto.
Qed.

Section WithStrategy.

Context {strategy : SearchStrategy}.

Lemma add_model_type_fixed s model_type s' :
  fixed s -> add_model_type s model_type = Ok s' -> fixed s'.
Proof.
  intros Hs. unfold add_model_type.
  assert (Hsubset : forall skip o1 o2 m s0 f s1,
            fixed s0 -> add_subset skip o1 o2 m s0 f = Ok s1 -> fixed s1).
  { intros skip o1 o2 m s0 f s1 H0. unfold add_subset.
    destruct (skip && eq_str f "graphconv"); [now intros [= <-]|].
    destruct (generate_combos _); cbn [rbind]; [|discriminate].
    now intros [= <-]. }
  destruct (eq_str model_type "NN");
    [|destruct (eq_str model_type "RF");
      [|destruct (eq_str model_type "xgboost"); [|now intros [= <-]]]];
    (destruct (attribute s "featurizer") as [fs|e]; cbn [rbind];
       [|discriminate]);
    (destruct (py_iter fs) as [featurizers|e]; cbn [rbind]; [|discriminate]);
    (apply for_each_invariant with (P := fixed) (Q := fun _ : pyval => True);
       [| apply Forall_forall; auto | exact Hs]);
    intros s0 f s1 H0 _; apply Hsubset; exact H0.
Qed.

Lemma generate_param_combos_fixed s s' :
  params s = params0 -> fixed s -> generate_param_combos s = Ok s' ->
  fixed s'.
Proof.
  intros Hparams Hs. unfold generate_param_combos. rewrite Hparams.
  destruct (for_each classify_param params0 s) as [s1|e] eqn:E1;
    cbn [rbind]; [|discriminate].
  assert (H1 : fixed s1).
  { revert E1. apply for_each_invariant
      with (P := fixed) (Q := fun kv => In kv params0);
      [| apply Forall_forall; auto | exact Hs].
    intros s0 kv s0' H0 Hkv. now apply classify_param_fixed. }
  destruct (match layers s1 with [] => Ok s1 | _ => assemble_layers s1 end)
    as [s2|e] eqn:E2; cbn [rbind]; [|discriminate].
  assert (H2 : fixed s2).
  { destruct (layers s1); [now injection E2 as <-|].
    unfold assemble_layers in E2.
    destruct (layer_bundles _); cbn [rbind] in E2; [|discriminate].
    now injection E2 as <-. }
  assert (Hlistify : forall name sa sb,
            fixed sa -> listify name sa = Ok sb -> fixed sb).
  { intros name sa sb Ha. unfold listify.
    destruct (attribute sa name) as [v|e]; cbn [rbind]; [|discriminate].
    destruct (is_str v); now intros [= <-]. }
  destruct (listify "model_type" s2) as [s3|e] eqn:E3; cbn [rbind];
    [|discriminate].
  destruct (listify "featurizer" s3) as [s4|e] eqn:E4; cbn [rbind];
    [|discriminate].
  destruct (attribute s4 "model_type") as [ms|e]; cbn [rbind]; [|discriminate].
  destruct (py_iter ms) as [model_types|e]; cbn [rbind]; [|discriminate].
  apply for_each_invariant with (P := fixed) (Q := fun _ : pyval => True);
    [| apply Forall_forall; auto | eauto].
  intros s0 m s0' H0 _. now apply add_model_type_fixed.
Qed.

End WithStrategy.

End Fixed.

End FixedFacts.

Import Builder.

(** The parameters [generate_param_combos] fixes for every job come from
    the configuration: every entry of [self.new_params] has a key that is
    not excluded and a configured value that counts as true, and its value
    is the configured one, or the one element of a configured list under a
    hyperparameter key, or, for [result_dir] and [output_dir], the
    configured directory joined with the identifier of the search.  No
    search control ([search_type], [max_jobs], [rerun], ...) and no value
    that counts as false is passed on. *)
Theorem fixed_parameters_come_from_the_configuration
    (strategy : SearchStrategy) (params : Dict.t pyval) (uuid : string)
    (s : search) (key : string) (v : pyval) :
  generate_param_combos (init params uuid) = Ok s ->
  Dict.get (new_params s) key = Some v ->
  FixedSpec.from_configuration params uuid key v.
Proof.
  intros Hrun.
  apply (@FixedFacts.generate_param_combos_fixed params uuid strategy) in Hrun.
  - destruct Hrun as [_ Hall]. apply Hall.
  - reflexivity.
  - split; [reflexivity|]. intros k v'. discriminate.
Qed.

Lemma fixed_parameters_come_from_the_configuration_witness :
  FixedSpec.from_configuration Scenario.two_kinds_config "run" "result_dir"
    (PStr "/results/run").
Proof.
  apply (@fixed_parameters_come_from_the_configuration Scenario.verbatim
           Scenario.two_kinds_config "run"
           {| params :=
                [("result_dir", PStr "/results");
                 ("collection_name", PStr "models");
                 ("model_type", PList [PStr "NN"; PStr "RF"]);
                 ("featurizer", PList [PStr "ecfp"]);
                 ("learning_rate", PList [PFloat 0.125; PFloat 0.25]);
                 ("rf_estimators", PList [PInt 100; PInt 200]);
                 ("layer_sizes", PList [PList [PInt 8; PInt 4]]);
                 ("dropouts", PList [PList [PFloat 0.5; PFloat 0.5]]);
                 ("rerun", PBool true);
                 ("max_jobs", PInt 4)]%string;
              hyperparam_uuid := "run";
              hyperparam_keys :=
                names_add (names_remove initial_hyperparam_keys "featurizer")
                  "layers";
              hyperparams :=
                [("model_type", PList [PStr "NN"; PStr "RF"]);
                 ("learning_rate", PList [PFloat 0.125; PFloat 0.25]);
                 ("rf_estimators", PList [PInt 100; PInt 200]);
                 ("layers", PList [Scenario.two_kinds_layers])]%string;
              new_params := Dispatch.new_params Scenario.two_kinds;
              layers :=
                [("layer_sizes", PList [PList [PInt 8; PInt 4]]);
                 ("dropouts", PList [PList [PFloat 0.5; PFloat 0.5]])]%string;
              param_combos := Dispatch.param_combos Scenario.two_kinds |}
           "result_dir" (PStr "/results/run")).
  - vm_compute. reflexivity.
  - reflexivity.
Defined.

(** ** A size that cannot be computed *)

Import Dispatch.

(** A network candidate on descriptors of a type other than ['moe'] and
    ['mordred_filtered'], for a dataset whose number of rows is known,
    ends the loop over the combinations with [TypeError]: the size filter
    multiplies the [None] that [get_num_params] returns.  Nothing is
    asked, polled or submitted for it, and the combinations after it are
    not looked at. *)
Theorem unlisted_descriptor_type_ends_the_sweep
    (get_metadata : nat -> Dict.t pyval -> pyval -> result (list pyval))
    (uuid4 : nat -> string) (scaled_ge : Z -> pyval -> result bool)
    (self : dispatcher) (base_result_dir : string)
    (assay_params assay_params' combo : Dict.t pyval)
    (later : list (Dict.t pyval))
    (descriptor_type rows : pyval) (key : string) (first : Z) (rest : list Z)
    (w : world) :
  for_each overlay_entry combo assay_params = Ok assay_params' ->
  Dict.get assay_params' "model_type" = Some (PStr "NN") ->
  Dict.get assay_params' "featurizer" = Some (PStr "descriptors") ->
  Dict.get assay_params' "descriptor_type" = Some descriptor_type ->
  eq_str descriptor_type "moe" = false ->
  eq_str descriptor_type "mordred_filtered" = false ->
  Dict.get assay_params' "layer_sizes" = Some (PList (map PInt (first :: rest))) ->
  Dict.get assay_params' "dataset_key" = Some (PStr key) ->
  Dict.get (num_rows w) key = Some rows ->
  for_loop (submit_combo get_metadata uuid4 scaled_ge self base_result_dir)
    (combo :: later) assay_params w
  = Raised TypeError w.
Proof.
  intros Hoverlay Hmodel Hfeat Hdt Hmoe Hmordred Hlayers Hkey Hrows.
  cbn [for_loop]. unfold bind at 1. unfold submit_combo.
  rewrite Hoverlay. cbn [lift]. unfold bind at 1. cbn [ret].
  unfold bind at 1. unfold too_large, Dict.getitem.
  rewrite Hmodel. cbn [lift]. unfold bind at 1. cbn [ret eq_str String.eqb
    Ascii.eqb Bool.eqb].
  rewrite Hfeat. cbn [lift]. unfold bind at 1.
  cbn [ret eq_str String.eqb Ascii.eqb Bool.eqb negb].
  rewrite Hkey. cbn [lift]. unfold bind at 1. cbn [ret].
  unfold bind at 1. unfold read_num_rows. rewrite Hrows.
  rewrite (@NumParamsFacts.get_num_params_unfold assay_params' first rest
             (PStr "descriptors") Hlayers Hfeat).
  cbn [eq_str String.eqb Ascii.eqb Bool.eqb]. rewrite Hdt, Hmoe, Hmordred.
  reflexivity.
Qed.

Lemma unlisted_descriptor_type_ends_the_sweep_witness :
  let combo :=
    [("model_type", PStr "NN"); ("featurizer", PStr "descriptors");
     ("descriptor_type", PStr "rdkit_raw");
     ("layer_sizes", PList [PInt 10; PInt 5])]%string in
  let w :=
    {| num_rows := [("data/assay.csv"%string, PInt 120)]; squeue := [0];
       keyval_calls := 1; tracker_calls := 0; shortlist_calls := 0;
       uuids_drawn := 0; trace := [] |} in
  for_loop
    (submit_combo Scenario.tracker_empty Scenario.uuid4 Scenario.scaled_ge
       Scenario.one_combo "/results/run/assay")
    [combo; Scenario.rf_combo 100] Scenario.candidate w
  = Raised TypeError w.
Proof.
  intros combo w.
  apply (@unlisted_descriptor_type_ends_the_sweep Scenario.tracker_empty
           Scenario.uuid4 Scenario.scaled_ge Scenario.one_combo
           "/results/run/assay" Scenario.candidate
           [("result_dir", PStr "/results/run");
            ("collection_name", PStr "models");
            ("dataset_key", PStr "data/assay.csv");
            ("dataset_name", PStr "assay");
            ("bucket", PStr "public"); ("split_uuid", PStr "split-1");
            ("previously_split", PBool true); ("splitter", PStr "scaffold");
            ("model_type", PStr "NN"); ("featurizer", PStr "descriptors");
            ("descriptor_type", PStr "rdkit_raw");
            ("layer_sizes", PList [PInt 10; PInt 5])]%string
           combo [Scenario.rf_combo 100] (PStr "rdkit_raw") (PInt 120)
           "data/assay.csv" 10 [5] w);
    reflexivity.
Defined.

(** ** The list of assays *)

Module ResolverFacts.

Import AssayResolver ResolverSpec.

Section Resolver.

Variable params : Dict.t pyval.
Variable return_split_uuid : nat -> pyval -> pyval -> result pyval.

Local Abbreviation resolve := (AssayResolver.resolve params return_split_uuid).



Lemma map_result_app {A B : Type} (f : A -> result B) xs1 xs2 ys :
  map_result f (xs1 ++ xs2) = Ok ys ->
  exists ys1 ys2,
    map_result f xs1 = Ok ys1 /\ map_result f xs2 = Ok ys2
    /\ ys = ys1 ++ ys2.
Proof.
  revert ys. induction xs1 as [|x xs1 IH]; intros ys; simpl.
  - intros H. exists [], ys. auto.
  - destruct (f x) as [y|e]; cbn [rbind]; [|discriminate].
    destruct (map_result f (xs1 ++ xs2)) as [ys'|e] eqn:E; cbn [rbind];
      [|discriminate].
    intros [= <-]. destruct (IH _ eq_refl) as (ys1 & ys2 & -> & -> & ->).
    exists (y :: ys1), ys2. auto.
Qed.


Lemma for_loop_app {S A : Type} (body : S -> A -> E S) xs ys s l :
  for_loop body (xs ++ ys) s l
  = bind (for_loop body xs s) (for_loop body ys) l.
Proof.
  revert s l. unfold bind.
  induction xs as [|x xs IH]; intros s l; [reflexivity|].
  cbn [app for_loop]. unfold bind.
  destruct (body s x l) as [s1 l1|e l1|c l1]; [|reflexivity|reflexivity].
  apply IH.
Qed.

(** The loop while [return_split_uuid] answers. *)
Lemma loop_answered dataset_key bucket splitters :
  already_split params = false ->
  Dict.get params "dataset_key" = Some dataset_key ->
  Dict.get params "bucket" = Some bucket ->
  forall uuids assays l,
    answered return_split_uuid (split_calls l) dataset_key splitters uuids ->
    for_loop resolve splitters assays l
    = Returned
        (assays
         ++ map (fun su => (dataset_key, bucket, fst su, snd su))
              (combine splitters uuids))
        {| split_calls := (split_calls l + List.length splitters)%nat;
           printed := printed l |}.
Proof.
  intros Hsplit Hdk Hbk.
  induction splitters as [|splitter splitters IH]; intros uuids assays l Hans.
  - destruct uuids; [|contradiction]. cbn. rewrite app_nil_r, Nat.add_0_r.
    now destruct l.
  - destruct uuids as [|u uuids]; [contradiction|].
    destruct Hans as [Hu Hans].
    cbn [for_loop]. unfold bind at 1.
    unfold AssayResolver.resolve at 1. rewrite Hsplit.
    unfold attribute, bind, try_except, call_return_split_uuid.
    rewrite Hdk. cbn [lift ret]. rewrite Hu, Hbk. cbn [lift ret].
    rewrite IH with (uuids := uuids) by exact Hans.
    cbn [split_calls printed combine map fst snd List.length].
    rewrite <- app_assoc. cbn [app]. f_equal. f_equal. lia.
Qed.



End Resolver.

End ResolverFacts.

Import AssayResolver.



(** When [return_split_uuid] raises, [generate_assay_list] prints the
    exception and the traceback and ends the process with status 1; the
    splitters after the one that failed are not tried. *)
Theorem generate_assay_list_exits_when_a_split_fails
    (params : Dict.t pyval)
    (return_split_uuid : nat -> pyval -> pyval -> result pyval)
    (get_shortlist_df : shortlist) (use_shortlist dataset_key bucket : pyval)
    (before after uuids : list pyval) (splitter : pyval) (e : pyexn)
    (l : log) :
  Dict.get params "use_shortlist" = Some use_shortlist ->
  truthy use_shortlist = false ->
  already_split params = false ->
  AssayResolver.splitters params = Ok (before ++ splitter :: after) ->
  Dict.get params "dataset_key" = Some dataset_key ->
  Dict.get params "bucket" = Some bucket ->
  ResolverSpec.answered return_split_uuid (split_calls l) dataset_key
    before uuids ->
  return_split_uuid (split_calls l + List.length before)%nat dataset_key
    splitter
  = Raise e ->
  generate_assay_list params return_split_uuid get_shortlist_df l
  = Exiting 1
      {| split_calls := S (split_calls l + List.length before)%nat;
         printed := printed l ++ [PrintException e; PrintTraceback] |}.
Proof.
  intros Huse Hfalsy Hsplit Hsplitters Hdk Hbk Hans Hfail.
  unfold generate_assay_list, attribute.
  rewrite Huse. cbn [lift]. unfold bind at 1. cbn [ret]. rewrite Hfalsy.
  cbn [negb]. unfold bind at 1. unfold bind at 1.
  rewrite Hsplitters. cbn [lift ret].
  rewrite ResolverFacts.for_loop_app. unfold bind at 1.
  rewrite (@ResolverFacts.loop_answered params return_split_uuid _ _ _ Hsplit Hdk
             Hbk _ _ _ Hans).
  cbn [for_loop]. unfold bind at 1.
  unfold resolve at 1. rewrite Hsplit.
  unfold attribute, bind, try_except, call_return_split_uuid.
  rewrite Hdk. cbn [lift ret split_calls]. rewrite Hfail.
  cbv [print sys_exit]. cbn [split_calls printed].
  rewrite <- app_assoc. reflexivity.
Qed.

Lemma generate_assay_list_exits_when_a_split_fails_witness :
  generate_assay_list
    [("use_shortlist", PBool false);
     ("splitter", PList [PStr "scaffold"; PStr "random"; PStr "fingerprint"]);
     ("dataset_key", PStr "data/assay.csv"); ("bucket", PStr "public")]%string
    (fun n _ _ => if Nat.eqb n 0 then Ok (PStr "split-1") else Raise RuntimeError)
    NoList fresh_log
  = Exiting 1
      {| split_calls := 2;
         printed := [PrintException RuntimeError; PrintTraceback] |}.
Proof.
  apply (@generate_assay_list_exits_when_a_split_fails
           [("use_shortlist", PBool false);
            ("splitter", PList [PStr "scaffold"; PStr "random"; PStr "fingerprint"]);
            ("dataset_key", PStr "data/assay.csv"); ("bucket", PStr "public")]%string
           (fun n _ _ => if Nat.eqb n 0 then Ok (PStr "split-1") else Raise RuntimeError)
           NoList (PBool false) (PStr "data/assay.csv") (PStr "public")
           [PStr "scaffold"] [PStr "fingerprint"] [PStr "split-1"]
           (PStr "random") RuntimeError fresh_log);
    try reflexivity.
  split; [reflexivity|exact I].
Defined.



(** ** From the permutator to the bundles *)

Module GroupFacts.

Import Permutator Builder LayersSpec GroupSpec.

Lemma seq_nth_combine {A B : Type} (da : A) (db : B) :
  forall (xs : list A) (ys : list B),
    List.length xs = List.length ys ->
    map (fun i => (nth i xs da, nth i ys db)) (seq 0 (List.length xs))
    = combine xs ys.
Proof.
  induction xs as [|x xs IH]; intros [|y ys] Hlen; try discriminate;
    [reflexivity|].
  cbn [List.length seq map combine nth]. f_equal.
  rewrite <- seq_shift, map_map. apply IH. simpl in Hlen. congruence.
Qed.

(** The permutator returns as many dropout lists as topologies, each as
    long as its topology. *)
Lemma permutate_lengths (D : Type) layer_nums node_nums
    (dropout_list : list D) max_final_layer_size sizes drops :
  permutate_NNlayer_combo_params layer_nums node_nums dropout_list
    max_final_layer_size = Ok (sizes, drops) ->
  Forall2 (fun layer ds => List.length ds = List.length layer) sizes drops.
Proof.
  unfold permutate_NNlayer_combo_params.
  destruct (py_last _) as [smallest|e]; [|discriminate]. cbn [rbind].
  destruct (for_each _ dropout_list _) as [a|e] eqn:E; [|discriminate].
  cbn [rbind]. intros [= <- <-].
  assert (Hshape : PermutatorSpec.well_shaped dropout_list a).
  { revert E. apply for_each_invariant
      with (P := PermutatorSpec.well_shaped dropout_list)
           (Q := fun d => In d dropout_list);
      [| apply Forall_forall; auto | constructor].
    intros s d s' Hs Hd. apply PermutatorFacts.visit_dropout_keeps; auto.
    apply PermutatorFacts.descending_rev, PermutatorFacts.np_sort_sorted. }
  eapply Forall2_impl; [|exact Hshape].
  intros layer ds (_ & d & _ & ->). apply repeat_length.
Qed.

Lemma filter_all {A : Type} (f : A -> bool) (l : list A) :
  Forall (fun x => f x = true) l -> filter f l = l.
Proof.
  induction 1 as [|x l Hx _ IH]; simpl; [reflexivity|]. now rewrite Hx, IH.
Qed.

Lemma nth_aligned (sizes : list (list Z)) (drops : list (list pyval)) :
  Forall2 (fun layer ds => List.length ds = List.length layer) sizes drops ->
  forall i,
    List.length (nth i (map (map PInt) sizes) [])
    = List.length (nth i drops []).
Proof.
  induction 1 as [|layer ds sizes drops Hld _ IH]; intros [|i]; simpl; auto.
  now rewrite length_map.
Qed.

(** Every position of the permuted table is kept: the bundles are the
    pairs of the permutator, in order. *)
Lemma bundles_of_permuted sizes drops :
  Forall2 (fun layer ds => List.length ds = List.length layer) sizes drops ->
  layer_bundles (encode (permuted sizes drops))
  = Ok (map bundle (combine sizes drops)).
Proof.
  intros Haligned. pose proof (Forall2_length Haligned) as Hlen.
  set (t := permuted sizes drops).
  assert (Hpos : positions t = List.length sizes).
  { unfold positions, t, permuted. cbn [map snd fold_left].
    rewrite length_map. lia. }
  unfold layer_bundles. rewrite LayersFacts.lengths_of_encode.
  cbn [rbind]. unfold t at 1, permuted at 1. cbn [map snd py_min fold_left].
  rewrite length_map. replace (Nat.min _ _) with (List.length sizes) by lia.
  cbn [rbind].
  rewrite LayersFacts.positions_loop; cycle 1.
  - repeat constructor; simpl; intuition discriminate.
  - apply Forall_forall. intros i Hi. apply in_seq in Hi. lia.
  - cbn [app]. f_equal. rewrite filter_all.
    + rewrite <- (seq_nth_combine [] [] sizes drops Hlen), map_map.
      apply map_ext. intros i.
      unfold bundle_at, t, permuted, bundle, constituent.
      cbn [map fst snd]. do 3 f_equal.
      change (@nil pyval) with (map PInt []). apply map_nth.
    + apply Forall_forall. intros i Hi.
      unfold uniformb, t, permuted, constituent, assert_same_length.
      cbn [map snd List.length count_occ].
      rewrite (nth_aligned Haligned i).
      destruct (Nat.eq_dec _ _) as [_|Hne]; [reflexivity|congruence].
Qed.

End GroupFacts.

Import Permutator Builder.

(** No permutation is lost between the permutator and the bundles: with
    the two lists [permutate_NNlayer_combo_params] returns as the layer
    group ([layer_sizes] and [dropouts], as [__init__] sets them),
    [assemble_layers] does not raise and makes one [layers] bundle per
    topology, in the order of the permutator, each holding the topology
    and the dropouts returned with it. *)
Theorem every_permutation_becomes_a_bundle
    (layer_nums node_nums : list Z) (dropout_list : list pyval)
    (max_final_layer_size : Z) (sizes : list (list Z))
    (drops : list (list pyval)) (s : search) :
  permutate_NNlayer_combo_params layer_nums node_nums dropout_list
    max_final_layer_size = Ok (sizes, drops) ->
  layers s = LayersSpec.encode (GroupSpec.permuted sizes drops) ->
  exists s',
    assemble_layers s = Ok s'
    /\ Dict.get (hyperparams s') "layers"
       = Some (PList (map PDict (map GroupSpec.bundle (combine sizes drops)))).
Proof.
  intros Hperm Hlayers. unfold assemble_layers.
  rewrite Hlayers,
    (GroupFacts.bundles_of_permuted
       (@GroupFacts.permutate_lengths _ _ _ _ _ _ _ Hperm)).
  cbn [rbind]. eexists. split; [reflexivity|].
  cbn [hyperparams set_hyperparam_keys set_hyperparam].
  apply DictFacts.get_set_same.
Qed.

Lemma every_permutation_becomes_a_bundle_witness :
  let sizes := [[16; 4]; [8; 4]; [16; 8; 4]] in
  let drops :=
    [[PFloat 0.5; PFloat 0.5]; [PFloat 0.5; PFloat 0.5];
     [PFloat 0.5; PFloat 0.5; PFloat 0.5]] in
  let s :=
    {| params := []; hyperparam_uuid := "run";
       hyperparam_keys := initial_hyperparam_keys; hyperparams := [];
       new_params := [];
       layers := LayersSpec.encode (GroupSpec.permuted sizes drops);
       param_combos := [] |} in
  exists s',
    assemble_layers s = Ok s'
    /\ Dict.get (hyperparams s') "layers"
       = Some (PList (map PDict (map GroupSpec.bundle (combine sizes drops)))).
Proof.
  intros sizes drops s.
  apply (@every_permutation_becomes_a_bundle [2; 3] [4; 8; 16] [PFloat 0.5] 5
           sizes drops s); reflexivity.
Defined.

(** ** Only candidates that pass the size filter *)

Module SizeFacts.

Import Dispatch Trace Audit SizeSpec.

Section Filter.

Variable get_keyval : nat -> pyval -> pyval -> result pyval.
Variable get_metadata : nat -> Dict.t pyval -> pyval -> result (list pyval).
Variable uuid4 : nat -> string.
Variable scaled_ge : Z -> pyval -> result bool.

Local Abbreviation size_test := (SizeSpec.size_test scaled_ge).
Local Abbreviation feasible := (SizeSpec.feasible scaled_ge).

(** The filter reads the world and leaves it alone. *)
Lemma too_large_is_size_test assay_params w :
  too_large scaled_ge assay_params w
  = lift (size_test (num_rows w) assay_params) w.
Proof.
  unfold too_large, SizeSpec.size_test, Dict.getitem, bind, read_num_rows.
  destruct (Dict.get assay_params "model_type") as [model_type|];
    [|reflexivity].
  cbn [lift ret rbind]. destruct (eq_str model_type "NN"); [|reflexivity].
  destruct (Dict.get assay_params "featurizer") as [featurizer|];
    [|reflexivity].
  cbn [lift ret rbind].
  destruct (negb (eq_str featurizer "graphconv")); [|reflexivity].
  destruct (Dict.get assay_params "dataset_key") as [dataset_key|];
    [|reflexivity].
  cbn [lift ret rbind]. destruct dataset_key; try reflexivity.
  destruct (Dict.get (num_rows w) s) as [rows|]; [|reflexivity].
  destruct (NumParams.get_num_params assay_params) as [num_params|e];
    [|reflexivity].
  cbn [lift ret rbind]. destruct num_params; reflexivity.
Qed.

Lemma too_large_same_rows assay_params w w' b :
  num_rows w' = num_rows w ->
  too_large scaled_ge assay_params w = Done b w ->
  too_large scaled_ge assay_params w' = Done b w'.
Proof.
  intros Hrows. rewrite !too_large_is_size_test, Hrows.
  destruct (size_test (num_rows w) assay_params) as [b'|e]; cbn;
    [|discriminate].
  now intros [= ->].
Qed.

(** The result directory is not among the things the filter reads. *)
Lemma size_test_result_dir rows assay_params v :
  size_test rows (Dict.set assay_params "result_dir" v)
  = size_test rows assay_params.
Proof.
  unfold SizeSpec.size_test, NumParams.get_num_params, Dict.getitem.
  now rewrite !DictFacts.get_set_other by discriminate.
Qed.

Lemma feasible_refl w : feasible w w.
Proof.
  split; [reflexivity|]. exists []. rewrite app_nil_r. split; constructor.
Qed.

Lemma feasible_trans w1 w2 w3 :
  feasible w1 w2 -> feasible w2 w3 -> feasible w1 w3.
Proof.
  intros (Hr1 & evs1 & Ht1 & Hj1) (Hr2 & evs2 & Ht2 & Hj2).
  split; [congruence|]. exists (evs1 ++ evs2).
  split; [rewrite Ht2, Ht1, app_assoc; reflexivity|].
  rewrite StepFacts.submitted_app. apply Forall_app. split; [exact Hj1|].
  eapply Forall_impl; [|exact Hj2].
  intros job Hjob. apply too_large_same_rows with (w := w2); auto.
Qed.

(** A step that submits nothing and records no row count. *)
Lemma idle_feasible {A : Type} (m : M A) :
  appends quiet m -> Audit.steps (same num_rows) m ->
  Audit.steps feasible m.
Proof.
  intros Hquiet Hsame w. split; [apply Hsame|].
  destruct (Hquiet w) as (evs & Htrace & Hq). exists evs.
  split; [exact Htrace|]. rewrite (StepFacts.submitted_quiet Hq). constructor.
Qed.

Section Loop.

Variable self : dispatcher.

Lemma is_duplicate_same_rows assay_params :
  Audit.steps (same num_rows) (is_duplicate get_metadata self assay_params).
Proof.
  unfold is_duplicate. destruct (rerun self).
  - apply StepFacts.steps_ret. apply StepFacts.same_refl.
  - apply StepFacts.already_run_stays; intros; reflexivity.
Qed.

(** The duplicate check and the submission of a candidate that has
    passed the filter. *)
Lemma feasible_submission {B : Type} assay_params (k : bool -> M B) w :
  size_test (num_rows w) assay_params = Ok false ->
  appends quiet (k true) ->
  appends (submission_of assay_params) (k false) ->
  (forall dup, Audit.steps (same num_rows) (k dup)) ->
  feasible w
    (world_of (bind (is_duplicate get_metadata self assay_params) k w)).
Proof.
  intros Htest Hskip Hsubmit Hrows. unfold bind.
  pose proof (is_duplicate_same_rows assay_params w) as Hr0.
  destruct (DispatchFacts.is_duplicate_quiet get_metadata self assay_params w)
    as (evs0 & Ht0 & Hq0).
  destruct (is_duplicate get_metadata self assay_params w)
    as [dup w1|e w1|c w1|w1]; cbn [world_of] in *;
    try (split; [exact Hr0|]; exists evs0; split; [exact Ht0|];
         rewrite (StepFacts.submitted_quiet Hq0); constructor).
  pose proof (Hrows dup w1) as Hr1. unfold same in Hr0, Hr1.
  split; [congruence|].
  destruct dup.
  - destruct (Hskip w1) as (evs1 & Ht1 & Hq1). exists (evs0 ++ evs1).
    split; [rewrite Ht1, Ht0, app_assoc; reflexivity|].
    rewrite StepFacts.submitted_app, (StepFacts.submitted_quiet Hq0),
      (StepFacts.submitted_quiet Hq1). constructor.
  - destruct (Hsubmit w1) as (evs1 & Ht1 & before & Hpassive & Hevs).
    exists (evs0 ++ evs1).
    split; [rewrite Ht1, Ht0, app_assoc; reflexivity|].
    rewrite StepFacts.submitted_app, (StepFacts.submitted_quiet Hq0).
    cbn [app].
    destruct Hevs as [->|(v & ->)].
    + rewrite (StepFacts.submitted_quiet (AuditFacts.passive_quiet Hpassive)).
      constructor.
    + rewrite StepFacts.submitted_app,
        (StepFacts.submitted_quiet (AuditFacts.passive_quiet Hpassive)).
      cbn [app submitted]. constructor; [|constructor].
      rewrite too_large_is_size_test, size_test_result_dir, Htest.
      reflexivity.
Qed.

Lemma submit_same_rows base_result_dir assay_params :
  Audit.steps (same num_rows) (submit uuid4 base_result_dir assay_params).
Proof. intros w. reflexivity. Qed.

Lemma wait_then_submit_same_rows base_result_dir assay_params :
  Audit.steps (same num_rows)
    (bind (wait_for_queue (max_jobs self))
       (fun _ => submit uuid4 base_result_dir assay_params)).
Proof.
  apply StepFacts.steps_bind.
  - apply StepFacts.same_trans.
  - apply StepFacts.wait_for_queue_stays. intros; reflexivity.
  - intros _. apply submit_same_rows.
Qed.

Lemma submit_combo_feasible base_result_dir assay_params combo :
  Audit.steps feasible
    (submit_combo get_metadata uuid4 scaled_ge self base_result_dir
       assay_params combo).
Proof.
  intros w. unfold submit_combo. unfold bind at 1.
  destruct (for_each overlay_entry combo assay_params) as [assay_params'|e];
    cbn [lift ret raise world_of]; [|apply feasible_refl].
  unfold bind at 1. rewrite too_large_is_size_test.
  destruct (size_test (num_rows w) assay_params') as [[|]|e] eqn:Etest;
    cbn [lift ret raise world_of]; try apply feasible_refl.
  apply feasible_submission.
  - exact Etest.
  - apply DispatchFacts.appends_ret. constructor.
  - apply AuditFacts.wait_then_submit.
  - intros [|].
    + apply StepFacts.steps_ret. apply StepFacts.same_refl.
    + apply wait_then_submit_same_rows.
Qed.

Lemma submit_assay_feasible base_result_dir assay_params :
  Audit.steps feasible
    (submit_assay get_metadata uuid4 scaled_ge self base_result_dir
       assay_params).
Proof.
  intros w. unfold submit_assay. unfold bind at 1.
  rewrite too_large_is_size_test.
  destruct (size_test (num_rows w) assay_params) as [[|]|e] eqn:Etest;
    cbn [lift ret raise world_of]; try apply feasible_refl.
  apply feasible_submission.
  - exact Etest.
  - apply DispatchFacts.appends_ret. constructor.
  - apply AuditFacts.submit_assay_tail.
  - intros [|].
    + apply StepFacts.steps_ret. apply StepFacts.same_refl.
    + apply StepFacts.steps_bind.
      * apply StepFacts.same_trans.
      * apply submit_same_rows.
      * intros _. apply StepFacts.steps_ret. apply StepFacts.same_refl.
Qed.

(** What follows the read of the metadata in one turn of the loop over
    the assays. *)
Lemma candidates_feasible assay_params :
  Audit.steps feasible
    (bind (lift (Dict.getitem assay_params "result_dir")) (fun result_dir =>
     bind (lift (Dict.getitem assay_params "dataset_name")) (fun dataset_name =>
     bind (lift (join_values result_dir dataset_name)) (fun base_result_dir =>
     match param_combos self with
     | [] =>
         submit_assay get_metadata uuid4 scaled_ge self base_result_dir
           assay_params
     | _ :: _ =>
         bind (for_loop
                 (submit_combo get_metadata uuid4 scaled_ge self
                    base_result_dir)
                 (param_combos self) assay_params)
           (fun _ => ret tt)
     end)))).
Proof.
  do 3 (apply StepFacts.steps_bind;
        [apply feasible_trans
        | apply StepFacts.steps_lift, feasible_refl | intros ?]).
  destruct (param_combos self) as [|combo combos].
  - apply submit_assay_feasible.
  - apply StepFacts.steps_bind;
      [apply feasible_trans | | intros _;
       apply StepFacts.steps_ret, feasible_refl].
    apply StepFacts.steps_for_loop;
      [apply feasible_refl | apply feasible_trans |].
    intros s x. apply submit_combo_feasible.
Qed.

End Loop.

End Filter.

End SizeFacts.

Import Dispatch.

(** In one turn of the loop of [submit_jobs] over the assays, every job
    handed to the batch system has passed the size filter: with the row
    counts as the turn leaves them, [too_large] answers [False] for the
    settings the job was submitted with.  A neural network whose
    parameter count the filter rejects for its dataset is never
    submitted, whether the assay is taken on its own or with the
    combinations. *)
Theorem submitted_jobs_passed_the_size_filter
    (get_keyval : nat -> pyval -> pyval -> result pyval)
    (get_metadata : nat -> Dict.t pyval -> pyval -> result (list pyval))
    (uuid4 : nat -> string) (scaled_ge : Z -> pyval -> result bool)
    (self : dispatcher) (u : unit) (a : string * string * string * string)
    (w : world) :
  exists evs,
    trace (Trace.world_of
             (submit_for_assay get_keyval get_metadata uuid4 scaled_ge self
                u a w))
    = trace w ++ evs
    /\ Forall
         (fun job =>
            too_large scaled_ge job
              (Trace.world_of
                 (submit_for_assay get_keyval get_metadata uuid4 scaled_ge
                    self u a w))
            = Done false
                (Trace.world_of
                   (submit_for_assay get_keyval get_metadata uuid4 scaled_ge
                      self u a w)))
         (Trace.submitted evs).
Proof.
  remember (submit_for_assay get_keyval get_metadata uuid4 scaled_ge self
              u a w) as o eqn:Eo.
  unfold submit_for_assay in Eo. unfold bind at 1 in Eo.
  destruct (@DispatchFacts.appends_try_except Trace.quiet _
              (get_dataset_metadata get_keyval (hyperparam_uuid self)
                 (assay_base self a))
              (DispatchFacts.get_dataset_metadata_quiet get_keyval
                 (hyperparam_uuid self) (assay_base self a)) w)
    as (evs0 & Ht0 & Hq0).
  destruct (try_except _ w) as [[assay_params|e] w1|e w1|c w1|w1];
    subst o; cbn [Trace.world_of] in *.
  - destruct (SizeFacts.candidates_feasible get_metadata uuid4 scaled_ge self
                assay_params w1) as (Hrows & evs1 & Ht1 & Hjobs).
    exists (evs0 ++ evs1).
    split; [rewrite Ht1, Ht0, app_assoc; reflexivity|].
    rewrite StepFacts.submitted_app, (StepFacts.submitted_quiet Hq0).
    cbn [app]. eapply Forall_impl; [|exact Hjobs].
    intros job Hjob.
    exact (@SizeFacts.too_large_same_rows scaled_ge job w1 _ false Hrows Hjob).
  - exists (evs0 ++ [Print (MsgException e); Print MsgTraceback]).
    split; [cbn; rewrite Ht0, <- !app_assoc; reflexivity|].
    rewrite StepFacts.submitted_app, (StepFacts.submitted_quiet Hq0).
    constructor.
  - exists evs0. split; [exact Ht0|].
    rewrite (StepFacts.submitted_quiet Hq0). constructor.
  - exists evs0. split; [exact Ht0|].
    rewrite (StepFacts.submitted_quiet Hq0). constructor.
  - exists evs0. split; [exact Ht0|].
    rewrite (StepFacts.submitted_quiet Hq0). constructor.
Qed.

(** ** Ranges and their samplers *)

Module RangeFacts.

Import Strategies.

Section Sampled.

Variable convert_to_int : list string.
Variable py_int : pyval -> result pyval.
Variable sampler : nat -> pyval -> pyval -> pyval -> result (list pyval).

Local Abbreviation sampled_entry :=
  (Strategies.sampled_entry convert_to_int py_int sampler).

(** The entry of a range: a key other than ['layers'], outside
    [convert_to_int], whose value starts with something that is not a
    string. *)
Lemma range_entry n new_dict key value v0 st' :
  key <> "layers"%string ->
  name_in key convert_to_int = false ->
  py_index value 0 = Ok v0 ->
  is_str v0 = false ->
  sampled_entry (n, new_dict) (key, value) = Ok st' ->
  exists v1 v2 samples,
    py_index value 1 = Ok v1 /\ py_index value 2 = Ok v2
    /\ sampler n v0 v1 v2 = Ok samples
    /\ st' = (S n, Dict.set new_dict key (PList samples)).
Proof.
  intros Hkey Hint H0 Hstr. unfold Strategies.sampled_entry.
  destruct (is_iterable value); cbn [negb]; [|discriminate].
  destruct (String.eqb_spec key "layers") as [Hl|_]; [contradiction|].
  rewrite H0. cbn [rbind]. rewrite Hstr. cbn [negb].
  destruct (py_index value 1) as [v1|e]; cbn [rbind]; [|discriminate].
  destruct (py_index value 2) as [v2|e]; cbn [rbind]; [|discriminate].
  destruct (sampler n v0 v1 v2) as [samples|e] eqn:Es; cbn [rbind];
    [|discriminate].
  rewrite Hint. intros [= <-]. exists v1, v2, samples. auto.
Qed.

(** Every entry counts as one call position. *)
Lemma sampled_entry_counts st kv st' :
  sampled_entry st kv = Ok st' -> fst st' = S (fst st).
Proof.
  destruct st as [n new_dict], kv as [key value].
  unfold Strategies.sampled_entry.
  destruct (is_iterable value); cbn [negb]; [|discriminate].
  destruct (String.eqb key "layers"); [now intros [= <-]|].
  destruct (py_index value 0) as [v0|e]; cbn [rbind]; [|discriminate].
  destruct (is_str v0); cbn [negb]; [now intros [= <-]|].
  destruct (py_index value 1) as [v1|e]; cbn [rbind]; [|discriminate].
  destruct (py_index value 2) as [v2|e]; cbn [rbind]; [|discriminate].
  destruct (sampler n v0 v1 v2) as [samples|e]; cbn [rbind]; [|discriminate].
  destruct (name_in key convert_to_int); [|now intros [= <-]].
  destruct (map_result py_int samples) as [ints|e]; cbn [rbind];
    [|discriminate].
  now intros [= <-].
Qed.

(** The entries that follow leave the other names alone. *)
Lemma later_entries_keep key :
  forall entries st st',
    for_each sampled_entry entries st = Ok st' ->
    ~ In key (Dict.keys entries) ->
    Dict.get (snd st') key = Dict.get (snd st) key.
Proof.
  induction entries as [|kv entries IH]; intros st st'; simpl.
  - now intros [= <-].
  - destruct (sampled_entry st kv) as [st1|e] eqn:E; [|discriminate].
    intros Hrest Hnot.
    destruct (@StrategyFacts.sampled_entry_sets _ _ _ _ _ _ E)
      as (v' & Hset & _).
    rewrite (IH _ _ Hrest) by tauto. rewrite Hset.
    apply DictFacts.get_set_other. tauto.
Qed.

(** The range at position [n] of the dictionary is sampled at the [n]-th
    call position, and its samples are what the result holds. *)
Lemma range_in_loop key value v0 :
  key <> "layers"%string ->
  name_in key convert_to_int = false ->
  py_index value 0 = Ok v0 ->
  is_str v0 = false ->
  forall entries n st st',
    NoDup (Dict.keys entries) ->
    nth_error entries n = Some (key, value) ->
    for_each sampled_entry entries st = Ok st' ->
    exists v1 v2 samples,
      py_index value 1 = Ok v1 /\ py_index value 2 = Ok v2
      /\ sampler (fst st + n) v0 v1 v2 = Ok samples
      /\ Dict.get (snd st') key = Some (PList samples).
Proof.
  intros Hkey Hint H0 Hstr.
  induction entries as [|kv entries IH]; intros [|n] st st' Hnd Hnth;
    simpl in Hnth; try discriminate.
  - injection Hnth as ->. simpl. destruct st as [n0 new_dict].
    destruct (sampled_entry (n0, new_dict) (key, value)) as [st1|e] eqn:E;
      [|discriminate].
    intros Hrest.
    destruct (@range_entry _ _ _ _ _ _ Hkey Hint H0 Hstr E)
      as (v1 & v2 & samples & H1 & H2 & Hs & ->).
    exists v1, v2, samples. cbn [fst]. rewrite Nat.add_0_r.
    repeat split; try assumption.
    rewrite (@later_entries_keep key _ _ _ Hrest).
    + apply DictFacts.get_set_same.
    + simpl in Hnd. now apply NoDup_cons_iff in Hnd.
  - simpl. destruct (sampled_entry st kv) as [st1|e] eqn:E; [|discriminate].
    intros Hrest. simpl in Hnd. apply NoDup_cons_iff in Hnd.
    destruct (IH n st1 st' (proj2 Hnd) Hnth Hrest)
      as (v1 & v2 & samples & H1 & H2 & Hs & Hget).
    exists v1, v2, samples. repeat split; try assumption.
    rewrite (@sampled_entry_counts _ _ _ E) in Hs.
    now rewrite Nat.add_succ_r.
Qed.


End Sampled.

End RangeFacts.

Import Strategies.

(** The sampled strategies (grid, random, geometric) hand a range to
    their sampler as it is.  Whatever the dictionary of distinct names,
    for an entry with a key other than ['layers'] and outside
    [convert_to_int] whose value starts with something that is not a
    string: when [generate_combo] returns, the value has a second and a
    third item, the sampler has returned on [value[0]], [value[1]],
    [value[2]] at the call position of the entry, and the list under the
    key in the result is exactly what the sampler returned. *)
Theorem range_is_handed_to_the_sampler
    (convert_to_int : list string) (py_int : pyval -> result pyval)
    (sampler : nat -> pyval -> pyval -> pyval -> result (list pyval))
    (params_dict new_dict : Dict.t pyval) (n : nat) (key : string)
    (value v0 : pyval) :
  NoDup (Dict.keys params_dict) ->
  nth_error params_dict n = Some (key, value) ->
  key <> "layers"%string ->
  name_in key convert_to_int = false ->
  py_index value 0 = Ok v0 ->
  is_str v0 = false ->
  sampled_generate_combo convert_to_int py_int sampler params_dict
  = Ok (Some new_dict) ->
  exists v1 v2 samples,
    py_index value 1 = Ok v1 /\ py_index value 2 = Ok v2
    /\ sampler n v0 v1 v2 = Ok samples
    /\ Dict.get new_dict key = Some (PList samples).
Proof.
  intros Hnd Hnth Hkey Hint H0 Hstr. unfold sampled_generate_combo.
  destruct params_dict as [|kv entries] eqn:Edict;
    [destruct n; discriminate|].
  rewrite <- Edict in *.
  destruct (for_each _ params_dict (O, Dict.empty)) as [st|e] eqn:E;
    cbn [rbind]; [|discriminate].
  intros [= <-].
  exact (@RangeFacts.range_in_loop convert_to_int py_int sampler key value v0
           Hkey Hint H0 Hstr params_dict n (O, Dict.empty) st Hnd Hnth E).
Qed.

Lemma range_is_handed_to_the_sampler_witness :
  let value := PList [PFloat 0.125; PFloat 0.5; PInt 4; PStr "unread"] in
  let params_dict :=
    [("model_type"%string, PList [PStr "NN"]);
     ("weight_decay_penalty"%string, PList [PFloat 0; PFloat 0.5; PInt 3]);
     ("learning_rate"%string, value)] in
  let new_dict :=
    [("model_type"%string, PList [PStr "NN"]);
     ("weight_decay_penalty"%string,
      PList [PFloat 0; PFloat 0.25; PFloat 0.5]);
     ("learning_rate"%string,
      PList [PFloat 0.125; PFloat 0.25; PFloat 0.375; PFloat 0.5])] in
  exists v1 v2 samples,
    py_index value 1 = Ok v1 /\ py_index value 2 = Ok v2
    /\ Scenario.np_linspace (PFloat 0.125) v1 v2 = Ok samples
    /\ Dict.get new_dict "learning_rate" = Some (PList samples).
Proof.
  intros value params_dict new_dict.
  apply (@range_is_handed_to_the_sampler ["rf_estimators"%string]
           (fun v => Ok v) (fun _ => Scenario.np_linspace)
           params_dict new_dict 2 "learning_rate" value (PFloat 0.125)).
  - apply NamesFacts.distinctb_NoDup. reflexivity.
  - reflexivity.
  - discriminate.
  - reflexivity.
  - reflexivity.
  - reflexivity.
  - vm_compute. reflexivity.
Defined.


